(** * personfromvid: output naming and configuration model

    A shallow embedding of

    - [personfromvid/output/naming_convention.py] (class [NamingConvention]),
    - [personfromvid/data/config.py] (the pydantic configuration tree),

    together with the properties of the design document that concern them.

    Python values are modelled as follows.  A [str] is a [string] (a
    sequence of 8-bit characters; [str.lower] acts on the ASCII letters), an
    [int] is a [Z], a [float] is a binary64 [float] (Rocq's primitive
    floats, so that [0.6 + 0.5 > 1.0] is decided the way CPython decides
    it), a [set] of [str] is a [gset string] and a [dict] keyed by [str] is a
    [gmap string _].  Methods that change the state of an object take the
    state and return the new one; a call that raises returns the exception.
    Paths are those of [pathlib.PurePosixPath]. *)

From Stdlib Require Import ZArith String Ascii List Bool Lia PrimFloat.
From Stdlib Require Import DecimalString DecimalN DecimalFacts.
From stdpp Require Import base gmap strings list.

Set Warnings "-inexact-float,-clear-no-such-hyp,-register-all".

Local Open Scope Z_scope.

(* ===================================================================== *)
(** * Python primitives used by the two modules *)
(* ===================================================================== *)

Module Py.

Local Open Scope string_scope.

(** [s.lower()] on ASCII text. *)
Definition lower_char (c : ascii) : ascii :=
  let n := nat_of_ascii c in
  if (Nat.leb 65 n && Nat.leb n 90)%bool then ascii_of_nat (n + 32) else c.

Fixpoint str_map (f : ascii -> ascii) (s : string) : string :=
  match s with
  | EmptyString => EmptyString
  | String c rest => String (f c) (str_map f rest)
  end.

Definition lower (s : string) : string := str_map lower_char s.

(** [s.replace(old, new)] for one-character [old] and [new]. *)
Definition replace_char (old new : ascii) (s : string) : string :=
  str_map (fun c => if Ascii.eqb c old then new else c) s.

(** [c in s] for a character [c]. *)
Fixpoint contains_char (c : ascii) (s : string) : bool :=
  match s with
  | EmptyString => false
  | String d rest => Ascii.eqb d c || contains_char c rest
  end.

(** [any(char in s for char in chars)]. *)
Fixpoint any_char_in (chars s : string) : bool :=
  match chars with
  | EmptyString => false
  | String c rest => contains_char c s || any_char_in rest s
  end.

(** [s.startswith(p)]. *)
Definition startswith (s p : string) : bool := String.prefix p s.

(** Truthiness of a [str]. *)
Definition truthy (s : string) : bool :=
  match s with EmptyString => false | String _ _ => true end.

(** [sep.join(parts)]. *)
Fixpoint join (sep : string) (parts : list string) : string :=
  match parts with
  | [] => EmptyString
  | [p] => p
  | p :: rest => p ++ sep ++ join sep rest
  end.

(** [s.split(c)] for a one-character separator: never the empty list. *)
Fixpoint split_on (c : ascii) (s : string) : list string :=
  match s with
  | EmptyString => [EmptyString]
  | String d rest =>
      if Ascii.eqb d c then EmptyString :: split_on c rest
      else match split_on c rest with
           | [] => [String d EmptyString]
           | p :: ps => String d p :: ps
           end
  end.

(** Decimal digits of a natural number, [str(n)] for [n >= 0]. *)
Definition decimal (n : N) : string :=
  NilEmpty.string_of_uint (N.to_uint n).

(** [s.rjust(width, "0")]. *)
Fixpoint zeros (k : nat) : string :=
  match k with
  | O => EmptyString
  | S k' => String "0" (zeros k')
  end.

Definition zfill (width : nat) (s : string) : string :=
  zeros (width - String.length s) ++ s.

(** [f"{n:03d}"]: sign-aware zero padding to a minimum width of three. *)
Definition format_03d (n : Z) : string :=
  if Z.ltb n 0 then "-" ++ zfill 2 (decimal (Z.to_N (- n)))
  else zfill 3 (decimal (Z.to_N n)).

(** Three decimal digits: what [format_03d] yields within [0, 999]. *)
Definition digit (n : Z) : ascii := ascii_of_nat (48 + Z.to_nat n).

Definition three_digits (n : Z) : string :=
  String (digit (n / 100)) (String (digit (n / 10 mod 10))
    (String (digit (n mod 10)) EmptyString)).

(** Reading a formatted number back ([int(s)]), used to tell formatted
    numbers apart. *)
Definition parse_decimal (s : string) : option N :=
  N.of_uint <$> NilEmpty.uint_of_string s.

Definition parse_03d (s : string) : option Z :=
  match s with
  | String c r =>
      if Ascii.eqb c "-" then (fun n => - Z.of_N n) <$> parse_decimal r
      else Z.of_N <$> parse_decimal s
  | EmptyString => None
  end.

(** ** [pathlib.PurePosixPath]: [name], [stem] and [suffix] *)

(** The components of a path: split at ["/"], empty and ["."] components
    dropped. *)
Definition path_parts (s : string) : list string :=
  List.filter (fun x => truthy x && negb (String.eqb x "."))
              (split_on "/" s).

(** [Path(s).name]: the last component, or the empty string when there is
    none. *)
Definition path_name (s : string) : string :=
  List.last (path_parts s) EmptyString.

(** Splits a name at its last ["."]: [Some (before, after)] with
    [name = before ++ "." ++ after] and no ["."] in [after]. *)
Fixpoint rsplit_dot (s : string) : option (string * string) :=
  match s with
  | EmptyString => None
  | String c rest =>
      match rsplit_dot rest with
      | Some (b, a) => Some (String c b, a)
      | None => if Ascii.eqb c "." then Some (EmptyString, rest) else None
      end
  end.

(** [i = name.rfind('.')] and the test [0 < i < len(name) - 1] of [stem]
    and [suffix] (Python up to 3.13). *)
Definition name_split (name : string) : string * string :=
  match rsplit_dot name with
  | Some (b, a) =>
      if (Nat.ltb 0 (String.length b) && Nat.ltb 0 (String.length a))%bool
      then (b, String "." a) else (name, EmptyString)
  | None => (name, EmptyString)
  end.

Definition path_stem (s : string) : string := fst (name_split (path_name s)).
Definition path_suffix (s : string) : string := snd (name_split (path_name s)).

(** ** [pathlib.PurePosixPath]: parsed paths and [/] *)

(** A parsed path: its root (["/"], ["//"] or none) and its components. *)
Record PurePath := {
  _root : string;
  _tail : list string;
}.

(** [posixpath.splitroot]: no root unless the string begins with a
    separator; exactly two leading separators are a root of their own. *)
Definition splitroot (s : string) : string :=
  if negb (startswith s "/") then EmptyString
  else if negb (startswith s "//") || startswith s "///" then "/"
  else "//".

(** [Path(s)]. *)
Definition Path (s : string) : PurePath :=
  {| _root := splitroot s; _tail := path_parts s |}.

(** [self / key]: a [key] that begins with a separator replaces [self],
    any other has its components put after those of [self]. *)
Definition truediv (self : PurePath) (key : string) : PurePath :=
  if startswith key "/" then Path key
  else {| _root := _root self; _tail := _tail self ++ path_parts key |}.

(** [self.name] and [self.parent]. *)
Definition PurePath_name (self : PurePath) : string :=
  List.last (_tail self) EmptyString.

Definition PurePath_parent (self : PurePath) : PurePath :=
  {| _root := _root self; _tail := List.removelast (_tail self) |}.

End Py.

(* ===================================================================== *)
(** * naming_convention.py *)
(* ===================================================================== *)

Module Naming.

Import Py.
Local Open Scope string_scope.

(** The parts of [FrameData] the naming code reads. *)
Record HeadPoseResult := {
  direction : string;
  confidence : float;
}.

Record CloseupDetection := {
  shot_type : string;
}.

Record FrameData := {
  head_poses : list HeadPoseResult;
  closeup_detections : list CloseupDetection;
}.

(** Modelled from the spec: [FrameData.get_best_head_pose] is defined in
    [data/frame_data.py], which is not part of the sources at hand.  The
    design document says it "returns the highest-confidence head pose or
    none"; the first pose of highest confidence is taken, as Python's [max]
    does. *)
Fixpoint max_confidence (best : HeadPoseResult) (rest : list HeadPoseResult)
  : HeadPoseResult :=
  match rest with
  | [] => best
  | h :: t =>
      if PrimFloat.ltb (confidence best) (confidence h)
      then max_confidence h t else max_confidence best t
  end.

Definition get_best_head_pose (frame : FrameData) : option HeadPoseResult :=
  match head_poses frame with
  | [] => None
  | h :: t => Some (max_confidence h t)
  end.

(** The instance state of [NamingConvention]. *)
Record NamingConvention := {
  video_base_name : string;
  output_directory : string;
  _used_filenames : gset string;
  _sequence_counters : gmap string Z;
}.

(** [NamingConvention.__init__]. *)
Definition init (base_name out_dir : string) : NamingConvention :=
  {| video_base_name := base_name;
     output_directory := out_dir;
     _used_filenames := ∅;
     _sequence_counters := ∅ |}.

(** Reading [d[k]] of a [defaultdict(int)]: 0 for a key that is not there.
    (The read also stores the 0; the one place that reads a counter stores
    a number under the same key before it returns.) *)
Definition counter (nc : NamingConvention) (stem : string) : Z :=
  default 0 (_sequence_counters nc !! stem).

(** [_get_head_direction]. *)
Definition _get_head_direction (frame : FrameData) : string :=
  match head_poses frame with
  | [] => EmptyString
  | _ :: _ =>
      match get_best_head_pose frame with
      | Some best_head_pose =>
          if truthy (direction best_head_pose)
          then lower (replace_char " " "-" (direction best_head_pose))
          else EmptyString
      | None => EmptyString
      end
  end.

(** [_get_shot_type]. *)
Fixpoint first_shot_type (l : list CloseupDetection) : string :=
  match l with
  | [] => EmptyString
  | closeup :: rest =>
      if truthy (shot_type closeup)
      then lower (replace_char " " "-" (shot_type closeup))
      else first_shot_type rest
  end.

Definition _get_shot_type (frame : FrameData) : string :=
  first_shot_type (closeup_detections frame).

(** The [while True] loop of [_ensure_unique_filename], with a bound on
    the number of iterations; [None] when the bound is reached. *)
Fixpoint unique_loop (fuel : nat) (used : gset string)
    (name_without_ext extension : string) (sequence : Z)
  : option (string * Z) :=
  match fuel with
  | O => None
  | S fuel' =>
      let new_filename :=
        name_without_ext ++ "_" ++ format_03d sequence ++ extension in
      if decide (new_filename ∈ used)
      then unique_loop fuel' used name_without_ext extension (sequence + 1)
      else Some (new_filename, sequence)
  end.

(** [_ensure_unique_filename] run for at most [fuel] iterations of its
    loop. *)
Definition _ensure_unique_filename_fuel (fuel : nat)
    (nc : NamingConvention) (base_filename : string)
  : option (string * NamingConvention) :=
  if decide (base_filename ∈ _used_filenames nc) then
    let name_without_ext := path_stem base_filename in
    let extension := path_suffix base_filename in
    let sequence := counter nc name_without_ext + 1 in
    match unique_loop fuel (_used_filenames nc)
                      name_without_ext extension sequence with
    | Some (new_filename, sequence') =>
        Some (new_filename,
              {| video_base_name := video_base_name nc;
                 output_directory := output_directory nc;
                 _used_filenames := {[new_filename]} ∪ _used_filenames nc;
                 _sequence_counters :=
                   <[name_without_ext := sequence']> (_sequence_counters nc) |})
    | None => None
    end
  else
    Some (base_filename,
          {| video_base_name := video_base_name nc;
             output_directory := output_directory nc;
             _used_filenames := {[base_filename]} ∪ _used_filenames nc;
             _sequence_counters := _sequence_counters nc |}).

(** One more iteration than there are issued names always suffices
    (theorem [unique_loop_fuel] below). *)
Definition _ensure_unique_filename (nc : NamingConvention)
    (base_filename : string) : option (string * NamingConvention) :=
  _ensure_unique_filename_fuel (S (size (_used_filenames nc))) nc base_filename.

(** The candidate name built by [get_full_frame_filename]. *)
Definition full_frame_candidate (nc : NamingConvention) (frame : FrameData)
    (category : string) (rank : Z) (extension : string) : string :=
  let head_direction := _get_head_direction frame in
  let shot_type := _get_shot_type frame in
  let base_parts :=
    [video_base_name nc; category; head_direction; shot_type; format_03d rank] in
  join "_" (List.filter truthy base_parts) ++ "." ++ extension.

Definition get_full_frame_filename (nc : NamingConvention) (frame : FrameData)
    (category : string) (rank : Z) (extension : string)
  : option (string * NamingConvention) :=
  _ensure_unique_filename nc (full_frame_candidate nc frame category rank extension).

(** The candidate name built by [get_face_crop_filename]. *)
Definition face_crop_candidate (nc : NamingConvention) (frame : FrameData)
    (head_angle : string) (rank : Z) (extension : string) : string :=
  let base_parts := [video_base_name nc; "face"; head_angle; format_03d rank] in
  join "_" base_parts ++ "." ++ extension.

Definition get_face_crop_filename (nc : NamingConvention) (frame : FrameData)
    (head_angle : string) (rank : Z) (extension : string)
  : option (string * NamingConvention) :=
  _ensure_unique_filename nc (face_crop_candidate nc frame head_angle rank extension).

(** [validate_filename], returning the engine state it leaves behind. *)
Definition invalid_chars : string :=
  "<>:" ++ String (ascii_of_nat 34) "/\|?*".

Definition validate_filename (nc : NamingConvention) (filename : string)
  : bool * NamingConvention :=
  if negb (truthy filename) then (false, nc)
  else if any_char_in invalid_chars filename then (false, nc)
  else if Nat.ltb 255 (String.length filename) then (false, nc)
  else if negb (startswith filename (video_base_name nc)) then (false, nc)
  else (true, nc).

(** [get_full_output_path]: [output_directory] is a [Path], held here by
    its string. *)
Definition get_full_output_path (nc : NamingConvention) (filename : string)
  : PurePath :=
  truediv (Path (output_directory nc)) filename.

(** [reset_counters]. *)
Definition reset_counters (nc : NamingConvention) : NamingConvention :=
  {| video_base_name := video_base_name nc;
     output_directory := output_directory nc;
     _used_filenames := ∅;
     _sequence_counters := ∅ |}.

(** ** Sequences of filename-issuing calls *)

Inductive Call :=
  | FullFrame (frame : FrameData) (category : string) (rank : Z)
              (extension : string)
  | FaceCrop (frame : FrameData) (head_angle : string) (rank : Z)
             (extension : string).

(** The first-choice name of a call, before collision resolution. *)
Definition candidate (nc : NamingConvention) (c : Call) : string :=
  match c with
  | FullFrame frame category rank extension =>
      full_frame_candidate nc frame category rank extension
  | FaceCrop frame head_angle rank extension =>
      face_crop_candidate nc frame head_angle rank extension
  end.

Definition issue (nc : NamingConvention) (c : Call)
  : option (string * NamingConvention) :=
  match c with
  | FullFrame frame category rank extension =>
      get_full_frame_filename nc frame category rank extension
  | FaceCrop frame head_angle rank extension =>
      get_face_crop_filename nc frame head_angle rank extension
  end.

(** The names returned by a sequence of calls on one instance, oldest
    first, and the state the instance is left in. *)
Fixpoint run (nc : NamingConvention) (calls : list Call)
  : option (list string * NamingConvention) :=
  match calls with
  | [] => Some ([], nc)
  | c :: rest =>
      match issue nc c with
      | Some (name, nc1) =>
          match run nc1 rest with
          | Some (names, nc2) => Some (name :: names, nc2)
          | None => None
          end
      | None => None
      end
  end.

(** The sequence number a call has stored for [stem], when it stored
    one. *)
Definition assigned (nc nc' : NamingConvention) (stem : string) : option Z :=
  if decide (_sequence_counters nc' !! stem = _sequence_counters nc !! stem)
  then None else _sequence_counters nc' !! stem.

(** The collision-suffixed name [<stem>_<seq:03d><ext>]. *)
Definition suffixed (stem ext : string) (k : Z) : string :=
  stem ++ "_" ++ format_03d k ++ ext.

(** ** The naming rules in the words of the design document *)

(** "derives head_direction from the frame's best head pose (lower-cased,
    spaces replaced with hyphens; empty string if no head pose present)". *)
Definition spec_head_direction (frame : FrameData) : string :=
  match get_best_head_pose frame with
  | Some pose => replace_char " " "-" (lower (direction pose))
  | None => EmptyString
  end.

(** "derives shot_type similarly from the first closeup detection that has
    a non-empty shot type (empty string if none)". *)
Definition spec_shot_type (frame : FrameData) : string :=
  match List.find (fun c => truthy (shot_type c)) (closeup_detections frame) with
  | Some closeup => replace_char " " "-" (lower (shot_type closeup))
  | None => EmptyString
  end.

(** "joining, with a fixed separator, the non-empty components in fixed
    order: base name, category, head direction, shot type, rank zero-padded
    to 3 digits -- then appends .<extension>". *)
Definition spec_full_frame_name (base category head_direction shot_type : string)
    (rank : Z) (extension : string) : string :=
  join "_" (List.filter truthy
              [base; category; head_direction; shot_type; format_03d rank])
  ++ "." ++ extension.

End Naming.

(* ===================================================================== *)
(** * The pydantic object model used by config.py *)
(* ===================================================================== *)

(** The semantics of pydantic 2 that [config.py] relies on:

    - the keyword arguments of a constructor call are validated field by
      field in the order of declaration; a field that is not given takes
      its default, which is not validated;
    - a field's input goes through its [mode="before"] validators, then
      the validation of its annotation with the [ge]/[le] constraints,
      then its other validators, which see the fields validated so far in
      [info.data] (those that were rejected are not in it);
    - a [ValueError] raised by a validator becomes a line of the
      [ValidationError] raised at the end; any other exception raised by a
      validator propagates at once;
    - [model_config] is not inherited by the classes of the fields: an
      assignment to an attribute is validated only if the class of the
      object sets [validate_assignment];
    - [model_dump()] applies the field serialisers. *)

Module Pydantic.

Local Open Scope string_scope.

(** Python values: what a YAML or JSON document parses to, plus the three
    kinds of objects the configuration tree holds besides plain data. *)
Inductive PyValue :=
  | VNone
  | VBool (b : bool)
  | VInt (z : Z)
  | VFloat (f : float)
  | VStr (s : string)
  | VList (items : list PyValue)
  | VDict (items : gmap string PyValue)
  (** a [pathlib.Path], given by its [str()] *)
  | VPath (p : string)
  (** a member of a [str]-valued [Enum] class, given by its [.value] *)
  | VEnum (cls : string) (value : string)
  (** an instance of a [BaseModel] class, given by its [__dict__] *)
  | VModel (cls : string) (fields : gmap string PyValue).

(** One line of a [ValidationError]. *)
Inductive ErrorKind :=
  | type_error
  | model_type
  | greater_than_equal
  | less_than_equal
  | value_error (msg : string)
  (** an assignment to an attribute that is no field *)
  | no_such_attribute.

Record ErrorDetails := mkError {
  err_loc : list string;
  err_kind : ErrorKind;
}.

Inductive Exn :=
  | FileNotFoundError (msg : string)
  | ValueError (msg : string)
  | TypeError (msg : string)
  | AttributeError (msg : string)
  | ValidationError (errors : list ErrorDetails)
  (** [yaml.YAMLError], [json.JSONDecodeError], a representer error *)
  | LibraryError (msg : string).

Inductive Result (A : Type) :=
  | Ok (a : A)
  | Raise (e : Exn).
Arguments Ok {A} a.
Arguments Raise {A} e.

Definition bind {A B : Type} (r : Result A) (k : A -> Result B) : Result B :=
  match r with
  | Ok a => k a
  | Raise e => Raise e
  end.

(** The outcome of a call that returns. *)
Definition returns {A : Type} (r : Result A) (P : A -> Prop) : Prop :=
  match r with
  | Ok a => P a
  | Raise _ => False
  end.

(** The locations a [ValidationError] names. *)
Definition raises_validation_error {A : Type} (r : Result A)
    (P : list (list string) -> Prop) : Prop :=
  match r with
  | Raise (ValidationError errs) => P (map err_loc errs)
  | _ => False
  end.

(** The outcome of validating one field: a value, lines for the
    [ValidationError] under construction, or an exception that is not
    caught. *)
Inductive FieldOutcome :=
  | FOk (v : PyValue)
  | FErr (errs : list ErrorDetails)
  | FRaise (e : Exn).

Inductive Default :=
  (** [default=v], or the value a [default_factory] lambda returns *)
  | DValue (v : PyValue)
  (** [default_factory=Cls] for the annotated model class [Cls] *)
  | DModel.

(** What [Field(...)], [@field_validator] and [@field_serializer] attach to
    a field. *)
Record FieldInfo := {
  fi_default : Default;
  (** [@field_validator(..., mode="before")] *)
  fi_before : option (PyValue -> Result PyValue);
  (** [@field_validator(...)]: receives [info.field_name], the validated
      value and [info.data] *)
  fi_after : option (string -> PyValue -> gmap string PyValue -> Result PyValue);
  (** [@field_serializer(...)] *)
  fi_serializer : option (PyValue -> PyValue);
}.

(** Field annotations, with the [ge]/[le] constraints of [Field(...)]. *)
Inductive FieldType :=
  | TStr
  | TBool
  | TInt (ge le : option Z)
  | TFloat (ge le : option float)
  | TEnum (cls : string) (members : list string)
  | TPath
  | TOptional (t : FieldType)
  | TModel (cls : string) (fields : Fields)
with Fields :=
  | FNil
  | FCons (name : string) (ty : FieldType) (info : FieldInfo) (rest : Fields).

Scheme FieldType_mut := Induction for FieldType Sort Prop
  with Fields_mut := Induction for Fields Sort Prop.
Combined Scheme FieldType_Fields_mut from FieldType_mut, Fields_mut.

Record ModelClass := {
  cls_name : string;
  cls_fields : Fields;
  (** [model_config = ConfigDict(validate_assignment=...)], [False] when
      the class sets none *)
  cls_validate_assignment : bool;
}.

Definition annotation (c : ModelClass) : FieldType :=
  TModel (cls_name c) (cls_fields c).

Fixpoint mk_fields (l : list (string * FieldType * FieldInfo)) : Fields :=
  match l with
  | [] => FNil
  | (name, ty, info) :: rest => FCons name ty info (mk_fields rest)
  end.

Fixpoint find_field (fs : Fields) (name : string)
  : option (FieldType * FieldInfo) :=
  match fs with
  | FNil => None
  | FCons n ty info rest =>
      if String.eqb n name then Some (ty, info) else find_field rest name
  end.

(** [Field(default=v)] with no validator or serializer. *)
Definition field (v : PyValue) : FieldInfo :=
  {| fi_default := DValue v; fi_before := None; fi_after := None;
     fi_serializer := None |}.

(** [Field(default_factory=Cls)]. *)
Definition submodel : FieldInfo :=
  {| fi_default := DModel; fi_before := None; fi_after := None;
     fi_serializer := None |}.

(** ** What the Python runtime and the libraries contribute

    The parsers and printers of PyYAML and [json], pydantic's lax-mode
    conversions of inputs that are not of the annotated type (such as the
    string ["4"] for an [int] field), [pathlib]'s normalisation of a path
    string, the builtin [str] and [platformdirs.user_cache_dir] are not
    part of the repository; the model takes them as parameters.  A runtime
    stands for one process: what [user_cache_dir] returns there, which
    depends on the home directory of the user, is fixed by it.  The keys of
    a parsed mapping are strings. *)
Class Runtime := {
  FileContent : Type;
  (** the content of a file opened for writing and closed at once *)
  empty_file : FileContent;
  yaml_safe_load : FileContent -> Result PyValue;
  (** what [yaml.safe_dump(data, f)] writes, and the exception it ends
      with, if any *)
  yaml_safe_dump : PyValue -> FileContent * option Exn;
  json_load : FileContent -> Result PyValue;
  (** [json.dump(data, f, indent=2, default=str)] *)
  json_dump : PyValue -> FileContent * option Exn;
  lax : FieldType -> PyValue -> option PyValue;
  (** [str(Path(s))] *)
  Path_norm : string -> string;
  py_str : PyValue -> string;
  user_cache_dir : string -> string -> string;
}.

(** Plain data: the values YAML and JSON have a notation for. *)
Inductive plain : PyValue -> Prop :=
  | plain_none : plain VNone
  | plain_bool b : plain (VBool b)
  | plain_int z : plain (VInt z)
  | plain_float f : plain (VFloat f)
  | plain_str s : plain (VStr s)
  | plain_list l : Forall plain l -> plain (VList l)
  | plain_dict d : map_Forall (fun _ v => plain v) d -> plain (VDict d).

(** What the design relies on: a document written by [safe_dump] or
    [json.dump] reads back as the data it was written from. *)
Class RuntimeLaws (R : Runtime) := {
  yaml_roundtrip : forall d, plain d ->
    exists c, yaml_safe_dump d = (c, None) /\ yaml_safe_load c = Ok d;
  json_roundtrip : forall d, plain d ->
    exists c, json_dump d = (c, None) /\ json_load c = Ok d;
}.

Section Semantics.
Context {R : Runtime}.

(** ** Validation *)

(** The value a field of type [ty] takes from an input that already has
    that type.  A [Path] field takes a [str], an enum field the value of
    one of its members. *)
Definition native (ty : FieldType) (v : PyValue) : option PyValue :=
  match ty, v with
  | TStr, VStr _ => Some v
  | TBool, VBool _ => Some v
  | TInt _ _, VInt _ => Some v
  | TFloat _ _, VFloat _ => Some v
  | TEnum cls members, VEnum cls' _ =>
      if String.eqb cls cls' then Some v else None
  | TEnum cls members, VStr s =>
      if existsb (String.eqb s) members then Some (VEnum cls s) else None
  | TPath, VPath _ => Some v
  | TPath, VStr s => Some (VPath (Path_norm s))
  | _, _ => None
  end.

Definition coerce (ty : FieldType) (v : PyValue) : option PyValue :=
  match native ty v with
  | Some x => Some x
  | None => match lax ty v with
            | Some w => native ty w
            | None => None
            end
  end.

(** The [ge] and [le] constraints. *)
Definition check_bounds (ty : FieldType) (v : PyValue) : option ErrorKind :=
  match ty, v with
  | TInt ge le, VInt z =>
      if match ge with Some b => negb (Z.leb b z) | None => false end
      then Some greater_than_equal
      else if match le with Some b => negb (Z.leb z b) | None => false end
      then Some less_than_equal
      else None
  | TFloat ge le, VFloat f =>
      if match ge with Some b => negb (PrimFloat.leb b f) | None => false end
      then Some greater_than_equal
      else if match le with Some b => negb (PrimFloat.leb f b) | None => false end
      then Some less_than_equal
      else None
  | _, _ => None
  end.

Definition validate_scalar (ty : FieldType) (loc : list string) (v : PyValue)
  : FieldOutcome :=
  match coerce ty v with
  | None => FErr [mkError loc type_error]
  | Some x =>
      match check_bounds ty x with
      | Some k => FErr [mkError loc k]
      | None => FOk x
      end
  end.

(** A field's validators around the validation [core] of its annotation.
    A [ValueError] raised by a validator becomes a line of the
    [ValidationError]; any other exception propagates. *)
Definition run_field (name : string) (info : FieldInfo) (loc : list string)
    (core : PyValue -> FieldOutcome) (v : PyValue)
    (data : gmap string PyValue) : FieldOutcome :=
  match (match fi_before info with Some f => f v | None => Ok v end) with
  | Raise (ValueError msg) => FErr [mkError loc (value_error msg)]
  | Raise e => FRaise e
  | Ok v1 =>
      match core v1 with
      | FOk v2 =>
          match fi_after info with
          | None => FOk v2
          | Some f =>
              match f name v2 data with
              | Ok v3 => FOk v3
              | Raise (ValueError msg) => FErr [mkError loc (value_error msg)]
              | Raise e => FRaise e
              end
          end
      | other => other
      end
  end.

(** The value of a field that is not given. *)
Fixpoint default_of (ty : FieldType) (d : Default) {struct ty} : PyValue :=
  match d with
  | DValue v => v
  | DModel =>
      match ty with
      | TModel cls fs => VModel cls (defaults fs)
      | _ => VNone
      end
  end
with defaults (fs : Fields) : gmap string PyValue :=
  match fs with
  | FNil => ∅
  | FCons name ty info rest =>
      <[name := default_of ty (fi_default info)]> (defaults rest)
  end.

(** Validation of an input against an annotation, and of keyword
    arguments against the fields of a model, in the order of declaration;
    [data] holds the fields validated so far ([info.data]), [errs] the
    error lines so far. *)
Fixpoint validate_value (ty : FieldType) (loc : list string) (v : PyValue)
    {struct ty} : FieldOutcome :=
  match ty with
  | TOptional t =>
      match v with
      | VNone => FOk VNone
      | _ => validate_value t loc v
      end
  | TModel cls fs =>
      match v with
      | VDict kvs =>
          match validate_fields fs loc kvs ∅ [] with
          | Ok (data, []) => FOk (VModel cls data)
          | Ok (_, errs) => FErr errs
          | Raise e => FRaise e
          end
      | VModel cls' _ =>
          if String.eqb cls' cls then FOk v else FErr [mkError loc model_type]
      | _ => FErr [mkError loc model_type]
      end
  | _ => validate_scalar ty loc v
  end
with validate_fields (fs : Fields) (loc : list string)
    (kvs data : gmap string PyValue) (errs : list ErrorDetails) {struct fs}
  : Result (gmap string PyValue * list ErrorDetails) :=
  match fs with
  | FNil => Ok (data, errs)
  | FCons name ty info rest =>
      match kvs !! name with
      | None =>
          validate_fields rest loc kvs
            (<[name := default_of ty (fi_default info)]> data) errs
      | Some v =>
          match run_field name info (loc ++ [name])
                  (validate_value ty (loc ++ [name])) v data with
          | FOk v' => validate_fields rest loc kvs (<[name := v']> data) errs
          | FErr es => validate_fields rest loc kvs data (errs ++ es)
          | FRaise e => Raise e
          end
      end
  end.

(** A property of every field of a class. *)
Fixpoint Forall_fields (P : string -> FieldType -> FieldInfo -> Prop)
    (fs : Fields) : Prop :=
  match fs with
  | FNil => True
  | FCons name ty info rest => P name ty info /\ Forall_fields P rest
  end.

(** A field whose validation raises nothing but error lines. *)
Definition quiet (name : string) (ty : FieldType) (info : FieldInfo) : Prop :=
  forall loc v data e,
    run_field name info loc (validate_value ty loc) v data <> FRaise e.

(** The constructor call of a model class on keyword arguments. *)
Definition model_new (c : ModelClass) (kwargs : PyValue) : Result PyValue :=
  match kwargs with
  | VDict _ =>
      match validate_value (annotation c) [] kwargs with
      | FOk v => Ok v
      | FErr errs => Raise (ValidationError errs)
      | FRaise e => Raise e
      end
  | _ => Raise (TypeError "argument after ** must be a mapping")
  end.

(** [obj.name = v] on an instance of class [c].  A name that is no field
    is refused by the validator when the class validates assignments, and
    by [BaseModel.__setattr__] with a [ValueError] when it does not. *)
Definition setattr (c : ModelClass) (obj : PyValue) (name : string)
    (v : PyValue) : Result PyValue :=
  match obj with
  | VModel cls d =>
      match find_field (cls_fields c) name with
      | Some (ty, info) =>
          if cls_validate_assignment c then
            match run_field name info [name] (validate_value ty [name]) v
                    (delete name d) with
            | FOk v' => Ok (VModel cls (<[name := v']> d))
            | FErr errs => Raise (ValidationError errs)
            | FRaise e => Raise e
            end
          else Ok (VModel cls (<[name := v]> d))
      | None =>
          if cls_validate_assignment c
          then Raise (ValidationError [mkError [name] no_such_attribute])
          else Raise (ValueError "object has no field")
      end
  | _ => Raise (AttributeError "object has no attribute")
  end.

(** [getattr(obj, name)]. *)
Definition getattr (obj : PyValue) (name : string) : option PyValue :=
  match obj with
  | VModel _ d => d !! name
  | _ => None
  end.

(** [obj.group.name = v]: the assignment is made on the object that
    [obj.group] refers to, which [obj] goes on referring to. *)
Definition setattr_in (group : string) (c : ModelClass) (obj : PyValue)
    (name : string) (v : PyValue) : Result PyValue :=
  match obj with
  | VModel cls d =>
      match d !! group with
      | Some sub =>
          bind (setattr c sub name v)
               (fun sub' => Ok (VModel cls (<[group := sub']> d)))
      | None => Raise (AttributeError "object has no attribute")
      end
  | _ => Raise (AttributeError "object has no attribute")
  end.

(** ** Serialisation: [model_dump()], which [.dict()] stands for *)

(** A field is written by its serialiser when it has one. *)
Definition dump_field (info : FieldInfo) (dump : PyValue -> PyValue)
    (v : PyValue) : PyValue :=
  match fi_serializer info with
  | Some ser => ser v
  | None => dump v
  end.

Fixpoint dump_value (ty : FieldType) (v : PyValue) {struct ty} : PyValue :=
  match ty with
  | TModel _ fs =>
      match v with
      | VModel _ d => VDict (dump_fields fs d)
      | _ => v
      end
  | TOptional t => dump_value t v
  | _ => v
  end
with dump_fields (fs : Fields) (d : gmap string PyValue) {struct fs}
  : gmap string PyValue :=
  match fs with
  | FNil => ∅
  | FCons name ty info rest =>
      match d !! name with
      | Some v => <[name := dump_field info (dump_value ty) v]> (dump_fields rest d)
      | None => dump_fields rest d
      end
  end.

Definition model_dump (c : ModelClass) (obj : PyValue) : PyValue :=
  dump_value (annotation c) obj.

(** ** Values that survive being written and read *)

(** [v] is written as plain data from which validation gives [v] back. *)
Definition type_good (ty : FieldType) (v : PyValue) : Prop :=
  plain (dump_value ty v) /\
  forall loc, validate_value ty loc (dump_value ty v) = FOk v.

(** The same for a field, with its validators and serialiser. *)
Definition field_good (name : string) (ty : FieldType) (info : FieldInfo)
    (v : PyValue) : Prop :=
  plain (dump_field info (dump_value ty) v) /\
  forall loc data,
    run_field name info loc (validate_value ty loc)
      (dump_field info (dump_value ty) v) data = FOk v.

(** The same for a field of the instance [d] whose validator looks at
    the fields [prev] validated before it. *)
Definition field_good_in (d : gmap string PyValue) (prev : list string)
    (name : string) (ty : FieldType) (info : FieldInfo) (v : PyValue) : Prop :=
  plain (dump_field info (dump_value ty) v) /\
  forall loc data,
    (forall k, k ∈ prev -> data !! k = d !! k) ->
    run_field name info loc (validate_value ty loc)
      (dump_field info (dump_value ty) v) data = FOk v.

(** Every field among [fs] of the instance [d] of a class with the
    fields [full] is good. *)
Fixpoint fields_good (full : Fields) (d : gmap string PyValue)
    (prev : list string) (fs : Fields) : Prop :=
  match fs with
  | FNil => True
  | FCons name ty info rest =>
      (exists v, d !! name = Some v /\
                 find_field full name = Some (ty, info) /\
                 field_good_in d prev name ty info v)
      /\ fields_good full d (name :: prev) rest
  end.

(** The names of the fields of a class. *)
Fixpoint names (fs : Fields) : list string :=
  match fs with
  | FNil => []
  | FCons name _ _ rest => name :: names rest
  end.

(** [conforms ty v]: [v] is a value of the annotation [ty] within the
    declared [ge]/[le] range; for a model class, an instance holding such
    a value for every field and nothing else. *)
Fixpoint conforms (ty : FieldType) (v : PyValue) {struct ty} : bool :=
  match ty with
  | TStr => match v with VStr _ => true | _ => false end
  | TBool => match v with VBool _ => true | _ => false end
  | TInt _ _ =>
      match v with
      | VInt _ => match check_bounds ty v with None => true | Some _ => false end
      | _ => false
      end
  | TFloat _ _ =>
      match v with
      | VFloat _ => match check_bounds ty v with None => true | Some _ => false end
      | _ => false
      end
  | TEnum cls members =>
      match v with
      | VEnum cls' m => String.eqb cls cls' && existsb (String.eqb m) members
      | _ => false
      end
  | TPath =>
      match v with
      | VPath p => String.eqb (Path_norm p) p
      | _ => false
      end
  | TOptional t =>
      match v with
      | VNone => true
      | _ => conforms t v
      end
  | TModel cls fs =>
      match v with
      | VModel cls' d =>
          String.eqb cls' cls && conforms_fields fs d
          && bool_decide (dom d = list_to_set (names fs))
      | _ => false
      end
  end
with conforms_fields (fs : Fields) (d : gmap string PyValue) {struct fs} : bool :=
  match fs with
  | FNil => true
  | FCons name ty _ rest =>
      match d !! name with
      | Some v => conforms ty v && conforms_fields rest d
      | None => false
      end
  end.

(** [offends ty v path]: in the input [v] for the annotation [ty], the
    field at [path] is given a value that its annotation rejects, for its
    type (no conversion to the annotated type) or for its range. *)
Fixpoint offends (ty : FieldType) (v : PyValue) (path : list string)
    {struct ty} : Prop :=
  match ty with
  | TOptional t =>
      match v with
      | VNone => False
      | _ => offends t v path
      end
  | TModel _ fs =>
      match v with
      | VDict kvs => offends_fields fs kvs path
      | VModel _ _ => False
      | _ => path = []
      end
  | _ =>
      path = [] /\
      match coerce ty v with
      | None => True
      | Some x => check_bounds ty x <> None
      end
  end
with offends_fields (fs : Fields) (kvs : gmap string PyValue)
    (path : list string) {struct fs} : Prop :=
  match fs with
  | FNil => False
  | FCons name ty info rest =>
      (exists v v1 sub,
          path = name :: sub /\ kvs !! name = Some v /\
          match fi_before info with Some f => f v | None => Ok v end = Ok v1 /\
          offends ty v1 sub)
      \/ offends_fields rest kvs path
  end.

(** [in_range ty v]: [v] has the type of the annotation [ty] and meets
    its [ge]/[le] constraints; for a model class, an instance of the class
    holding such a value for every field. *)
Fixpoint in_range (ty : FieldType) (v : PyValue) {struct ty} : bool :=
  match ty with
  | TStr => match v with VStr _ => true | _ => false end
  | TBool => match v with VBool _ => true | _ => false end
  | TInt _ _ =>
      match v with
      | VInt _ => match check_bounds ty v with None => true | Some _ => false end
      | _ => false
      end
  | TFloat _ _ =>
      match v with
      | VFloat _ => match check_bounds ty v with None => true | Some _ => false end
      | _ => false
      end
  | TEnum cls _ =>
      match v with
      | VEnum cls' _ => String.eqb cls cls'
      | _ => false
      end
  | TPath => match v with VPath _ => true | _ => false end
  | TOptional t =>
      match v with
      | VNone => true
      | _ => in_range t v
      end
  | TModel cls fs =>
      match v with
      | VModel cls' d => String.eqb cls' cls && in_range_fields fs d
      | _ => false
      end
  end
with in_range_fields (fs : Fields) (d : gmap string PyValue) {struct fs} : bool :=
  match fs with
  | FNil => true
  | FCons name ty _ rest =>
      match d !! name with
      | Some v => in_range ty v && in_range_fields rest d
      | None => false
      end
  end.

(** A field whose default is in range and whose validation, run on plain
    data, returns values in range only. *)
Definition field_in_range (name : string) (ty : FieldType) (info : FieldInfo)
  : Prop :=
  in_range ty (default_of ty (fi_default info)) = true /\
  forall loc v data x,
    plain v ->
    run_field name info loc (validate_value ty loc) v data = FOk x ->
    in_range ty x = true.

(** A field whose validator, if it has one, returns the value it is given
    or raises. *)
Definition keeps_value (info : FieldInfo) : Prop :=
  forall f, fi_after info = Some f ->
    forall name v data x, f name v data = Ok x -> x = v.

(** An annotation whose error lines all carry the location of the value
    itself: anything but a model class. *)
Fixpoint own_errors (ty : FieldType) : bool :=
  match ty with
  | TModel _ _ => false
  | TOptional t => own_errors t
  | _ => true
  end.

(** A class in which a [mode="before"] validator is attached to fields of
    such annotations only, at every depth. *)
Fixpoint direct (ty : FieldType) {struct ty} : bool :=
  match ty with
  | TOptional t => direct t
  | TModel _ fs => direct_fields fs
  | _ => true
  end
with direct_fields (fs : Fields) {struct fs} : bool :=
  match fs with
  | FNil => true
  | FCons _ ty info rest =>
      match fi_before info with
      | None => true
      | Some _ => own_errors ty
      end && direct ty && direct_fields rest
  end.

End Semantics.

End Pydantic.

(* ===================================================================== *)
(** * config.py *)
(* ===================================================================== *)

Module Config.

Import Py Pydantic.
Local Open Scope string_scope.

Section Classes.
Context {R : Runtime}.

(** ** Enumerations *)

Definition LogLevel : FieldType :=
  TEnum "LogLevel" ["DEBUG"; "INFO"; "WARNING"; "ERROR"; "CRITICAL"].

Definition DeviceType : FieldType :=
  TEnum "DeviceType" ["cpu"; "gpu"; "auto"].

(** ** Validators and serialisers *)

(** [ModelConfig.serialize_device]. *)
Definition serialize_device (value : PyValue) : PyValue :=
  match value with
  | VEnum cls member =>
      if String.eqb cls "DeviceType" then VStr member else VStr (py_str value)
  | _ => VStr (py_str value)
  end.

(** [LoggingConfig.serialize_level]. *)
Definition serialize_level (value : PyValue) : PyValue :=
  match value with
  | VEnum cls member =>
      if String.eqb cls "LogLevel" then VStr member else VStr (py_str value)
  | _ => VStr (py_str value)
  end.

(** [StorageConfig.convert_path] and [LoggingConfig.convert_log_path]:
    [Path(v)] raises [TypeError] on anything but a [str] or a path. *)
Definition convert_path (v : PyValue) : Result PyValue :=
  match v with
  | VNone => Ok v
  | VPath _ => Ok v
  | VStr s => Ok (VPath (Path_norm s))
  | _ => Raise (TypeError "expected str, bytes or os.PathLike object")
  end.

(** [StorageConfig.serialize_path] and [LoggingConfig.serialize_log_path]. *)
Definition serialize_path (value : PyValue) : PyValue :=
  match value with
  | VNone => VNone
  | VPath p => VStr p
  | _ => VStr (py_str value)
  end.

(** [FrameSelectionConfig.validate_weights_sum].  Through construction
    [info.data] holds a [float] for [face_size_weight] or nothing. *)
Definition validate_weights_sum (field_name : string) (v : PyValue)
    (data : gmap string PyValue) : Result PyValue :=
  if String.eqb field_name "quality_weight" then
    let face_size_weight := default (VFloat 0.3) (data !! "face_size_weight") in
    match v, face_size_weight with
    | VFloat q, VFloat f =>
        if PrimFloat.ltb 1.0 (q + f)
        then Raise (ValueError
               ("face_size_weight (" ++ py_str face_size_weight
                ++ ") + quality_weight (" ++ py_str v
                ++ ") must not exceed 1.0"))
        else Ok v
    | _, _ => Raise (TypeError "unsupported operand type(s) for +")
    end
  else Ok v.

Definition with_before (f : PyValue -> Result PyValue) (info : FieldInfo)
  : FieldInfo :=
  {| fi_default := fi_default info; fi_before := Some f;
     fi_after := fi_after info; fi_serializer := fi_serializer info |}.

Definition with_after
    (f : string -> PyValue -> gmap string PyValue -> Result PyValue)
    (info : FieldInfo) : FieldInfo :=
  {| fi_default := fi_default info; fi_before := fi_before info;
     fi_after := Some f; fi_serializer := fi_serializer info |}.

Definition with_serializer (f : PyValue -> PyValue) (info : FieldInfo)
  : FieldInfo :=
  {| fi_default := fi_default info; fi_before := fi_before info;
     fi_after := fi_after info; fi_serializer := Some f |}.

(** ** The model classes *)

Definition DEFAULT_CONFIDENCE_THRESHOLD : float := 0.3.
Definition DEFAULT_BATCH_SIZE : Z := 1.
Definition DEFAULT_JPEG_QUALITY : Z := 95.

Definition class (name : string) (fields : list (string * FieldType * FieldInfo))
  : ModelClass :=
  {| cls_name := name; cls_fields := mk_fields fields;
     cls_validate_assignment := false |}.

Definition ModelConfig : ModelClass := class "ModelConfig" [
  ("face_detection_model", TStr, field (VStr "yolov8s-face"));
  ("pose_estimation_model", TStr, field (VStr "yolov8s-pose"));
  ("head_pose_model", TStr, field (VStr "sixdrepnet"));
  ("device", DeviceType,
     with_serializer serialize_device (field (VEnum "DeviceType" "auto")));
  ("batch_size", TInt (Some 1) (Some 64), field (VInt DEFAULT_BATCH_SIZE));
  ("confidence_threshold", TFloat (Some 0.0%float) (Some 1.0%float),
     field (VFloat DEFAULT_CONFIDENCE_THRESHOLD))
].

Definition FrameExtractionConfig : ModelClass := class "FrameExtractionConfig" [
  ("temporal_sampling_interval", TFloat (Some 0.1%float) (Some 2.0%float),
     field (VFloat 0.25));
  ("enable_keyframe_detection", TBool, field (VBool true));
  ("enable_temporal_sampling", TBool, field (VBool true));
  ("max_frames_per_video", TOptional (TInt (Some 10) None), field VNone);
  ("deduplication_enabled", TBool, field (VBool true))
].

Definition QualityConfig : ModelClass := class "QualityConfig" [
  ("blur_threshold", TFloat (Some 10.0%float) None, field (VFloat 100.0));
  ("brightness_min", TFloat (Some 0.0%float) (Some 255.0%float),
     field (VFloat 30.0));
  ("brightness_max", TFloat (Some 0.0%float) (Some 255.0%float),
     field (VFloat 225.0));
  ("contrast_min", TFloat (Some 0.0%float) None, field (VFloat 20.0));
  ("enable_multiple_metrics", TBool, field (VBool true))
].

Definition PoseClassificationConfig : ModelClass :=
  class "PoseClassificationConfig" [
  ("standing_hip_knee_angle_min", TFloat (Some 120.0%float) (Some 180.0%float),
     field (VFloat 160.0));
  ("sitting_hip_knee_angle_min", TFloat (Some 45.0%float) (Some 120.0%float),
     field (VFloat 80.0));
  ("sitting_hip_knee_angle_max", TFloat (Some 80.0%float) (Some 160.0%float),
     field (VFloat 120.0));
  ("squatting_hip_knee_angle_max", TFloat (Some 45.0%float) (Some 120.0%float),
     field (VFloat 90.0));
  ("closeup_face_area_threshold", TFloat (Some 0.05%float) (Some 0.5%float),
     field (VFloat 0.15))
].

Definition HeadAngleConfig : ModelClass := class "HeadAngleConfig" [
  ("yaw_threshold_degrees", TFloat (Some 10.0%float) (Some 45.0%float),
     field (VFloat 22.5));
  ("pitch_threshold_degrees", TFloat (Some 10.0%float) (Some 45.0%float),
     field (VFloat 22.5));
  ("max_roll_degrees", TFloat (Some 15.0%float) (Some 60.0%float),
     field (VFloat 30.0));
  ("profile_yaw_threshold", TFloat (Some 45.0%float) (Some 90.0%float),
     field (VFloat 67.5))
].

Definition CloseupDetectionConfig : ModelClass :=
  class "CloseupDetectionConfig" [
  ("extreme_closeup_threshold", TFloat (Some 0.15%float) (Some 0.5%float),
     field (VFloat 0.25));
  ("closeup_threshold", TFloat (Some 0.08%float) (Some 0.3%float),
     field (VFloat 0.15));
  ("medium_closeup_threshold", TFloat (Some 0.04%float) (Some 0.15%float),
     field (VFloat 0.08));
  ("medium_shot_threshold", TFloat (Some 0.01%float) (Some 0.08%float),
     field (VFloat 0.03));
  ("shoulder_width_threshold", TFloat (Some 0.2%float) (Some 0.6%float),
     field (VFloat 0.35));
  ("enable_composition_analysis", TBool, field (VBool true));
  ("enable_distance_estimation", TBool, field (VBool true))
].

Definition FrameSelectionConfig : ModelClass := class "FrameSelectionConfig" [
  ("min_quality_threshold", TFloat (Some 0.0%float) (Some 1.0%float),
     field (VFloat 0.2));
  ("face_size_weight", TFloat (Some 0.0%float) (Some 1.0%float),
     with_after validate_weights_sum (field (VFloat 0.3)));
  ("quality_weight", TFloat (Some 0.0%float) (Some 1.0%float),
     with_after validate_weights_sum (field (VFloat 0.7)));
  ("diversity_threshold", TFloat (Some 0.0%float) (Some 1.0%float),
     field (VFloat 0.8))
].

Definition PngConfig : ModelClass := class "PngConfig" [
  ("optimize", TBool, field (VBool true))
].

Definition JpegConfig : ModelClass := class "JpegConfig" [
  ("quality", TInt (Some 70) (Some 100), field (VInt 95))
].

Definition OutputImageConfig : ModelClass := class "OutputImageConfig" [
  ("format", TStr, field (VStr "jpeg"));
  ("face_crop_enabled", TBool, field (VBool true));
  ("full_frame_enabled", TBool, field (VBool true));
  ("face_crop_padding", TFloat (Some 0.0%float) (Some 1.0%float),
     field (VFloat 0.2));
  ("resize", TOptional (TInt (Some 256) (Some 4096)), field VNone);
  ("png", annotation PngConfig, submodel);
  ("jpeg", annotation JpegConfig, submodel)
].

Definition OutputConfig : ModelClass := class "OutputConfig" [
  ("min_frames_per_category", TInt (Some 1) (Some 10), field (VInt 3));
  ("preserve_metadata", TBool, field (VBool true));
  ("image", annotation OutputImageConfig, submodel)
].

Definition StorageConfig : ModelClass := class "StorageConfig" [
  ("cache_directory", TPath,
     with_serializer serialize_path (with_before convert_path
       (field (VPath (Path_norm (user_cache_dir "personfromvid" "codeprimate"))))));
  ("temp_directory", TOptional TPath,
     with_serializer serialize_path (with_before convert_path (field VNone)));
  ("cleanup_temp_on_success", TBool, field (VBool true));
  ("cleanup_temp_on_failure", TBool, field (VBool false));
  ("keep_temp", TBool, field (VBool false));
  ("force_temp_cleanup", TBool, field (VBool false));
  ("max_cache_size_gb", TFloat (Some 0.5%float) (Some 50.0%float),
     field (VFloat 5.0))
].

Definition ProcessingConfig : ModelClass := class "ProcessingConfig" [
  ("enable_resume", TBool, field (VBool true));
  ("save_intermediate_results", TBool, field (VBool true));
  ("max_processing_time_minutes", TOptional (TInt (Some 1) None), field VNone);
  ("parallel_workers", TInt (Some 1) (Some 16), field (VInt 1))
].

Definition LoggingConfig : ModelClass := class "LoggingConfig" [
  ("level", LogLevel,
     with_serializer serialize_level (field (VEnum "LogLevel" "INFO")));
  ("enable_file_logging", TBool, field (VBool false));
  ("log_file", TOptional TPath,
     with_serializer serialize_path (with_before convert_path (field VNone)));
  ("enable_rich_console", TBool, field (VBool true));
  ("enable_structured_output", TBool, field (VBool true));
  ("verbose", TBool, field (VBool false))
].

(** [Config]: the only class with a [model_config]; its [env_prefix] and
    [env_nested_delimiter] entries are settings of [pydantic_settings],
    which a [BaseModel] does not read. *)
Definition Config : ModelClass :=
  {| cls_name := "Config";
     cls_fields := mk_fields [
       ("models", annotation ModelConfig, submodel);
       ("frame_extraction", annotation FrameExtractionConfig, submodel);
       ("quality", annotation QualityConfig, submodel);
       ("pose_classification", annotation PoseClassificationConfig, submodel);
       ("head_angle", annotation HeadAngleConfig, submodel);
       ("closeup_detection", annotation CloseupDetectionConfig, submodel);
       ("frame_selection", annotation FrameSelectionConfig, submodel);
       ("output", annotation OutputConfig, submodel);
       ("storage", annotation StorageConfig, submodel);
       ("processing", annotation ProcessingConfig, submodel);
       ("logging", annotation LoggingConfig, submodel)
     ];
     cls_validate_assignment := true |}.

(** ** Loading and saving *)

(** The files of the file system, by path: the regular files that are
    there and can be opened.  Directories, files that cannot be read and
    the other failures of [open] are not modelled; a path that is not in
    the map stands for one at which nothing exists. *)
Local Abbreviation Files := (gmap string FileContent).

Definition is_yaml (suffix : string) : bool :=
  existsb (String.eqb suffix) [".yaml"; ".yml"].

Definition is_json (suffix : string) : bool := String.eqb suffix ".json".

(** [Config.from_file]. *)
Definition from_file (fs : Files) (config_path : string) : Result PyValue :=
  match fs !! config_path with
  | None =>
      Raise (FileNotFoundError
               ("Configuration file not found: " ++ config_path))
  | Some f =>
      bind (if is_yaml (lower (path_suffix config_path)) then yaml_safe_load f
            else if is_json (lower (path_suffix config_path)) then json_load f
            else Raise (ValueError ("Unsupported config file format: "
                                    ++ path_suffix config_path)))
           (model_new Config)
  end.

(** [Config.from_env]: [environ] is the process environment. *)
Definition from_env (environ : gmap string string) : Result PyValue :=
  model_new Config (VDict ∅).

(** [Config.to_file]: the files afterwards and the exception raised, if
    any.  The file is opened for writing before the suffix is looked at. *)
Definition to_file (self : PyValue) (fs : Files) (config_path : string)
  : Files * option Exn :=
  let data := model_dump Config self in
  if is_yaml (lower (path_suffix config_path)) then
    (<[config_path := fst (yaml_safe_dump data)]> fs, snd (yaml_safe_dump data))
  else if is_json (lower (path_suffix config_path)) then
    (<[config_path := fst (json_dump data)]> fs, snd (json_dump data))
  else
    (<[config_path := empty_file]> fs,
     Some (ValueError ("Unsupported config file format: "
                       ++ path_suffix config_path))).

(** [get_default_config] and [load_config].  A [Path] is always true, so
    the test [config_path and config_path.exists()] is that of a path that
    is given and at which there is a file. *)
Definition get_default_config (environ : gmap string string) : Result PyValue :=
  from_env environ.

Definition load_config (environ : gmap string string) (fs : Files)
    (config_path : option string) : Result PyValue :=
  match config_path with
  | Some p => if decide (is_Some (fs !! p)) then from_file fs p
              else get_default_config environ
  | None => get_default_config environ
  end.

(** ** Valid configurations, for the statements below *)

(** The cross-field constraint, computed the way the validator computes
    it. *)
Definition weights_sum_ok (config : PyValue) : bool :=
  match getattr config "frame_selection" with
  | Some selection =>
      match getattr selection "quality_weight",
            getattr selection "face_size_weight" with
      | Some (VFloat q), Some (VFloat f) => negb (PrimFloat.ltb 1.0 (q + f))
      | _, _ => false
      end
  | None => false
  end.

(** [data[k1][k2]...] in parsed or dumped data. *)
Fixpoint item (data : PyValue) (keys : list string) : option PyValue :=
  match keys with
  | [] => Some data
  | k :: rest =>
      match data with
      | VDict d => match d !! k with Some v => item v rest | None => None end
      | _ => None
      end
  end.

(** [obj.a1.a2...] on instances. *)
Fixpoint attr (obj : PyValue) (path : list string) : option PyValue :=
  match path with
  | [] => Some obj
  | a :: rest =>
      match getattr obj a with
      | Some v => attr v rest
      | None => None
      end
  end.

Definition is_str_or_none (v : option PyValue) : bool :=
  match v with
  | Some (VStr _) | Some VNone => true
  | _ => false
  end.

Definition is_str (v : option PyValue) : bool :=
  match v with
  | Some (VStr _) => true
  | _ => false
  end.

(** An input on which [Path(v)] raises [TypeError]: given, and not
    [None], a [str] or a path. *)
Definition not_pathlike (v : option PyValue) : Prop :=
  match v with
  | None | Some VNone | Some (VStr _) | Some (VPath _) => False
  | Some _ => True
  end.

(** The class [c] with [validate_assignment=True] in its [model_config]. *)
Definition validating (c : ModelClass) : ModelClass :=
  {| cls_name := cls_name c; cls_fields := cls_fields c;
     cls_validate_assignment := true |}.

End Classes.

(** A runtime to evaluate examples in: a file holds the document it was
    written from (an empty file none), inputs are validated strictly, and
    path strings are taken as they are. *)
Definition reference_runtime : Runtime := {|
  FileContent := option PyValue;
  empty_file := None;
  yaml_safe_load := fun c => match c with
                             | Some d => Ok d
                             | None => Ok VNone
                             end;
  yaml_safe_dump := fun d => (Some d, None);
  json_load := fun c => match c with
                        | Some d => Ok d
                        | None => Raise (LibraryError "Expecting value")
                        end;
  json_dump := fun d => (Some d, None);
  lax := fun _ _ => None;
  Path_norm := fun s => s;
  py_str := fun v => match v with
                     | VStr s => s
                     | VPath p => p
                     | VEnum _ m => m
                     | _ => EmptyString
                     end;
  user_cache_dir := fun app _ => "/home/user/.cache/" ++ app;
|}.

End Config.

(* ===================================================================== *)
(** * Facts about the Python primitives *)
(* ===================================================================== *)

Module PyFacts.
Import Py.
Local Open Scope string_scope.

Lemma app_cons (c : ascii) (s t : string) :
  String c s ++ t = String c (s ++ t).
Proof. reflexivity. Qed.

Lemma app_nil_l (s : string) : EmptyString ++ s = s.
Proof. reflexivity. Qed.

Lemma length_app (s t : string) :
  String.length (s ++ t) = (String.length s + String.length t)%nat.
Proof.
  induction s as [|c s IH]; [done |].
  rewrite app_cons. simpl. by rewrite IH.
Qed.

Lemma app_assoc (s t u : string) : (s ++ t) ++ u = s ++ (t ++ u).
Proof.
  induction s as [|c s IH]; [done |].
  rewrite !app_cons. by rewrite IH.
Qed.

(** Cancellation of a common ending. *)
Lemma app_inv_tail (s t e : string) : s ++ e = t ++ e → s = t.
Proof.
  revert t. induction s as [|c s IH]; intros [|d t] H;
    rewrite ?app_cons, ?app_nil_l in H.
  - done.
  - apply (f_equal String.length) in H. simpl in H. rewrite length_app in H. lia.
  - apply (f_equal String.length) in H. simpl in H. rewrite length_app in H. lia.
  - injection H as -> H. f_equal. by apply IH.
Qed.

Lemma prefix_app (p t : string) : String.prefix p (p ++ t) = true.
Proof.
  induction p as [|c p IH]; [by destruct t |].
  rewrite app_cons. simpl. destruct (ascii_dec c c); [done | congruence].
Qed.

Lemma prefix_refl (p : string) : String.prefix p p = true.
Proof.
  induction p as [|c p IH]; simpl; [done |].
  destruct (ascii_dec c c); [done | congruence].
Qed.

Lemma prefix_app_r (p s t : string) :
  String.prefix p s = true → String.prefix p (s ++ t) = true.
Proof.
  revert s. induction p as [|c p IH]; intros s H.
  - by destruct (s ++ t).
  - destruct s as [|d s]; [done |]. rewrite app_cons. simpl in *.
    destruct (ascii_dec c d); [by apply IH | done].
Qed.

Lemma prefix_iff (p s : string) :
  String.prefix p s = true ↔ ∃ t, s = p ++ t.
Proof.
  split.
  - revert s. induction p as [|c p IH]; intros s H.
    + by exists s.
    + destruct s as [|d s]; [done |]. simpl in H.
      destruct (ascii_dec c d) as [->|]; [| done].
      destruct (IH _ H) as [t ->]. by exists t.
  - intros [t ->]. apply prefix_app.
Qed.

Lemma prefix_trans (p q s : string) :
  String.prefix p q = true → String.prefix q s = true → String.prefix p s = true.
Proof.
  rewrite !prefix_iff. intros [t ->] [u ->]. exists (t ++ u). apply app_assoc.
Qed.

Lemma truthy_iff (s : string) : truthy s = true ↔ s ≠ "".
Proof. by destruct s. Qed.

Lemma str_map_map (f g : ascii → ascii) (s : string) :
  str_map f (str_map g s) = str_map (λ c, f (g c)) s.
Proof. induction s as [|c s IH]; simpl; [done | by rewrite IH]. Qed.

Lemma str_map_ext (f g : ascii → ascii) (s : string) :
  (∀ c, f c = g c) → str_map f s = str_map g s.
Proof. intros E. induction s as [|c s IH]; simpl; [done | by rewrite E, IH]. Qed.

(** Lower-casing and hyphenating commute: the space and the hyphen are not
    letters. *)
Lemma lower_replace_comm (s : string) :
  lower (replace_char " " "-" s) = replace_char " " "-" (lower s).
Proof.
  unfold lower, replace_char. rewrite !str_map_map. apply str_map_ext.
  intros c. destruct (Ascii.eqb_spec c " ") as [->|Hc]; [done |].
  destruct (Ascii.eqb_spec (lower_char c) " ") as [E|]; [| done].
  exfalso. revert Hc E.
  destruct c as [[] [] [] [] [] [] [] []]; vm_compute; congruence.
Qed.

Lemma contains_char_In (c : ascii) (s : string) :
  contains_char c s = true ↔ In c (list_ascii_of_string s).
Proof.
  induction s as [|d s IH]; simpl; [by split |].
  rewrite orb_true_iff, IH, Ascii.eqb_eq. tauto.
Qed.

Lemma any_char_in_iff (chars s : string) :
  any_char_in chars s = true ↔
  ∃ c, In c (list_ascii_of_string chars) ∧ In c (list_ascii_of_string s).
Proof.
  induction chars as [|d chars IH]; simpl.
  - split; [done | by intros (? & [] & _)].
  - rewrite orb_true_iff, IH, contains_char_In. split.
    + intros [H | (c & H1 & H2)]; [exists d | exists c]; tauto.
    + intros (c & [-> | H1] & H2); [by left | right; by exists c].
Qed.

(** ** Decimal formatting can be read back *)

Lemma parse_decimal_decimal (n : N) : parse_decimal (decimal n) = Some n.
Proof.
  unfold parse_decimal, decimal. rewrite NilEmpty.usu. simpl.
  by rewrite DecimalN.Unsigned.of_to.
Qed.

Lemma parse_decimal_zeros (k : nat) (s : string) :
  parse_decimal (zeros k ++ s) = parse_decimal s.
Proof.
  induction k as [|k IH]; [done |].
  simpl zeros. rewrite app_cons. unfold parse_decimal in *. simpl.
  destruct (NilEmpty.uint_of_string (zeros k ++ s)) as [d|] eqn:E;
    destruct (NilEmpty.uint_of_string s) as [d'|] eqn:E'; simpl in *; congruence.
Qed.

Lemma parse_decimal_zfill (w : nat) (n : N) :
  parse_decimal (zfill w (decimal n)) = Some n.
Proof. unfold zfill. by rewrite parse_decimal_zeros, parse_decimal_decimal. Qed.

Lemma parse_decimal_dash (s : string) : parse_decimal (String "-" s) = None.
Proof.
  unfold parse_decimal. simpl.
  by destruct (NilEmpty.uint_of_string s).
Qed.

Lemma length_zeros (k : nat) : String.length (zeros k) = k.
Proof. induction k as [|k IH]; simpl; [done | by rewrite IH]. Qed.

Lemma length_zfill (w : nat) (s : string) :
  (w <= String.length (zfill w s))%nat.
Proof. unfold zfill. rewrite length_app, length_zeros. lia. Qed.

Lemma parse_format_03d (n : Z) : parse_03d (format_03d n) = Some n.
Proof.
  unfold format_03d. destruct (Z.ltb_spec n 0) as [Hn|Hn].
  - rewrite app_cons, app_nil_l. simpl.
    rewrite parse_decimal_zfill. simpl. f_equal. lia.
  - pose proof (parse_decimal_zfill 3 (Z.to_N n)) as H.
    pose proof (length_zfill 3 (decimal (Z.to_N n))) as Hlen.
    destruct (zfill 3 (decimal (Z.to_N n))) as [|c r] eqn:E;
      [simpl in Hlen; lia |].
    unfold parse_03d. destruct (Ascii.eqb_spec c "-") as [->|_].
    + by rewrite parse_decimal_dash in H.
    + rewrite H. simpl. f_equal. lia.
Qed.

Lemma format_03d_inj (n m : Z) : format_03d n = format_03d m → n = m.
Proof.
  intros H. apply (f_equal parse_03d) in H.
  rewrite !parse_format_03d in H. congruence.
Qed.

Lemma format_03d_truthy (n : Z) : truthy (format_03d n) = true.
Proof.
  pose proof (parse_format_03d n) as H.
  by destruct (format_03d n).
Qed.

(** Within [0, 999] the result is exactly three digits. *)
Lemma format_03d_three_digits (n : Z) :
  0 <= n <= 999 → format_03d n = three_digits n.
Proof.
  intros Hn.
  assert (forallb (λ k, String.eqb (format_03d (Z.of_nat k))
                                   (three_digits (Z.of_nat k)))
                  (seq 0 1000) = true) as H by (vm_compute; reflexivity).
  rewrite forallb_forall in H.
  specialize (H (Z.to_nat n)). rewrite Z2Nat.id in H by lia.
  apply String.eqb_eq, H, in_seq. lia.
Qed.

End PyFacts.

(* ===================================================================== *)
(** * The naming engine: auxiliary facts *)
(* ===================================================================== *)

Module NamingFacts.
Import Py Naming PyFacts.
Local Open Scope string_scope.

(** ** The collision loop *)

Lemma suffixed_inj (stem ext : string) (j k : Z) :
  suffixed stem ext j = suffixed stem ext k → j = k.
Proof.
  unfold suffixed. intros H.
  apply String.app_inj, String.app_inj, app_inv_tail in H.
  by apply format_03d_inj.
Qed.

Lemma unique_loop_unfold (fuel : nat) (used : gset string)
    (stem ext : string) (k : Z) :
  unique_loop (S fuel) used stem ext k =
  if decide (suffixed stem ext k ∈ used)
  then unique_loop fuel used stem ext (k + 1)
  else Some (suffixed stem ext k, k).
Proof. reflexivity. Qed.

(** The loop only looks at the names [suffixed stem ext k'] with
    [k <= k']. *)
Lemma unique_loop_agree (fuel : nat) (used used' : gset string)
    (stem ext : string) (k : Z) :
  (∀ k', k <= k' → suffixed stem ext k' ∈ used ↔ suffixed stem ext k' ∈ used') →
  unique_loop fuel used stem ext k = unique_loop fuel used' stem ext k.
Proof.
  revert k. induction fuel as [|fuel IH]; intros k Hagree; [done |].
  rewrite !unique_loop_unfold.
  destruct (decide (suffixed stem ext k ∈ used)) as [Hin|Hin];
    destruct (decide (suffixed stem ext k ∈ used')) as [Hin'|Hin'].
  - apply IH. intros k' Hk'. apply Hagree. lia.
  - exfalso. apply Hin', Hagree; [lia | done].
  - exfalso. apply Hin, Hagree; [lia | done].
  - done.
Qed.

(** More iterations than issued names are never needed. *)
Lemma unique_loop_fuel (fuel : nat) (used : gset string)
    (stem ext : string) (k : Z) :
  (size used < fuel)%nat → is_Some (unique_loop fuel used stem ext k).
Proof.
  revert used k. induction fuel as [|fuel IH]; intros used k Hsize; [lia |].
  rewrite unique_loop_unfold.
  destruct (decide (suffixed stem ext k ∈ used)) as [Hin|Hin]; [| by eexists].
  rewrite (unique_loop_agree fuel used (used ∖ {[suffixed stem ext k]})).
  - apply IH.
    rewrite size_difference by set_solver. rewrite size_singleton.
    assert (size used ≠ 0%nat); [| lia].
    intros E%size_empty_inv. set_solver.
  - intros k' Hk'. split; [| by intros [? _]%elem_of_difference].
    intros H. apply elem_of_difference. split; [done |].
    intros E%elem_of_singleton. apply suffixed_inj in E. lia.
Qed.

Lemma unique_loop_spec (fuel : nat) (used : gset string)
    (stem ext : string) (k : Z) (name : string) (k' : Z) :
  unique_loop fuel used stem ext k = Some (name, k') →
  name = suffixed stem ext k' ∧ k <= k' ∧ name ∉ used.
Proof.
  revert k. induction fuel as [|fuel IH]; intros k; [done |].
  rewrite unique_loop_unfold.
  destruct (decide (suffixed stem ext k ∈ used)) as [Hin|Hin].
  - intros H. destruct (IH _ H) as (? & ? & ?). split_and!; [done | lia | done].
  - intros [= <- <-]. split_and!; [done | lia | done].
Qed.

(** The outcome does not depend on the bound once it is large enough. *)
Lemma unique_loop_mono (fuel fuel' : nat) (used : gset string)
    (stem ext : string) (k : Z) (r : string * Z) :
  unique_loop fuel used stem ext k = Some r → (fuel <= fuel')%nat →
  unique_loop fuel' used stem ext k = Some r.
Proof.
  revert fuel' k. induction fuel as [|fuel IH]; intros fuel' k; [done |].
  intros H Hle. destruct fuel' as [|fuel']; [lia |].
  rewrite unique_loop_unfold in *.
  destruct (decide (suffixed stem ext k ∈ used)); [| done].
  apply IH; [done | lia].
Qed.

(** ** [_ensure_unique_filename] *)

Lemma ensure_unique_total (nc : NamingConvention) (base : string) :
  is_Some (_ensure_unique_filename nc base).
Proof.
  unfold _ensure_unique_filename, _ensure_unique_filename_fuel.
  destruct (decide (base ∈ _used_filenames nc)); [| by eexists].
  destruct (unique_loop_fuel (S (size (_used_filenames nc))) (_used_filenames nc)
              (path_stem base) (path_suffix base)
              (counter nc (path_stem base) + 1)) as [[name k] ->]; [lia |].
  by eexists.
Qed.

Lemma counter_insert (nc : NamingConvention) (stem stem' : string) (k : Z)
    (used : gset string) :
  counter {| video_base_name := video_base_name nc;
             output_directory := output_directory nc;
             _used_filenames := used;
             _sequence_counters := <[stem := k]> (_sequence_counters nc) |} stem'
  = if decide (stem = stem') then k else counter nc stem'.
Proof.
  unfold counter. simpl. rewrite lookup_insert. by case_decide.
Qed.

(** What one call of [_ensure_unique_filename] does. *)
Lemma ensure_unique_spec (nc nc' : NamingConvention) (base name : string) :
  _ensure_unique_filename nc base = Some (name, nc') →
  (name ∉ _used_filenames nc) ∧
  _used_filenames nc' = {[name]} ∪ _used_filenames nc ∧
  video_base_name nc' = video_base_name nc ∧
  output_directory nc' = output_directory nc ∧
  (((base ∉ _used_filenames nc) ∧ name = base ∧
    _sequence_counters nc' = _sequence_counters nc)
   ∨ (base ∈ _used_filenames nc ∧
      ∃ k, counter nc (path_stem base) < k ∧
           name = suffixed (path_stem base) (path_suffix base) k ∧
           _sequence_counters nc' =
             <[path_stem base := k]> (_sequence_counters nc))).
Proof.
  unfold _ensure_unique_filename, _ensure_unique_filename_fuel.
  destruct (decide (base ∈ _used_filenames nc)) as [Hin|Hin].
  - destruct (unique_loop _ _ _ _ _) as [[name' k]|] eqn:E; [| done].
    intros [= <- <-]. simpl.
    apply unique_loop_spec in E as (-> & Hk & Hfresh).
    split_and!; try done. right. split; [done |]. exists k.
    split_and!; [lia | done | done].
  - intros [= <- <-]. simpl. split_and!; try done. by left.
Qed.

Lemma ensure_unique_counter (nc nc' : NamingConvention) (base name stem : string) :
  _ensure_unique_filename nc base = Some (name, nc') →
  counter nc stem <= counter nc' stem.
Proof.
  intros (_ & _ & _ & _ & [(_ & _ & E) | (_ & k & Hk & _ & E)])%ensure_unique_spec;
    unfold counter in *; rewrite E; [lia |].
  rewrite lookup_insert. case_decide; subst; simpl; lia.
Qed.

(** With enough iterations allowed the outcome is the one of
    [_ensure_unique_filename]. *)
Lemma ensure_unique_fuel_enough (fuel : nat) (nc : NamingConvention)
    (base : string) :
  (size (_used_filenames nc) < fuel)%nat →
  _ensure_unique_filename_fuel fuel nc base = _ensure_unique_filename nc base.
Proof.
  intros Hfuel. unfold _ensure_unique_filename, _ensure_unique_filename_fuel.
  destruct (decide (base ∈ _used_filenames nc)); [| done].
  destruct (unique_loop_fuel (S (size (_used_filenames nc))) (_used_filenames nc)
              (path_stem base) (path_suffix base)
              (counter nc (path_stem base) + 1)) as [r Hr]; [lia |].
  rewrite Hr. by rewrite (unique_loop_mono _ fuel _ _ _ _ _ Hr) by lia.
Qed.

(** ** Stems of names without a path separator *)

Lemma split_on_absent (c : ascii) (s : string) :
  contains_char c s = false → split_on c s = [s].
Proof.
  induction s as [|d s IH]; simpl; [done |].
  intros [Hd Hs]%orb_false_iff. rewrite Hd, (IH Hs). done.
Qed.

Lemma rsplit_dot_app (body ext : string) :
  ∃ t a, rsplit_dot (body ++ "." ++ ext) = Some (body ++ t, a).
Proof.
  induction body as [|c body (t & a & IH)].
  - rewrite app_nil_l, app_cons, app_nil_l. simpl.
    destruct (rsplit_dot ext) as [[b a]|]; [by exists (String "." b), a |].
    by exists EmptyString, ext.
  - rewrite app_cons. simpl. rewrite IH. exists t, a. by rewrite app_cons.
Qed.

Lemma name_split_prefix (p body ext : string) :
  String.prefix p body = true →
  String.prefix p (fst (name_split (body ++ "." ++ ext))) = true.
Proof.
  intros Hp. unfold name_split.
  destruct (rsplit_dot_app body ext) as (t & a & ->).
  destruct (_ && _); simpl; by apply prefix_app_r.
Qed.

Lemma path_name_plain (body ext : string) :
  truthy body = true →
  contains_char "/" (body ++ "." ++ ext) = false →
  path_name (body ++ "." ++ ext) = body ++ "." ++ ext.
Proof.
  intros Hbody Hslash. unfold path_name, path_parts.
  rewrite (split_on_absent _ _ Hslash). simpl.
  destruct body as [|c body]; [done |]. rewrite app_cons.
  assert (String.eqb (String c (body ++ "." ++ ext)) "." = false) as Hdot.
  { apply String.eqb_neq. intros [= _ E]. apply (f_equal String.length) in E.
    rewrite length_app in E. simpl in E. lia. }
  cbn [List.filter truthy andb]. by rewrite Hdot.
Qed.

Lemma path_stem_prefix (p body ext : string) :
  truthy body = true → String.prefix p body = true →
  contains_char "/" (body ++ "." ++ ext) = false →
  String.prefix p (path_stem (body ++ "." ++ ext)) = true.
Proof.
  intros Hbody Hp Hslash. unfold path_stem.
  rewrite path_name_plain by done. by apply name_split_prefix.
Qed.

(** ** The first-choice names *)

Lemma join_cons_prefix (sep p : string) (l : list string) :
  String.prefix p (join sep (p :: l)) = true.
Proof.
  destruct l as [|q l]; simpl; [apply prefix_refl | apply prefix_app].
Qed.

Lemma join_cons_truthy (sep p : string) (l : list string) :
  truthy p = true → truthy (join sep (p :: l)) = true.
Proof. destruct p; [done |]. by destruct l. Qed.

Lemma candidate_shape (nc : NamingConvention) (c : Call) :
  ∃ body ext, candidate nc c = body ++ "." ++ ext ∧ truthy body = true ∧
              String.prefix (video_base_name nc) body = true.
Proof.
  destruct c as [frame category rank ext | frame head_angle rank ext]; simpl.
  - unfold full_frame_candidate. eexists _, ext. split; [done |].
    pose proof (format_03d_truthy rank) as Hr.
    destruct (video_base_name nc) as [|b base] eqn:Eb.
    + split; [| by destruct (join _ _)].
      simpl. destruct (truthy category) eqn:E0; [by apply join_cons_truthy |].
      destruct (truthy (_get_head_direction frame)) eqn:E1;
        [by apply join_cons_truthy |].
      destruct (truthy (_get_shot_type frame)) eqn:E2;
        [by apply join_cons_truthy |].
      rewrite Hr. by apply join_cons_truthy.
    + simpl. split; [by apply join_cons_truthy | apply join_cons_prefix].
  - unfold face_crop_candidate. eexists _, ext. split; [done |].
    split; [| apply join_cons_prefix].
    simpl. by destruct (video_base_name nc).
Qed.

End NamingFacts.

(* ===================================================================== *)
(** * The naming engine: properties of the design document *)
(* ===================================================================== *)

Module NamingSpec.
Import Py Naming PyFacts NamingFacts.
Local Open Scope string_scope.

(** ** Runs of calls *)

Lemma issue_ensure (nc : NamingConvention) (c : Call) :
  issue nc c = _ensure_unique_filename nc (candidate nc c).
Proof. by destruct c. Qed.

Lemma issue_total (nc : NamingConvention) (c : Call) : is_Some (issue nc c).
Proof. rewrite issue_ensure. apply ensure_unique_total. Qed.

Lemma issue_fresh (nc nc' : NamingConvention) (c : Call) (name : string) :
  issue nc c = Some (name, nc') →
  (name ∉ _used_filenames nc) ∧
  _used_filenames nc' = {[name]} ∪ _used_filenames nc.
Proof.
  rewrite issue_ensure. intros H%ensure_unique_spec. tauto.
Qed.

Lemma issue_counter (nc nc' : NamingConvention) (c : Call) (name stem : string) :
  issue nc c = Some (name, nc') → counter nc stem <= counter nc' stem.
Proof. rewrite issue_ensure. apply ensure_unique_counter. Qed.

Lemma run_total (nc : NamingConvention) (calls : list Call) :
  is_Some (run nc calls).
Proof.
  revert nc. induction calls as [|c calls IH]; intros nc; simpl; [by eexists |].
  destruct (issue_total nc c) as [[name nc1] ->].
  destruct (IH nc1) as [[names nc2] ->]. by eexists.
Qed.

Lemma run_cons_inv (nc nc' : NamingConvention) (c : Call) (calls : list Call)
    (names : list string) :
  run nc (c :: calls) = Some (names, nc') →
  ∃ name nc1 rest, issue nc c = Some (name, nc1) ∧
                   run nc1 calls = Some (rest, nc') ∧ names = name :: rest.
Proof.
  simpl. destruct (issue nc c) as [[name nc1]|] eqn:Hc; [| done].
  destruct (run nc1 calls) as [[rest nc2]|] eqn:Hrest; [| done].
  intros [= <- <-]. by exists name, nc1, rest.
Qed.

(** The names of a run are new, pairwise distinct, and all recorded. *)
Lemma run_fresh (nc nc' : NamingConvention) (calls : list Call)
    (names : list string) :
  run nc calls = Some (names, nc') →
  NoDup names ∧ (∀ n, n ∈ names → n ∉ _used_filenames nc) ∧
  _used_filenames nc' = list_to_set names ∪ _used_filenames nc.
Proof.
  revert nc names. induction calls as [|c calls IH]; intros nc names.
  - intros [= <- <-]. split_and!; [constructor | set_solver | set_solver].
  - intros (name & nc1 & rest & Hc & Hrest & ->)%run_cons_inv.
    apply issue_fresh in Hc as [Hnew Hused].
    apply IH in Hrest as (Hnd & Hdisj & Hall).
    split_and!.
    + constructor; [| done]. intros Hin%Hdisj. set_solver.
    + intros n [->|Hin]%elem_of_cons; [done |].
      apply Hdisj in Hin. set_solver.
    + rewrite Hall, Hused. set_solver.
Qed.

Lemma run_counter (nc nc' : NamingConvention) (calls : list Call)
    (names : list string) (stem : string) :
  run nc calls = Some (names, nc') → counter nc stem <= counter nc' stem.
Proof.
  revert nc names. induction calls as [|c calls IH]; intros nc names.
  - intros [= <- <-]. lia.
  - intros (name & nc1 & rest & Hc & Hrest & ->)%run_cons_inv.
    apply (issue_counter _ _ _ _ stem) in Hc. apply IH in Hrest. lia.
Qed.

(** A call that stores a sequence number for a stem stores one above the
    stem's counter, and returns the name carrying it. *)
Lemma issue_assigned (nc nc' : NamingConvention) (c : Call)
    (name stem : string) (k : Z) :
  issue nc c = Some (name, nc') → assigned nc nc' stem = Some k →
  counter nc stem < k ∧ counter nc' stem = k ∧
  stem = path_stem (candidate nc c) ∧
  name = suffixed stem (path_suffix (candidate nc c)) k.
Proof.
  rewrite issue_ensure. unfold assigned.
  intros (_ & _ & _ & _ & [(_ & _ & E) | (_ & k' & Hk' & -> & E)])%ensure_unique_spec;
    rewrite E.
  - by case_decide.
  - rewrite lookup_insert. unfold counter. rewrite E, lookup_insert.
    destruct (decide (path_stem (candidate nc c) = stem)) as [<-|Hs].
    + case_decide; [done |]. intros [= <-]. by split_and!.
    + by case_decide.
Qed.



(** ** The head direction and shot type labels *)

Lemma get_head_direction_spec (frame : FrameData) :
  _get_head_direction frame = spec_head_direction frame.
Proof.
  unfold _get_head_direction, spec_head_direction, get_best_head_pose.
  destruct (head_poses frame) as [|h t]; [done |].
  destruct (direction (max_confidence h t)) as [|c d] eqn:E; [done |].
  cbn [truthy]. apply lower_replace_comm.
Qed.

Lemma get_shot_type_spec (frame : FrameData) :
  _get_shot_type frame = spec_shot_type frame.
Proof.
  unfold _get_shot_type, spec_shot_type.
  induction (closeup_detections frame) as [|c l IH]; simpl; [done |].
  destruct (truthy (shot_type c)); [apply lower_replace_comm | done].
Qed.

(** C4.  [get_full_frame_filename] resolves collisions for the name made
    of the non-empty ones among base name, category, head direction, shot
    type and the rank formatted with [03d], joined by an underscore in that
    order, followed by a dot and the extension; the head direction is the
    best head pose's direction lower-cased with hyphens for spaces (empty
    without a head pose), the shot type the same for the first closeup
    detection with a non-empty shot type (empty if there is none); a rank
    within [0, 999] is written as exactly three digits; a name not issued
    before is returned as it is; and the [clip01] example of the design
    document holds on a fresh engine. *)
Theorem full_frame_filename_format :
  ∀ (nc : NamingConvention) (frame : FrameData) (category : string)
    (rank : Z) (extension : string),
    let name :=
      spec_full_frame_name (video_base_name nc) category
        (spec_head_direction frame) (spec_shot_type frame) rank extension in
    get_full_frame_filename nc frame category rank extension =
      _ensure_unique_filename nc name ∧
    (name ∉ _used_filenames nc →
       fst <$> get_full_frame_filename nc frame category rank extension =
       Some name) ∧
    (0 <= rank <= 999 → format_03d rank = three_digits rank) ∧
    (let front := {| head_poses := [{| direction := "front"; confidence := 0.9 |}];
                     closeup_detections := [] |} in
     fst <$> get_full_frame_filename (init "clip01" "out") front "standing" 1 "jpg"
     = Some "clip01_standing_front_001.jpg").
Proof.
  intros nc frame category rank extension name.
  assert (full_frame_candidate nc frame category rank extension = name) as E.
  { unfold full_frame_candidate, name, spec_full_frame_name.
    by rewrite get_head_direction_spec, get_shot_type_spec. }
  unfold get_full_frame_filename. rewrite E. split_and!.
  - done.
  - intros Hnew. unfold _ensure_unique_filename, _ensure_unique_filename_fuel.
    by rewrite decide_False.
  - apply format_03d_three_digits.
  - vm_compute. reflexivity.
Qed.

(** A frame with two head poses and two closeup detections, on a fresh
    engine. *)
Lemma full_frame_filename_format_witness :
  fst <$> get_full_frame_filename (init "clip01" "out")
    {| head_poses := [{| direction := "Front"; confidence := 0.5 |};
                      {| direction := "Looking Left"; confidence := 0.9 |}];
       closeup_detections := [{| shot_type := EmptyString |};
                              {| shot_type := "Medium Shot" |}] |}
    "standing" 7 "png"
  = Some "clip01_standing_looking-left_medium-shot_007.png"
  ∧ format_03d 7 = three_digits 7.
Proof.
  pose proof (full_frame_filename_format (init "clip01" "out")
    {| head_poses := [{| direction := "Front"; confidence := 0.5 |};
                      {| direction := "Looking Left"; confidence := 0.9 |}];
       closeup_detections := [{| shot_type := EmptyString |};
                              {| shot_type := "Medium Shot" |}] |}
    "standing" 7 "png") as (_ & Hnew & Hrank & _).
  split; [| apply Hrank; lia].
  rewrite Hnew; [vm_compute; reflexivity |].
  simpl. apply not_elem_of_empty.
Defined.

(** C8.  [get_face_crop_filename] resolves collisions for the name
    [<base>_face_<head_angle>_<rank:03d>.<extension>]: all four components
    are kept, empty or not; a name not issued before is returned as it is;
    and the [clip01] example of the design document holds on a fresh
    engine. *)
Theorem face_crop_filename_format :
  ∀ (nc : NamingConvention) (frame : FrameData) (head_angle : string)
    (rank : Z) (extension : string),
    let name :=
      (video_base_name nc ++ "_" ++ "face" ++ "_" ++ head_angle ++ "_"
         ++ format_03d rank) ++ "." ++ extension in
    get_face_crop_filename nc frame head_angle rank extension =
      _ensure_unique_filename nc name ∧
    (name ∉ _used_filenames nc →
       fst <$> get_face_crop_filename nc frame head_angle rank extension =
       Some name) ∧
    (0 <= rank <= 999 → format_03d rank = three_digits rank) ∧
    fst <$> get_face_crop_filename (init "clip01" "out") frame "profile-left" 2 "png"
      = Some "clip01_face_profile-left_002.png" ∧
    fst <$> get_face_crop_filename (init "clip01" "out") frame EmptyString 2 "png"
      = Some "clip01_face__002.png".
Proof.
  intros nc frame head_angle rank extension name. split_and!.
  - done.
  - intros Hnew.
    unfold get_face_crop_filename, _ensure_unique_filename,
      _ensure_unique_filename_fuel.
    by rewrite decide_False.
  - apply format_03d_three_digits.
  - vm_compute. reflexivity.
  - vm_compute. reflexivity.
Qed.

Lemma face_crop_filename_format_witness :
  fst <$> get_face_crop_filename (init "clip01" "out")
    {| head_poses := []; closeup_detections := [] |} "front" 12 "jpg"
  = Some "clip01_face_front_012.jpg" ∧ format_03d 12 = three_digits 12.
Proof.
  pose proof (face_crop_filename_format (init "clip01" "out")
    {| head_poses := []; closeup_detections := [] |} "front" 12 "jpg")
    as (_ & Hnew & Hrank & _).
  split; [| apply Hrank; lia].
  rewrite Hnew; [vm_compute; reflexivity |].
  simpl. apply not_elem_of_empty.
Defined.

(** C7.  [validate_filename] leaves the engine as it found it, and answers
    [False] exactly when the name is empty, or holds one of the nine
    characters [< > : double-quote / \ | ? *], or is longer than 255
    characters, or does not begin with the video base name; the two examples
    of the design document hold for the base name [clip01]. *)
Theorem validate_filename_spec :
  ∀ (nc : NamingConvention) (filename : string),
    snd (validate_filename nc filename) = nc ∧
    (fst (validate_filename nc filename) = false ↔
       filename = EmptyString ∨
       (∃ c, In c ["<"; ">"; ":"; "034"; "/"; "\"; "|"; "?"; "*"]%char ∧
             In c (list_ascii_of_string filename)) ∨
       (255 < String.length filename)%nat ∨
       ¬ (∃ rest, filename = video_base_name nc ++ rest)) ∧
    fst (validate_filename (init "clip01" "out") "../etc/passwd") = false ∧
    fst (validate_filename (init "clip01" "out") "clip01_standing_front_001.jpg")
      = true.
Proof.
  intros nc filename. split_and!; [| | done | done].
  - unfold validate_filename. by repeat case_match.
  - change ["<"; ">"; ":"; "034"; "/"; "\"; "|"; "?"; "*"]%char
      with (list_ascii_of_string invalid_chars).
    rewrite <- any_char_in_iff, <- prefix_iff.
    unfold validate_filename, startswith.
    destruct filename as [|c f] eqn:Ef; [simpl; tauto |].
    rewrite <- Ef. replace (truthy filename) with true by by subst.
    cbn [negb].
    destruct (any_char_in invalid_chars filename); [simpl; tauto |].
    destruct (Nat.ltb_spec 255 (String.length filename)); [simpl; tauto |].
    destruct (String.prefix (video_base_name nc) filename); simpl.
    + split; [done |]. intros [? | [? | [? | ?]]]; subst; try done; lia.
    + split; [| done]. intros _. do 3 right. done.
Qed.

(** C9.  Every filename-issuing call returns a name: the collision loop
    stops within one more round than there are issued names, whatever the
    state of the engine, and allowing it more rounds changes nothing. *)
Theorem filename_issuing_terminates :
  ∀ (nc : NamingConvention) (c : Call),
    ∃ name nc',
      issue nc c = Some (name, nc') ∧
      ∀ fuel, (size (_used_filenames nc) < fuel)%nat →
        _ensure_unique_filename_fuel fuel nc (candidate nc c) = Some (name, nc').
Proof.
  intros nc c. destruct (issue_total nc c) as [[name nc'] H].
  exists name, nc'. split; [done |].
  intros fuel Hfuel. rewrite ensure_unique_fuel_enough by done.
  by rewrite <- issue_ensure.
Qed.

(** One name issued, and five rounds allowed for the next call. *)
Lemma filename_issuing_terminates_witness :
  let call := FaceCrop {| head_poses := []; closeup_detections := [] |}
                       "front" 1 "png" in
  let s0 := {| video_base_name := "clip01"; output_directory := "out";
               _used_filenames := {[ "clip01_face_front_001.png" ]};
               _sequence_counters := ∅ |} in
  ∃ name nc',
    issue s0 call = Some (name, nc') ∧
    _ensure_unique_filename_fuel 5 s0 (candidate s0 call) = Some (name, nc').
Proof.
  intros call s0.
  destruct (filename_issuing_terminates s0 call) as (name & nc' & H1 & H2).
  exists name, nc'. split; [exact H1 |].
  apply H2. vm_compute. lia.
Defined.

(** C10, as the code has it.  A returned name begins with the video base
    name whenever the first-choice name holds no path separator: the
    collision suffix is put after [Path(name).stem], which keeps only what
    follows the last separator. *)
Theorem issued_name_starts_with_base :
  ∀ (nc nc' : NamingConvention) (c : Call) (name : string),
    contains_char "/" (candidate nc c) = false →
    issue nc c = Some (name, nc') →
    startswith name (video_base_name nc) = true ∧
    startswith name (video_base_name nc') = true.
Proof.
  intros nc nc' c name Hslash. rewrite issue_ensure.
  intros (_ & _ & -> & _ & H)%ensure_unique_spec.
  apply and_wlog_l; [done |]. unfold startswith.
  destruct (candidate_shape nc c) as (body & ext & E & Hbody & Hprefix).
  rewrite E in *.
  destruct H as [(_ & -> & _) | (_ & k & _ & -> & _)].
  - by apply prefix_app_r.
  - unfold suffixed. apply prefix_app_r. by apply path_stem_prefix.
Qed.

Lemma issued_name_starts_with_base_witness :
  let call := FaceCrop {| head_poses := []; closeup_detections := [] |}
                       "front" 1 "png" in
  let s0 := {| video_base_name := "clip01"; output_directory := "out";
               _used_filenames := {[ "clip01_face_front_001.png" ]};
               _sequence_counters := ∅ |} in
  let s1 := {| video_base_name := "clip01"; output_directory := "out";
               _used_filenames := {[ "clip01_face_front_001_001.png";
                                     "clip01_face_front_001.png" ]};
               _sequence_counters := {[ "clip01_face_front_001" := 1 ]} |} in
  issue s0 call = Some ("clip01_face_front_001_001.png", s1) ∧
  startswith "clip01_face_front_001_001.png" "clip01" = true.
Proof.
  intros call s0 s1.
  assert (issue s0 call = Some ("clip01_face_front_001_001.png", s1)) as E
    by (vm_compute; reflexivity).
  split; [exact E |].
  refine (proj1 (issued_name_starts_with_base s0 s1 call _ _ E)).
  vm_compute. reflexivity.
Defined.

(** C10 as stated fails: with the category [a/b] the second
    [get_full_frame_filename] call returns [b_001_001.jpg], which does not
    begin with the base name [clip01]. *)
Lemma collision_suffix_drops_base_name :
  let nc := init "clip01" "out" in
  let call := FullFrame {| head_poses := []; closeup_detections := [] |}
                        "a/b" 1 "jpg" in
  video_base_name nc ≠ EmptyString ∧
  fst <$> (issue nc call ≫= λ r, issue (snd r) call) = Some "b_001_001.jpg" ∧
  startswith "b_001_001.jpg" (video_base_name nc) = false ∧
  fst (validate_filename nc "b_001_001.jpg") = false.
Proof. vm_compute. by split_and!. Qed.

End NamingSpec.

(* ===================================================================== *)
(** * The validation semantics: auxiliary facts *)
(* ===================================================================== *)

Module PydanticFacts.
Import Py Pydantic.
Local Open Scope string_scope.

Section Facts.
Context {R : Runtime}.

Lemma validate_fields_cons (name : string) (ty : FieldType) (info : FieldInfo)
    (rest : Fields) (loc : list string) (kvs data : gmap string PyValue)
    (errs : list ErrorDetails) :
  validate_fields (FCons name ty info rest) loc kvs data errs =
  match kvs !! name with
  | None =>
      validate_fields rest loc kvs
        (<[name := default_of ty (fi_default info)]> data) errs
  | Some v =>
      match run_field name info (loc ++ [name])
              (validate_value ty (loc ++ [name])) v data with
      | FOk v' => validate_fields rest loc kvs (<[name := v']> data) errs
      | FErr es => validate_fields rest loc kvs data (errs ++ es)
      | FRaise e => Raise e
      end
  end.
Proof. reflexivity. Qed.

(** Error lines are only ever added. *)
Lemma validate_fields_errs (fs : Fields) (loc : list string)
    (kvs data data' : gmap string PyValue) (errs errs' : list ErrorDetails) :
  validate_fields fs loc kvs data errs = Ok (data', errs') →
  ∃ es, errs' = (errs ++ es)%list.
Proof.
  revert data errs. induction fs as [|name ty info rest IH]; intros data errs.
  - intros [= <- <-]. exists []. by rewrite List.app_nil_r.
  - rewrite validate_fields_cons.
    destruct (kvs !! name) as [v|]; [| apply IH].
    destruct (run_field _ _ _ _ _ _) as [v'|es|e]; [apply IH | | done].
    intros (es' & ->)%IH. exists (es ++ es')%list. by rewrite List.app_assoc.
Qed.

(** Scalar validation returns a value of the annotation within its
    bounds, or one error line at the field's location. *)
Lemma validate_scalar_cases (ty : FieldType) (loc : list string) (v : PyValue) :
  (∃ x, validate_scalar ty loc v = FOk x ∧ coerce ty v = Some x ∧
        check_bounds ty x = None) ∨
  (∃ k, validate_scalar ty loc v = FErr [mkError loc k]).
Proof.
  unfold validate_scalar. destruct (coerce ty v) as [x|]; [| right; by eexists].
  destruct (check_bounds ty x) as [k|] eqn:E; [right; by eexists |].
  left. by exists x.
Qed.

Lemma native_float (ge le : option float) (v x : PyValue) :
  native (TFloat ge le) v = Some x → ∃ f, x = VFloat f.
Proof. destruct v; simpl; intros [= <-]; by eexists. Qed.

Lemma coerce_float (ge le : option float) (v x : PyValue) :
  coerce (TFloat ge le) v = Some x → ∃ f, x = VFloat f.
Proof.
  unfold coerce. destruct (native (TFloat ge le) v) eqn:E.
  - intros [= <-]. by eapply native_float.
  - destruct (lax _ _); [apply native_float | done].
Qed.

Lemma check_bounds_float (lo hi f : float) :
  check_bounds (TFloat (Some lo) (Some hi)) (VFloat f) = None ↔
  PrimFloat.leb lo f = true ∧ PrimFloat.leb f hi = true.
Proof.
  simpl. destruct (PrimFloat.leb lo f), (PrimFloat.leb f hi); simpl;
    split; (done || by intros []).
Qed.

(** A field without validators is validated by its annotation alone. *)
Lemma run_field_plain (name : string) (info : FieldInfo) (loc : list string)
    (core : PyValue → FieldOutcome) (v : PyValue) (data : gmap string PyValue) :
  fi_before info = None → fi_after info = None →
  run_field name info loc core v data = core v.
Proof.
  intros Hb Ha. unfold run_field. rewrite Hb, Ha. by destruct (core v).
Qed.

(** A rejection always comes with an error line. *)
Lemma validate_value_err (ty : FieldType) (loc : list string) (v : PyValue)
    (es : list ErrorDetails) :
  validate_value ty loc v = FErr es → es ≠ [].
Proof.
  revert v. induction ty as [| | | | | |t IH|cls fs]; intros v; simpl.
  1-6: match goal with
       | |- validate_scalar ?t _ _ = _ → _ =>
           by destruct (validate_scalar_cases t loc v)
             as [(x & -> & _) | (k & ->)]; [| intros [= <-]]
       end.
  - destruct v; try apply IH. done.
  - destruct v; try (by intros [= <-]).
    + destruct (validate_fields _ _ _ _ _) as [[data [|e errs]]|]; try done.
      by intros [= <-].
    + destruct (String.eqb _ _); [done | by intros [= <-]].
Qed.

Lemma run_field_err (name : string) (info : FieldInfo) (loc : list string)
    (ty : FieldType) (v : PyValue) (data : gmap string PyValue)
    (es : list ErrorDetails) :
  run_field name info loc (validate_value ty loc) v data = FErr es → es ≠ [].
Proof.
  unfold run_field.
  destruct (match fi_before info with Some f => f v | None => Ok v end)
    as [v1|[]]; try (by intros [= <-]).
  destruct (validate_value ty loc v1) as [v2|es'|e] eqn:E.
  - destruct (fi_after info) as [f|]; [| done].
    destruct (f name v2 data) as [v3|[]]; by intros [= <-].
  - intros [= <-]. by eapply validate_value_err.
  - done.
Qed.

(** When the fields of a model validate without an error line, each given
    field was accepted and each other one took its default. *)
Lemma validate_fields_ok_cons (name : string) (ty : FieldType)
    (info : FieldInfo) (rest : Fields) (loc : list string)
    (kvs data data' : gmap string PyValue) :
  validate_fields (FCons name ty info rest) loc kvs data [] = Ok (data', []) →
  (kvs !! name = None ∧
   validate_fields rest loc kvs
     (<[name := default_of ty (fi_default info)]> data) [] = Ok (data', []))
  ∨ (∃ v v', kvs !! name = Some v ∧
       run_field name info (loc ++ [name])
         (validate_value ty (loc ++ [name])) v data = FOk v' ∧
       validate_fields rest loc kvs (<[name := v']> data) [] = Ok (data', [])).
Proof.
  rewrite validate_fields_cons.
  destruct (kvs !! name) as [v|]; [| by left].
  destruct (run_field _ _ _ _ _ _) as [v'|es|e] eqn:E; [| | done].
  - right. by exists v, v'.
  - intros (es' & Hes)%validate_fields_errs.
    apply run_field_err in E. by destruct es.
Qed.

(** Fields that raise no exception make a model that raises none. *)
Lemma validate_fields_quiet (fs : Fields) (loc : list string)
    (kvs data : gmap string PyValue) (errs : list ErrorDetails) (e : Exn) :
  Forall_fields quiet fs → validate_fields fs loc kvs data errs ≠ Raise e.
Proof.
  revert data errs. induction fs as [|name ty info rest IH];
    intros data errs; [done |].
  intros [Hq Hrest]. rewrite validate_fields_cons.
  destruct (kvs !! name) as [v|]; [| by apply IH].
  destruct (run_field _ _ _ _ _ _) as [v'|es|e'] eqn:E;
    [by apply IH | by apply IH |].
  by apply Hq in E.
Qed.

Lemma quiet_scalar (name : string) (ty : FieldType) (info : FieldInfo) :
  fi_before info = None → fi_after info = None →
  (∀ loc v, validate_value ty loc v = validate_scalar ty loc v) →
  quiet name ty info.
Proof.
  intros Hb Ha Hty loc v data e. rewrite run_field_plain, Hty by done.
  by destruct (validate_scalar_cases ty loc v) as [(x & -> & _) | (k & ->)].
Qed.

Lemma model_new_dict (c : ModelClass) (kwargs : gmap string PyValue) :
  model_new c (VDict kwargs) =
  match validate_fields (cls_fields c) [] kwargs ∅ [] with
  | Ok (data, []) => Ok (VModel (cls_name c) data)
  | Ok (_, errs) => Raise (ValidationError errs)
  | Raise e => Raise e
  end.
Proof.
  unfold model_new, annotation. simpl.
  by destruct (validate_fields _ _ _ _ _) as [[data [|e es]]|e].
Qed.

(** An error line among those of the fields is one of the
    [ValidationError] the constructor raises. *)
Lemma model_new_reports (c : ModelClass) (kwargs : gmap string PyValue)
    (l : list string) :
  match validate_fields (cls_fields c) [] kwargs ∅ [] with
  | Ok (_, errs) => l ∈ map err_loc errs
  | Raise _ => False
  end →
  raises_validation_error (model_new c (VDict kwargs)) (λ locs, l ∈ locs).
Proof.
  rewrite model_new_dict.
  destruct (validate_fields _ _ _ _ _) as [[data [|e es]]|e]; [| done..].
  simpl. by intros ?%elem_of_nil.
Qed.

(** ** Writing an instance and validating what was written *)

Lemma dump_fields_lookup (fs : Fields) (d : gmap string PyValue)
    (name : string) (ty : FieldType) (info : FieldInfo) (v : PyValue) :
  find_field fs name = Some (ty, info) → d !! name = Some v →
  dump_fields fs d !! name = Some (dump_field info (dump_value ty) v).
Proof.
  intros Hfind Hv. induction fs as [|n ty' info' rest IH]; [done |].
  simpl in *. destruct (String.eqb_spec n name) as [->|Hne].
  - injection Hfind as -> ->. rewrite Hv. apply lookup_insert_eq.
  - destruct (d !! n); [rewrite lookup_insert_ne by done |]; by apply IH.
Qed.

Lemma validate_fields_good (full fs : Fields) (d : gmap string PyValue)
    (prev : list string) (loc : list string) (data : gmap string PyValue)
    (errs : list ErrorDetails) :
  fields_good full d prev fs →
  (∀ k, k ∈ prev → data !! k = d !! k) →
  ∃ data',
    validate_fields fs loc (dump_fields full d) data errs = Ok (data', errs) ∧
    ∀ k, data' !! k = if decide (k ∈ names fs) then d !! k else data !! k.
Proof.
  revert prev data. induction fs as [|name ty info rest IH]; intros prev data.
  - intros _ _. exists data. split; [done |]. intros k.
    destruct (decide _) as [H|]; [by apply elem_of_nil in H | done].
  - intros [(v & Hv & Hfind & _ & Hgood) Hrest] Hprev.
    rewrite validate_fields_cons, (dump_fields_lookup _ _ _ _ _ _ Hfind Hv).
    rewrite Hgood by done.
    destruct (IH (name :: prev) (<[name := v]> data) Hrest)
      as (data' & -> & Hdata').
    { intros k Hk. destruct (decide (k = name)) as [->|Hne].
      - by rewrite lookup_insert_eq.
      - rewrite lookup_insert_ne by done.
        apply Hprev. by apply elem_of_cons in Hk as [?|?]. }
    exists data'. split; [done |]. intros k. rewrite Hdata'. simpl names.
    destruct (decide (k ∈ names rest)) as [Hin|Hin].
    + rewrite decide_True; [done | by right].
    + destruct (decide (k = name)) as [->|Hne].
      * rewrite decide_True by left. by rewrite lookup_insert_eq.
      * rewrite decide_False by (intros [?|?]%elem_of_cons; done).
        by rewrite lookup_insert_ne.
Qed.

Lemma dump_fields_plain (full fs : Fields) (d : gmap string PyValue)
    (prev : list string) :
  fields_good full d prev fs →
  map_Forall (λ _ v, plain v) (dump_fields fs d).
Proof.
  revert prev. induction fs as [|name ty info rest IH]; intros prev; simpl.
  - intros _. apply map_Forall_empty.
  - intros [(v & -> & _ & Hplain & _) Hrest].
    apply map_Forall_insert_2; [done | by eapply IH].
Qed.

(** An instance with good fields, and no others, is good. *)
Lemma model_good (cls : string) (fs : Fields) (d : gmap string PyValue) :
  fields_good fs d [] fs →
  dom d = list_to_set (names fs) →
  type_good (TModel cls fs) (VModel cls d).
Proof.
  intros Hfields Hdom. split.
  - simpl. constructor. by eapply dump_fields_plain.
  - intros loc. simpl.
    destruct (validate_fields_good fs fs d [] loc ∅ [] Hfields)
      as (data' & -> & Hdata'); [by intros k ?%elem_of_nil |].
    do 2 f_equal. apply map_eq. intros k. rewrite Hdata'.
    destruct (decide (k ∈ names fs)) as [|Hk]; [done |].
    rewrite lookup_empty. symmetry. apply not_elem_of_dom.
    rewrite Hdom. by rewrite elem_of_list_to_set.
Qed.

Lemma field_good_anywhere (d : gmap string PyValue) (prev : list string)
    (name : string) (ty : FieldType) (info : FieldInfo) (v : PyValue) :
  field_good name ty info v → field_good_in d prev name ty info v.
Proof. intros [Hplain Hval]. split; [done |]. intros loc data _. apply Hval. Qed.

Lemma field_good_plain (name : string) (ty : FieldType) (info : FieldInfo)
    (v : PyValue) :
  fi_before info = None → fi_after info = None → fi_serializer info = None →
  type_good ty v → field_good name ty info v.
Proof.
  intros Hb Ha Hs [Hplain Hval]. unfold field_good, dump_field. rewrite Hs.
  split; [done |]. intros loc data. by rewrite run_field_plain.
Qed.

Lemma type_good_str (v : PyValue) : conforms TStr v = true → type_good TStr v.
Proof. destruct v; try done. intros _. split; [constructor | done]. Qed.

Lemma type_good_bool (v : PyValue) : conforms TBool v = true → type_good TBool v.
Proof. destruct v; try done. intros _. split; [constructor | done]. Qed.

Lemma type_good_int (ge le : option Z) (v : PyValue) :
  conforms (TInt ge le) v = true → type_good (TInt ge le) v.
Proof.
  destruct v as [| |z| | | | | | |]; try done. intros H.
  split; [constructor |]. intros loc. cbn [dump_value validate_value].
  unfold validate_scalar, coerce. cbn [native].
  cbn [conforms] in H. by destruct (check_bounds _ _).
Qed.

Lemma type_good_float (ge le : option float) (v : PyValue) :
  conforms (TFloat ge le) v = true → type_good (TFloat ge le) v.
Proof.
  destruct v as [| | |f| | | | | |]; try done. intros H.
  split; [constructor |]. intros loc. cbn [dump_value validate_value].
  unfold validate_scalar, coerce. cbn [native].
  cbn [conforms] in H. by destruct (check_bounds _ _).
Qed.

Lemma type_good_optional_int (ge le : option Z) (v : PyValue) :
  conforms (TOptional (TInt ge le)) v = true →
  type_good (TOptional (TInt ge le)) v.
Proof.
  destruct v as [| |z| | | | | | |]; try done.
  - intros _. split; [constructor | done].
  - intros H. destruct (type_good_int ge le (VInt z) H) as [Hp Hv].
    split; [done |]. intros loc. apply Hv.
Qed.

(** ** Rejected inputs and exceptions *)

Lemma offends_scalar (ty : FieldType) (loc : list string) (v : PyValue)
    (path : list string) :
  path = [] ∧ match coerce ty v with
              | None => True
              | Some x => check_bounds ty x ≠ None
              end →
  match validate_scalar ty loc v with
  | FOk _ => False
  | FErr errs => (loc ++ path)%list ∈ map err_loc errs
  | FRaise _ => True
  end.
Proof.
  intros [-> H]. rewrite List.app_nil_r. unfold validate_scalar.
  destruct (coerce ty v) as [x|]; [| simpl; by left].
  destruct (check_bounds ty x); [simpl; by left | done].
Qed.

(** A value that its annotation rejects is named in the error lines,
    unless an exception cuts validation short. *)
Lemma offends_reported :
  (∀ (ty : FieldType) (loc : list string) (v : PyValue) (path : list string),
     offends ty v path →
     match validate_value ty loc v with
     | FOk _ => False
     | FErr errs => (loc ++ path)%list ∈ map err_loc errs
     | FRaise _ => True
     end) ∧
  (∀ (fs : Fields) (loc : list string) (kvs : gmap string PyValue)
     (path : list string),
     offends_fields fs kvs path →
     ∀ data errs,
       match validate_fields fs loc kvs data errs with
       | Ok (_, errs') => (loc ++ path)%list ∈ map err_loc errs'
       | Raise _ => True
       end).
Proof.
  apply FieldType_Fields_mut.
  1-6: intros; by apply offends_scalar.
  - intros t IH loc v path. destruct v; simpl; try done; apply IH.
  - intros cls fs IH loc v path.
    destruct v as [| | | | | |kvs| | |]; simpl; try done;
      try (intros ->; rewrite List.app_nil_r; by left).
    intros H. specialize (IH loc kvs path H ∅ []).
    destruct (validate_fields fs loc kvs ∅ []) as [[data [|e es]]|e]; try done.
    by apply elem_of_nil in IH.
  - done.
  - intros name ty IHty info rest IHrest loc kvs path H data errs.
    rewrite validate_fields_cons. destruct H as [(v & v1 & sub & -> & -> & Hb & H)|H].
    + unfold run_field. rewrite Hb.
      specialize (IHty (loc ++ [name])%list v1 sub H).
      destruct (validate_value ty (loc ++ [name]) v1) as [x|es|e]; [done | | done].
      destruct (validate_fields rest loc kvs data (errs ++ es))
        as [[data' errs']|e] eqn:E; [| done].
      apply validate_fields_errs in E as [es' ->].
      rewrite !map_app, !elem_of_app. left. right.
      by rewrite <- List.app_assoc in IHty.
    + destruct (kvs !! name) as [v|]; [| by apply IHrest].
      destruct (run_field _ _ _ _ _ _); [by apply IHrest.. | done].
Qed.

(** An invariant [P] of the validated data, and a property [Q] of every
    exception a field raises, carry over to the model. *)
Lemma validate_fields_invariant (P : gmap string PyValue → Prop)
    (Q : Exn → Prop) (fs : Fields) (loc : list string)
    (kvs : gmap string PyValue) :
  Forall_fields (λ name ty info,
    ∀ data, P data →
      P (<[name := default_of ty (fi_default info)]> data) ∧
      ∀ v, kvs !! name = Some v →
        match run_field name info (loc ++ [name])
                (validate_value ty (loc ++ [name])) v data with
        | FOk v' => P (<[name := v']> data)
        | FErr _ => True
        | FRaise e => Q e
        end) fs →
  ∀ data errs, P data →
    match validate_fields fs loc kvs data errs with
    | Ok (data', _) => P data'
    | Raise e => Q e
    end.
Proof.
  induction fs as [|name ty info rest IH]; [by intros _ data errs |].
  intros [Hf Hrest] data errs HP. rewrite validate_fields_cons.
  destruct (Hf data HP) as [Hdflt Hrun].
  destruct (kvs !! name) as [v|]; [| by apply IH].
  specialize (Hrun v eq_refl).
  destruct (run_field _ _ _ _ _ _); [by apply IH | by apply IH | done].
Qed.

Lemma scalar_no_raise (ty : FieldType) (loc : list string) (v : PyValue)
    (e : Exn) :
  validate_scalar ty loc v ≠ FRaise e.
Proof.
  by destruct (validate_scalar_cases ty loc v) as [(x & -> & _) | (k & ->)].
Qed.

Lemma optional_no_raise (t : FieldType) :
  (∀ loc v e, validate_value t loc v ≠ FRaise e) →
  ∀ loc v e, validate_value (TOptional t) loc v ≠ FRaise e.
Proof. intros H loc v e. destruct v; simpl; try done; apply H. Qed.

Lemma model_no_raise_fields (cls : string) (fs : Fields) :
  (∀ loc kvs e, validate_fields fs loc kvs ∅ [] ≠ Raise e) →
  ∀ loc v e, validate_value (TModel cls fs) loc v ≠ FRaise e.
Proof.
  intros H loc v e. destruct v; simpl; try done.
  - destruct (validate_fields _ _ _ _ _) as [[data [|e' es]]|e'] eqn:E; try done.
    by apply H in E.
  - by destruct (String.eqb _ _).
Qed.

Lemma model_no_raise (cls : string) (fs : Fields) :
  Forall_fields quiet fs →
  ∀ loc v e, validate_value (TModel cls fs) loc v ≠ FRaise e.
Proof.
  intros H. apply model_no_raise_fields. intros loc kvs e.
  by apply validate_fields_quiet.
Qed.

Lemma quiet_plain (name : string) (ty : FieldType) (info : FieldInfo) :
  fi_before info = None → fi_after info = None →
  (∀ loc v e, validate_value ty loc v ≠ FRaise e) →
  quiet name ty info.
Proof. intros Hb Ha H loc v data e. rewrite run_field_plain by done. apply H. Qed.

Lemma model_raise_inv (cls : string) (fs : Fields) (loc : list string)
    (v : PyValue) (e : Exn) :
  validate_value (TModel cls fs) loc v = FRaise e →
  ∃ kvs, v = VDict kvs ∧ validate_fields fs loc kvs ∅ [] = Raise e.
Proof.
  destruct v as [| | | | | |kvs| | |]; simpl; try done.
  - destruct (validate_fields _ _ _ _ _) as [[data [|e' es]]|e'] eqn:E; try done.
    intros [= ->]. by exists kvs.
  - by destruct (String.eqb _ _).
Qed.

End Facts.
End PydanticFacts.

(* ===================================================================== *)
(** * config.py: auxiliary facts *)
(* ===================================================================== *)

Module ConfigFacts.
Import Py Pydantic Config PyFacts PydanticFacts.
Local Open Scope string_scope.

Section Weights.
Context {R : Runtime}.

Lemma validate_weights_sum_face (v : PyValue) (data : gmap string PyValue) :
  validate_weights_sum "face_size_weight" v data = Ok v.
Proof. reflexivity. Qed.

Lemma validate_weights_sum_quality (q f : float) (data : gmap string PyValue) :
  default (VFloat 0.3) (data !! "face_size_weight") = VFloat f →
  validate_weights_sum "quality_weight" (VFloat q) data =
  if PrimFloat.ltb 1.0 (q + f)
  then Raise (ValueError ("face_size_weight (" ++ py_str (VFloat f)
                ++ ") + quality_weight (" ++ py_str (VFloat q)
                ++ ") must not exceed 1.0"))
  else Ok (VFloat q).
Proof.
  intros E. unfold validate_weights_sum. simpl String.eqb. cbv iota.
  by rewrite E.
Qed.

(** A weight field given a [float] within [0, 1]: the outcome is the one
    of [validate_weights_sum]. *)
Lemma run_weight_field_float (name : string) (loc : list string)
    (dflt : PyValue) (f : float) (data : gmap string PyValue) :
  PrimFloat.leb 0.0 f = true → PrimFloat.leb f 1.0 = true →
  run_field name (with_after validate_weights_sum (field dflt)) loc
    (validate_value (TFloat (Some 0.0%float) (Some 1.0%float)) loc)
    (VFloat f) data =
  match validate_weights_sum name (VFloat f) data with
  | Ok v => FOk v
  | Raise (ValueError msg) => FErr [mkError loc (value_error msg)]
  | Raise e => FRaise e
  end.
Proof.
  intros Hlo Hhi. unfold run_field. simpl fi_before. simpl fi_after. cbv iota.
  change (validate_value (TFloat ?a ?b) loc ?v)
    with (validate_scalar (TFloat a b) loc v).
  unfold validate_scalar, coerce. simpl native. cbv iota.
  by rewrite (proj2 (check_bounds_float _ _ _) (conj Hlo Hhi)).
Qed.

(** A weight field that was accepted holds a [float] within [0, 1] that
    its validator let pass. *)
Lemma run_weight_field_ok (name : string) (loc : list string) (dflt : PyValue)
    (v x : PyValue) (data : gmap string PyValue) :
  run_field name (with_after validate_weights_sum (field dflt)) loc
    (validate_value (TFloat (Some 0.0%float) (Some 1.0%float)) loc) v data
    = FOk x →
  ∃ f, x = VFloat f ∧ validate_weights_sum name (VFloat f) data = Ok (VFloat f).
Proof.
  unfold run_field. simpl fi_before. simpl fi_after. cbv iota.
  change (validate_value (TFloat ?a ?b) loc v)
    with (validate_scalar (TFloat a b) loc v).
  destruct (validate_scalar_cases (TFloat (Some 0.0%float) (Some 1.0%float)) loc v)
    as [(y & -> & Hc & Hb) | (k & ->)]; [| done].
  destruct (coerce_float _ _ _ _ Hc) as [f ->].
  destruct (validate_weights_sum name (VFloat f) data) as [z|e] eqn:E.
  - intros [= <-]. exists f.
    assert (z = VFloat f) as ->; [| done].
    revert E. unfold validate_weights_sum. repeat case_match; congruence.
  - by destruct e.
Qed.

(** A field with a range and no validator, whatever it is given: accepted
    or rejected with one line, never an exception. *)
Lemma run_scalar_field (name : string) (loc : list string) (ty : FieldType)
    (dflt v : PyValue) (data : gmap string PyValue) :
  validate_value ty loc = validate_scalar ty loc →
  (∃ x, run_field name (field dflt) loc (validate_value ty loc) v data = FOk x)
  ∨ (∃ k, run_field name (field dflt) loc (validate_value ty loc) v data
          = FErr [mkError loc k]).
Proof.
  intros E. rewrite run_field_plain, E by done.
  destruct (validate_scalar_cases ty loc v) as [(x & -> & _) | (k & ->)];
    [left | right]; by eexists.
Qed.

(** Construction of a [FrameSelectionConfig] from keyword arguments that
    give [quality_weight]: success means the sum was checked. *)
Lemma frame_selection_new_checked (kwargs : gmap string PyValue) (inst : PyValue) :
  is_Some (kwargs !! "quality_weight") →
  model_new FrameSelectionConfig (VDict kwargs) = Ok inst →
  ∃ q f, getattr inst "quality_weight" = Some (VFloat q) ∧
         getattr inst "face_size_weight" = Some (VFloat f) ∧
         PrimFloat.ltb 1.0 (q + f) = false.
Proof.
  intros [vq Hq]. rewrite model_new_dict.
  destruct (validate_fields _ _ _ _ _) as [[data [|e es]]|e] eqn:E;
    [| done..].
  intros [= <-]. simpl getattr.
  unfold FrameSelectionConfig, class in E. cbn [cls_fields mk_fields] in E.
  apply validate_fields_ok_cons in E
    as [(_ & E) | (v1 & x1 & _ & _ & E)];
  apply validate_fields_ok_cons in E
    as [(_ & E) | (v2 & x2 & _ & (f & -> & _)%run_weight_field_ok & E)];
  (apply validate_fields_ok_cons in E
    as [(Hnone & _) | (v3 & x3 & _ & (q & -> & Hsum)%run_weight_field_ok & E)];
   [congruence |]);
  (apply validate_fields_ok_cons in E
    as [(_ & [= <-]) | (v4 & x4 & _ & _ & [= <-])]);
  simpl default_of in *;
  (eexists q, _; split_and!;
   [by simplify_map_eq | by simplify_map_eq |];
   erewrite validate_weights_sum_quality in Hsum by (by simplify_map_eq);
   by destruct (PrimFloat.ltb _ _)).
Qed.

(** Keyword arguments that give both weights within [0, 1] with a sum
    above 1.0 are rejected, with a line for [quality_weight]. *)
Lemma frame_selection_new_rejected (kwargs : gmap string PyValue) (q f : float) :
  kwargs !! "quality_weight" = Some (VFloat q) →
  kwargs !! "face_size_weight" = Some (VFloat f) →
  PrimFloat.leb 0.0 q = true → PrimFloat.leb q 1.0 = true →
  PrimFloat.leb 0.0 f = true → PrimFloat.leb f 1.0 = true →
  PrimFloat.ltb 1.0 (q + f) = true →
  raises_validation_error (model_new FrameSelectionConfig (VDict kwargs))
    (λ locs, ["quality_weight"] ∈ locs).
Proof.
  intros Hq Hf Hq0 Hq1 Hf0 Hf1 Hsum. apply model_new_reports.
  unfold FrameSelectionConfig, class. cbn [cls_fields mk_fields].
  assert (∀ data errs,
    match validate_fields
            (FCons "face_size_weight" (TFloat (Some 0.0%float) (Some 1.0%float))
               (with_after validate_weights_sum (field (VFloat 0.3)))
            (FCons "quality_weight" (TFloat (Some 0.0%float) (Some 1.0%float))
               (with_after validate_weights_sum (field (VFloat 0.7)))
            (FCons "diversity_threshold" (TFloat (Some 0.0%float) (Some 1.0%float))
               (field (VFloat 0.8)) FNil))) [] kwargs data errs with
    | Ok (_, errs') => ["quality_weight"] ∈ map err_loc errs'
    | Raise _ => False
    end) as Htail.
  { intros data errs.
    rewrite validate_fields_cons, Hf, run_weight_field_float by done.
    rewrite validate_weights_sum_face.
    rewrite validate_fields_cons, Hq, run_weight_field_float by done.
    rewrite (validate_weights_sum_quality q f), Hsum
      by (by rewrite lookup_insert_eq).
    destruct (validate_fields _ _ _ _ _) as [[data' errs']|e] eqn:E.
    - apply validate_fields_errs in E as [es ->].
      rewrite !map_app. set_solver.
    - eapply validate_fields_quiet; [| done].
      split; [| done]. by apply quiet_scalar. }
  rewrite validate_fields_cons.
  destruct (kwargs !! "min_quality_threshold") as [v|]; [| apply Htail].
  destruct (run_scalar_field "min_quality_threshold" ([] ++ ["min_quality_threshold"])
              (TFloat (Some 0.0%float) (Some 1.0%float)) (VFloat 0.2) v ∅
              eq_refl) as [(x & ->) | (k & ->)]; apply Htail.
Qed.

End Weights.

(** ** Writing a configuration and validating what was written *)

Section Classes.
Context {R : Runtime}.

Lemma device_field_good (dflt v : PyValue) :
  conforms DeviceType v = true →
  field_good "device" DeviceType
    (with_serializer serialize_device (field dflt)) v.
Proof.
  destruct v as [| | | | | | | |cls m|]; try done. cbn [conforms DeviceType].
  intros [<-%String.eqb_eq Hm]%andb_prop.
  split; [constructor |]. intros loc data.
  unfold run_field, dump_field. cbn [fi_before fi_after fi_serializer
    with_serializer field serialize_device]. simpl String.eqb. cbv iota.
  cbn [validate_value DeviceType]. unfold validate_scalar, coerce.
  cbn [native]. rewrite Hm. done.
Qed.

Lemma level_field_good (dflt v : PyValue) :
  conforms LogLevel v = true →
  field_good "level" LogLevel
    (with_serializer serialize_level (field dflt)) v.
Proof.
  destruct v as [| | | | | | | |cls m|]; try done. cbn [conforms LogLevel].
  intros [<-%String.eqb_eq Hm]%andb_prop.
  split; [constructor |]. intros loc data.
  unfold run_field, dump_field. cbn [fi_before fi_after fi_serializer
    with_serializer field serialize_level]. simpl String.eqb. cbv iota.
  cbn [validate_value LogLevel]. unfold validate_scalar, coerce.
  cbn [native]. rewrite Hm. done.
Qed.

Lemma path_field_good (name : string) (dflt v : PyValue) :
  conforms TPath v = true →
  field_good name TPath
    (with_serializer serialize_path (with_before convert_path (field dflt))) v.
Proof.
  destruct v as [| | | | | | |p| |]; try done. cbn [conforms].
  intros Hp%String.eqb_eq.
  split; [constructor |]. intros loc data.
  unfold run_field, dump_field. cbn [fi_before fi_after fi_serializer
    with_serializer with_before field serialize_path convert_path].
  rewrite Hp. done.
Qed.

Lemma optional_path_field_good (name : string) (dflt v : PyValue) :
  conforms (TOptional TPath) v = true →
  field_good name (TOptional TPath)
    (with_serializer serialize_path (with_before convert_path (field dflt))) v.
Proof.
  destruct v as [| | | | | | |p| |]; try done; cbn [conforms].
  - intros _. split; [constructor | done].
  - intros Hp%String.eqb_eq.
    split; [constructor |]. intros loc data.
    unfold run_field, dump_field. cbn [fi_before fi_after fi_serializer
      with_serializer with_before field serialize_path convert_path].
    rewrite Hp. done.
Qed.

(** Taking apart [conforms] for an instance of a class. *)
Lemma conforms_model (cls : string) (fs : Fields) (v : PyValue) :
  conforms (TModel cls fs) v = true →
  ∃ d, v = VModel cls d ∧ conforms_fields fs d = true ∧
       dom d = list_to_set (names fs).
Proof.
  destruct v as [| | | | | | | | |cls' d]; try done. cbn [conforms].
  intros [[->%String.eqb_eq Hf]%andb_prop Hd%bool_decide_eq_true]%andb_prop.
  by exists d.
Qed.

Ltac fields_inv H :=
  cbn [conforms_fields mk_fields] in H;
  repeat match type of H with
         | match ?d !! ?n with _ => _ end = true =>
             let E := fresh "E" in
             destruct (d !! n) eqn:E; [| discriminate H];
             let C := fresh "C" in
             apply andb_prop in H as [C H]
         end.

Create HintDb class_good.

Ltac field_good_tac :=
  first
    [ apply field_good_plain;
      [reflexivity | reflexivity | reflexivity |
       first [ by apply type_good_str | by apply type_good_bool
             | by apply type_good_int | by apply type_good_float
             | by apply type_good_optional_int
             | by auto with class_good ]]
    | by apply device_field_good
    | by apply level_field_good
    | by apply path_field_good
    | by apply optional_path_field_good ].

Ltac class_inv H d Hdom :=
  unfold annotation in H |- *;
  apply conforms_model in H as (d & -> & H & Hdom);
  cbn [cls_name cls_fields class] in *;
  apply model_good; [| exact Hdom];
  fields_inv H;
  cbn [fields_good mk_fields].

Ltac class_good_tac :=
  let H := fresh "H" in
  let d := fresh "d" in
  let Hdom := fresh "Hdom" in
  intros H; class_inv H d Hdom;
  repeat split;
  (eexists; split; [eassumption |]; split; [reflexivity |];
   apply field_good_anywhere; field_good_tac).

Lemma ModelConfig_good (v : PyValue) :
  conforms (annotation ModelConfig) v = true →
  type_good (annotation ModelConfig) v.
Proof. unfold ModelConfig. class_good_tac. Qed.

Lemma FrameExtractionConfig_good (v : PyValue) :
  conforms (annotation FrameExtractionConfig) v = true →
  type_good (annotation FrameExtractionConfig) v.
Proof. unfold FrameExtractionConfig. class_good_tac. Qed.

Lemma QualityConfig_good (v : PyValue) :
  conforms (annotation QualityConfig) v = true →
  type_good (annotation QualityConfig) v.
Proof. unfold QualityConfig. class_good_tac. Qed.

Lemma PoseClassificationConfig_good (v : PyValue) :
  conforms (annotation PoseClassificationConfig) v = true →
  type_good (annotation PoseClassificationConfig) v.
Proof. unfold PoseClassificationConfig. class_good_tac. Qed.

Lemma HeadAngleConfig_good (v : PyValue) :
  conforms (annotation HeadAngleConfig) v = true →
  type_good (annotation HeadAngleConfig) v.
Proof. unfold HeadAngleConfig. class_good_tac. Qed.

Lemma CloseupDetectionConfig_good (v : PyValue) :
  conforms (annotation CloseupDetectionConfig) v = true →
  type_good (annotation CloseupDetectionConfig) v.
Proof. unfold CloseupDetectionConfig. class_good_tac. Qed.

Lemma PngConfig_good (v : PyValue) :
  conforms (annotation PngConfig) v = true → type_good (annotation PngConfig) v.
Proof. unfold PngConfig. class_good_tac. Qed.

Lemma JpegConfig_good (v : PyValue) :
  conforms (annotation JpegConfig) v = true → type_good (annotation JpegConfig) v.
Proof. unfold JpegConfig. class_good_tac. Qed.

Local Hint Resolve PngConfig_good JpegConfig_good : class_good.

Lemma OutputImageConfig_good (v : PyValue) :
  conforms (annotation OutputImageConfig) v = true →
  type_good (annotation OutputImageConfig) v.
Proof. unfold OutputImageConfig. class_good_tac. Qed.

Local Hint Resolve OutputImageConfig_good : class_good.

Lemma OutputConfig_good (v : PyValue) :
  conforms (annotation OutputConfig) v = true →
  type_good (annotation OutputConfig) v.
Proof. unfold OutputConfig. class_good_tac. Qed.

Lemma StorageConfig_good (v : PyValue) :
  conforms (annotation StorageConfig) v = true →
  type_good (annotation StorageConfig) v.
Proof. unfold StorageConfig. class_good_tac. Qed.

Lemma ProcessingConfig_good (v : PyValue) :
  conforms (annotation ProcessingConfig) v = true →
  type_good (annotation ProcessingConfig) v.
Proof. unfold ProcessingConfig. class_good_tac. Qed.

Lemma LoggingConfig_good (v : PyValue) :
  conforms (annotation LoggingConfig) v = true →
  type_good (annotation LoggingConfig) v.
Proof. unfold LoggingConfig. class_good_tac. Qed.

(** The weights: [face_size_weight] passes its validator whatever was
    validated before, [quality_weight] when the sum allows it. *)
Lemma face_size_weight_good (dflt v : PyValue) :
  conforms (TFloat (Some 0.0%float) (Some 1.0%float)) v = true →
  field_good "face_size_weight" (TFloat (Some 0.0%float) (Some 1.0%float))
    (with_after validate_weights_sum (field dflt)) v.
Proof.
  destruct v as [| | |f| | | | | |]; try done. cbn [conforms].
  destruct (check_bounds _ _) eqn:Hb; [done |]. intros _.
  apply check_bounds_float in Hb as [Hlo Hhi].
  split; [constructor |]. intros loc data.
  unfold dump_field. cbn [fi_serializer with_after field dump_value].
  by rewrite run_weight_field_float, validate_weights_sum_face.
Qed.

Lemma quality_weight_good (d : gmap string PyValue) (prev : list string)
    (dflt v : PyValue) (q f : float) :
  conforms (TFloat (Some 0.0%float) (Some 1.0%float)) v = true →
  v = VFloat q → d !! "face_size_weight" = Some (VFloat f) →
  "face_size_weight" ∈ prev →
  PrimFloat.ltb 1.0 (q + f) = false →
  field_good_in d prev "quality_weight"
    (TFloat (Some 0.0%float) (Some 1.0%float))
    (with_after validate_weights_sum (field dflt)) v.
Proof.
  intros Hc -> Hf Hprev Hsum. cbn [conforms] in Hc.
  destruct (check_bounds _ _) eqn:Hb; [done |].
  apply check_bounds_float in Hb as [Hlo Hhi].
  split; [constructor |]. intros loc data Hdata.
  unfold dump_field. cbn [fi_serializer with_after field dump_value].
  rewrite run_weight_field_float by done.
  rewrite (validate_weights_sum_quality q f), Hsum; [done |].
  by rewrite (Hdata _ Hprev), Hf.
Qed.

Lemma FrameSelectionConfig_good (v : PyValue) (q f : float) :
  conforms (annotation FrameSelectionConfig) v = true →
  getattr v "quality_weight" = Some (VFloat q) →
  getattr v "face_size_weight" = Some (VFloat f) →
  PrimFloat.ltb 1.0 (q + f) = false →
  type_good (annotation FrameSelectionConfig) v.
Proof.
  unfold FrameSelectionConfig. intros H Hq Hf Hsum.
  class_inv H d Hdom. cbn [getattr] in Hq, Hf.
  repeat match goal with
         | E : ?m !! ?n = Some ?p, E' : ?m !! ?n = Some (VFloat ?x) |- _ =>
             is_var p; assert (p = VFloat x) as -> by congruence; clear E
         end.
  repeat split;
    (eexists; split; [eassumption |]; split; [reflexivity |]).
  - apply field_good_anywhere. field_good_tac.
  - apply field_good_anywhere. by apply face_size_weight_good.
  - eapply quality_weight_good; [done | done | done | by left | done].
  - apply field_good_anywhere. field_good_tac.
Qed.

Local Hint Resolve ModelConfig_good FrameExtractionConfig_good
  QualityConfig_good PoseClassificationConfig_good HeadAngleConfig_good
  CloseupDetectionConfig_good OutputConfig_good StorageConfig_good
  ProcessingConfig_good LoggingConfig_good : class_good.

(** A configuration in range that satisfies the weight constraint is
    written as plain data from which validation gives it back. *)
Lemma Config_good (config : PyValue) :
  conforms (annotation Config) config = true →
  weights_sum_ok config = true →
  type_good (annotation Config) config.
Proof.
  unfold Config. intros H Hw.
  class_inv H d Hdom. unfold weights_sum_ok in Hw. cbn [getattr] in Hw.
  repeat split;
    (eexists; split; [eassumption |]; split; [reflexivity |];
     apply field_good_anywhere; try field_good_tac).
  apply field_good_plain; [reflexivity.. |].
  match goal with
  | E : d !! "frame_selection" = Some ?sel |- _ =>
      rewrite E in Hw;
      destruct (getattr sel "quality_weight") as [[| | |q| | | | | |]|] eqn:Eq;
        try done;
      destruct (getattr sel "face_size_weight") as [[| | |f| | | | | |]|] eqn:Ef;
        try done
  end.
  eapply FrameSelectionConfig_good; [done | done | done |].
  by destruct (PrimFloat.ltb _ _).
Qed.

Lemma conforms_field (cls : string) (fs : Fields) (d : gmap string PyValue)
    (name : string) (ty : FieldType) (info : FieldInfo) :
  conforms_fields fs d = true → find_field fs name = Some (ty, info) →
  ∃ v, d !! name = Some v ∧ conforms ty v = true.
Proof.
  induction fs as [|n ty' info' rest IH]; [done |]. simpl.
  destruct (d !! n) as [v|] eqn:E; [| done].
  intros [Hv Hrest]%andb_prop.
  destruct (String.eqb_spec n name) as [->|Hne].
  - intros [= <- <-]. by exists v.
  - by apply IH.
Qed.

Lemma item_dump (cls : string) (fs : Fields) (d : gmap string PyValue)
    (name : string) (ty : FieldType) (info : FieldInfo) (v : PyValue)
    (rest : list string) :
  find_field fs name = Some (ty, info) → d !! name = Some v →
  item (dump_value (TModel cls fs) (VModel cls d)) (name :: rest) =
  item (dump_field info (dump_value ty) v) rest.
Proof.
  intros Hfind Hv. cbn [dump_value item].
  by rewrite (dump_fields_lookup _ _ _ _ _ _ Hfind Hv).
Qed.

(** What is written for the enum-valued and the path-valued fields. *)
Lemma dumped_strings (config : PyValue) :
  conforms (annotation Config) config = true →
  is_str (item (model_dump Config config) ["models"; "device"]) = true ∧
  is_str (item (model_dump Config config) ["logging"; "level"]) = true ∧
  is_str (item (model_dump Config config) ["storage"; "cache_directory"]) = true ∧
  is_str_or_none (item (model_dump Config config) ["storage"; "temp_directory"])
    = true ∧
  is_str_or_none (item (model_dump Config config) ["logging"; "log_file"]) = true.
Proof.
  intros H. unfold model_dump, annotation in *.
  apply conforms_model in H as (d & -> & H & _).
  destruct (conforms_field "" _ _ "models" _ _ H eq_refl) as (m & Em & Hm).
  destruct (conforms_field "" _ _ "logging" _ _ H eq_refl) as (l & El & Hl).
  destruct (conforms_field "" _ _ "storage" _ _ H eq_refl) as (s & Es & Hs).
  unfold annotation in Hm, Hl, Hs.
  apply conforms_model in Hm as (dm & -> & Hm & _).
  apply conforms_model in Hl as (dl & -> & Hl & _).
  apply conforms_model in Hs as (ds & -> & Hs & _).
  destruct (conforms_field "" _ _ "device" _ _ Hm eq_refl) as (v1 & E1 & H1).
  destruct (conforms_field "" _ _ "level" _ _ Hl eq_refl) as (v2 & E2 & H2).
  destruct (conforms_field "" _ _ "log_file" _ _ Hl eq_refl) as (v3 & E3 & H3).
  destruct (conforms_field "" _ _ "cache_directory" _ _ Hs eq_refl)
    as (v4 & E4 & H4).
  destruct (conforms_field "" _ _ "temp_directory" _ _ Hs eq_refl)
    as (v5 & E5 & H5).
  split_and!.
  - (erewrite item_dump; [| reflexivity | eassumption]).
    unfold dump_field. cbn [fi_serializer submodel]. unfold annotation.
    (erewrite item_dump; [| reflexivity | eassumption]).
    destruct v1; try done. cbn [conforms DeviceType] in H1.
    apply andb_prop in H1 as [<-%String.eqb_eq _]. done.
  - (erewrite item_dump; [| reflexivity | eassumption]).
    unfold dump_field. cbn [fi_serializer submodel]. unfold annotation.
    (erewrite item_dump; [| reflexivity | eassumption]).
    destruct v2; try done. cbn [conforms LogLevel] in H2.
    apply andb_prop in H2 as [<-%String.eqb_eq _]. done.
  - (erewrite item_dump; [| reflexivity | eassumption]).
    unfold dump_field. cbn [fi_serializer submodel]. unfold annotation.
    (erewrite item_dump; [| reflexivity | eassumption]).
    by destruct v4.
  - (erewrite item_dump; [| reflexivity | eassumption]).
    unfold dump_field. cbn [fi_serializer submodel]. unfold annotation.
    (erewrite item_dump; [| reflexivity | eassumption]).
    by destruct v5.
  - (erewrite item_dump; [| reflexivity | eassumption]).
    unfold dump_field. cbn [fi_serializer submodel]. unfold annotation.
    (erewrite item_dump; [| reflexivity | eassumption]).
    by destruct v3.
Qed.

Lemma model_new_dump (config : PyValue) :
  conforms (annotation Config) config = true →
  weights_sum_ok config = true →
  model_new Config (model_dump Config config) = Ok config.
Proof.
  intros Hc Hw. destruct (Config_good config Hc Hw) as [_ Hval].
  unfold model_new, model_dump. rewrite Hval.
  unfold annotation in Hc. apply conforms_model in Hc as (d & -> & _). done.
Qed.

(** ** Exceptions *)

Ltac no_raise_tac :=
  first
    [ intros; apply scalar_no_raise
    | apply optional_no_raise; intros; apply scalar_no_raise
    | apply model_no_raise; by auto with class_quiet ].

Ltac class_quiet_tac :=
  cbn [cls_fields class mk_fields Forall_fields annotation];
  repeat split;
  (apply quiet_plain; [reflexivity | reflexivity | no_raise_tac]).

Create HintDb class_quiet.

Lemma ModelConfig_quiet : Forall_fields quiet (cls_fields ModelConfig).
Proof. unfold ModelConfig. class_quiet_tac. Qed.

Lemma FrameExtractionConfig_quiet :
  Forall_fields quiet (cls_fields FrameExtractionConfig).
Proof. unfold FrameExtractionConfig. class_quiet_tac. Qed.

Lemma QualityConfig_quiet : Forall_fields quiet (cls_fields QualityConfig).
Proof. unfold QualityConfig. class_quiet_tac. Qed.

Lemma PoseClassificationConfig_quiet :
  Forall_fields quiet (cls_fields PoseClassificationConfig).
Proof. unfold PoseClassificationConfig. class_quiet_tac. Qed.

Lemma HeadAngleConfig_quiet : Forall_fields quiet (cls_fields HeadAngleConfig).
Proof. unfold HeadAngleConfig. class_quiet_tac. Qed.

Lemma CloseupDetectionConfig_quiet :
  Forall_fields quiet (cls_fields CloseupDetectionConfig).
Proof. unfold CloseupDetectionConfig. class_quiet_tac. Qed.

Lemma PngConfig_quiet : Forall_fields quiet (cls_fields PngConfig).
Proof. unfold PngConfig. class_quiet_tac. Qed.

Lemma JpegConfig_quiet : Forall_fields quiet (cls_fields JpegConfig).
Proof. unfold JpegConfig. class_quiet_tac. Qed.

Local Hint Resolve PngConfig_quiet JpegConfig_quiet : class_quiet.

Lemma OutputImageConfig_quiet :
  Forall_fields quiet (cls_fields OutputImageConfig).
Proof. unfold OutputImageConfig. class_quiet_tac. Qed.

Local Hint Resolve OutputImageConfig_quiet : class_quiet.

Lemma OutputConfig_quiet : Forall_fields quiet (cls_fields OutputConfig).
Proof. unfold OutputConfig. class_quiet_tac. Qed.

Lemma ProcessingConfig_quiet : Forall_fields quiet (cls_fields ProcessingConfig).
Proof. unfold ProcessingConfig. class_quiet_tac. Qed.

(** A weight field is rejected by its annotation, or holds a [float] and
    has the outcome of [validate_weights_sum]. *)
Lemma run_weight_field_cases (name : string) (loc : list string)
    (dflt v : PyValue) (data : gmap string PyValue) :
  (∃ k, run_field name (with_after validate_weights_sum (field dflt)) loc
          (validate_value (TFloat (Some 0.0%float) (Some 1.0%float)) loc) v data
        = FErr [mkError loc k])
  ∨ (∃ f, run_field name (with_after validate_weights_sum (field dflt)) loc
            (validate_value (TFloat (Some 0.0%float) (Some 1.0%float)) loc) v data
          = match validate_weights_sum name (VFloat f) data with
            | Ok x => FOk x
            | Raise (ValueError msg) => FErr [mkError loc (value_error msg)]
            | Raise e => FRaise e
            end).
Proof.
  unfold run_field. cbn [fi_before fi_after with_after field].
  change (validate_value (TFloat ?a ?b) loc v)
    with (validate_scalar (TFloat a b) loc v).
  destruct (validate_scalar_cases (TFloat (Some 0.0%float) (Some 1.0%float)) loc v)
    as [(y & -> & Hc & _) | (k & ->)]; [| left; by exists k].
  destruct (coerce_float _ _ _ _ Hc) as [f ->]. right. by exists f.
Qed.

Lemma validate_weights_sum_float (name : string) (f : float)
    (data : gmap string PyValue) (x : PyValue) :
  validate_weights_sum name (VFloat f) data = Ok x → x = VFloat f.
Proof. unfold validate_weights_sum. repeat case_match; congruence. Qed.

Lemma FrameSelectionConfig_no_raise (loc : list string) (v : PyValue) (e : Exn) :
  validate_value (annotation FrameSelectionConfig) loc v ≠ FRaise e.
Proof.
  revert loc v e. apply model_no_raise_fields. intros loc kvs e E.
  pose proof (validate_fields_invariant
    (λ data, match data !! "face_size_weight" with
             | Some (VFloat _) | None => True
             | Some _ => False
             end)
    (λ _, False) (cls_fields FrameSelectionConfig) loc kvs) as H.
  cbv beta in H.
  match type of H with
  | ?A → _ =>
      assert A as HF;
      [| specialize (H HF ∅ []); rewrite lookup_empty, E in H; by apply H]
  end.
  unfold FrameSelectionConfig, class. cbn [cls_fields mk_fields Forall_fields].
  split_and!; [| | | | done].
  - intros data HP. split; [by rewrite lookup_insert_ne |]. intros v _.
    destruct (run_scalar_field "min_quality_threshold"
                (loc ++ ["min_quality_threshold"])
                (TFloat (Some 0.0%float) (Some 1.0%float)) (VFloat 0.2) v data
                eq_refl) as [(x & ->) | (k & ->)]; [| done].
    by rewrite lookup_insert_ne.
  - intros data HP. split; [by rewrite lookup_insert_eq |]. intros v _.
    destruct (run_weight_field_cases "face_size_weight"
                (loc ++ ["face_size_weight"]) (VFloat 0.3) v data)
      as [(k & ->) | (f & ->)]; [done |].
    rewrite validate_weights_sum_face. by rewrite lookup_insert_eq.
  - intros data HP. split; [by rewrite lookup_insert_ne |]. intros v _.
    destruct (run_weight_field_cases "quality_weight"
                (loc ++ ["quality_weight"]) (VFloat 0.7) v data)
      as [(k & ->) | (q & ->)]; [done |].
    destruct (data !! "face_size_weight") as [[| | |f| | | | | |]|] eqn:Ef;
      try done.
    + rewrite (validate_weights_sum_quality q f) by by rewrite Ef.
      destruct (PrimFloat.ltb _ _); [done |].
      by rewrite lookup_insert_ne, Ef.
    + rewrite (validate_weights_sum_quality q 0.3) by by rewrite Ef.
      destruct (PrimFloat.ltb _ _); [done |].
      by rewrite lookup_insert_ne, Ef.
  - intros data HP. split; [by rewrite lookup_insert_ne |]. intros v _.
    destruct (run_scalar_field "diversity_threshold"
                (loc ++ ["diversity_threshold"])
                (TFloat (Some 0.0%float) (Some 1.0%float)) (VFloat 0.8) v data
                eq_refl) as [(x & ->) | (k & ->)]; [| done].
    by rewrite lookup_insert_ne.
Qed.

(** A path field raises on an input that is not path-like, and on no
    other. *)
Lemma run_path_field (name : string) (ty : FieldType) (dflt : PyValue)
    (loc : list string) (v : PyValue) (data : gmap string PyValue) (e : Exn) :
  ty = TPath ∨ ty = TOptional TPath →
  run_field name
    (with_serializer serialize_path (with_before convert_path (field dflt)))
    loc (validate_value ty loc) v data = FRaise e →
  e = TypeError "expected str, bytes or os.PathLike object" ∧
  not_pathlike (Some v).
Proof.
  intros Hty. unfold run_field.
  cbn [fi_before fi_after with_serializer with_before field].
  assert (∀ w e', validate_value ty loc w ≠ FRaise e') as Hcore.
  { destruct Hty as [-> | ->]; [intros; apply scalar_no_raise |].
    apply optional_no_raise. intros. apply scalar_no_raise. }
  destruct v; simpl;
    try (by intros [= <-]);
    match goal with
    | |- context [validate_value ty loc ?w] =>
        pose proof (Hcore w) as Hw;
        destruct (validate_value ty loc w) as [?|?|e'']; [done | done |];
        by specialize (Hw e'')
    end.
Qed.

(** [StorageConfig] and [LoggingConfig] raise nothing but the [TypeError]
    of a path conversion. *)
Lemma StorageConfig_raise (loc : list string) (kvs : gmap string PyValue)
    (e : Exn) :
  validate_fields (cls_fields StorageConfig) loc kvs ∅ [] = Raise e →
  e = TypeError "expected str, bytes or os.PathLike object" ∧
  (not_pathlike (kvs !! "cache_directory") ∨
   not_pathlike (kvs !! "temp_directory")).
Proof.
  intros E.
  pose proof (validate_fields_invariant (λ _, True)
    (λ e, e = TypeError "expected str, bytes or os.PathLike object" ∧
          (not_pathlike (kvs !! "cache_directory") ∨
           not_pathlike (kvs !! "temp_directory")))
    (cls_fields StorageConfig) loc kvs) as H.
  cbv beta in H.
  match type of H with
  | ?A → _ =>
      assert A as HF; [| specialize (H HF ∅ [] I); by rewrite E in H]
  end.
  unfold StorageConfig, class. cbn [cls_fields mk_fields Forall_fields].
  split_and!; try done; intros data _; (split; [done |]); intros v Hv;
    match goal with
    | |- context [with_before convert_path] =>
        destruct (run_field _ _ _ _ _ _) as [x|es|e'] eqn:Er; try done;
        apply run_path_field in Er as [-> Hbad]; [| by auto];
        split; [done |]; rewrite Hv; by auto
    | |- _ =>
        destruct (run_field _ _ _ _ _ _) as [x|es|e'] eqn:Er; try done;
        exfalso; revert Er; apply quiet_plain;
          [reflexivity | reflexivity | intros; apply scalar_no_raise]
    end.
Qed.

Lemma LoggingConfig_raise (loc : list string) (kvs : gmap string PyValue)
    (e : Exn) :
  validate_fields (cls_fields LoggingConfig) loc kvs ∅ [] = Raise e →
  e = TypeError "expected str, bytes or os.PathLike object" ∧
  not_pathlike (kvs !! "log_file").
Proof.
  intros E.
  pose proof (validate_fields_invariant (λ _, True)
    (λ e, e = TypeError "expected str, bytes or os.PathLike object" ∧
          not_pathlike (kvs !! "log_file"))
    (cls_fields LoggingConfig) loc kvs) as H.
  cbv beta in H.
  match type of H with
  | ?A → _ =>
      assert A as HF; [| specialize (H HF ∅ [] I); by rewrite E in H]
  end.
  unfold LoggingConfig, class. cbn [cls_fields mk_fields Forall_fields].
  split_and!; try done; intros data _; (split; [done |]); intros v Hv;
    match goal with
    | |- context [with_before convert_path] =>
        destruct (run_field _ _ _ _ _ _) as [x|es|e'] eqn:Er; try done;
        apply run_path_field in Er as [-> Hbad]; [| by auto];
        split; [done |]; by rewrite Hv
    | |- _ =>
        destruct (run_field _ _ _ _ _ _) as [x|es|e'] eqn:Er; try done;
        exfalso; revert Er; apply quiet_plain;
          [reflexivity | reflexivity | intros; apply scalar_no_raise]
    end.
Qed.

Local Hint Resolve ModelConfig_quiet FrameExtractionConfig_quiet
  QualityConfig_quiet PoseClassificationConfig_quiet HeadAngleConfig_quiet
  CloseupDetectionConfig_quiet OutputConfig_quiet ProcessingConfig_quiet
  : class_quiet.

Lemma item_field (kvs : gmap string PyValue) (name : string) :
  item (VDict kvs) [name] = kvs !! name.
Proof. simpl. by destruct (kvs !! name). Qed.

Lemma item_group (kwargs kvs : gmap string PyValue) (group name : string) :
  kwargs !! group = Some (VDict kvs) →
  item (VDict kwargs) [group; name] = kvs !! name.
Proof. intros E. cbn [item]. rewrite E. by destruct (kvs !! name). Qed.

(** Whatever [Config] is constructed from, the only exception besides a
    [ValidationError] is the [TypeError] of a path conversion, raised when
    one of the three path fields is given something that is not [None], a
    [str] or a path. *)
Lemma Config_fields_raise (kwargs : gmap string PyValue) (e : Exn) :
  validate_fields (cls_fields Config) [] kwargs ∅ [] = Raise e →
  e = TypeError "expected str, bytes or os.PathLike object" ∧
  (not_pathlike (item (VDict kwargs) ["storage"; "cache_directory"]) ∨
   not_pathlike (item (VDict kwargs) ["storage"; "temp_directory"]) ∨
   not_pathlike (item (VDict kwargs) ["logging"; "log_file"])).
Proof.
  intros E.
  pose proof (validate_fields_invariant (λ _, True)
    (λ e, e = TypeError "expected str, bytes or os.PathLike object" ∧
     (not_pathlike (item (VDict kwargs) ["storage"; "cache_directory"]) ∨
      not_pathlike (item (VDict kwargs) ["storage"; "temp_directory"]) ∨
      not_pathlike (item (VDict kwargs) ["logging"; "log_file"])))
    (cls_fields Config) [] kwargs) as H.
  cbv beta in H.
  match type of H with
  | ?A → _ =>
      assert A as HF; [| specialize (H HF ∅ [] I); by rewrite E in H]
  end.
  clear E H. unfold Config. cbn [cls_fields mk_fields Forall_fields].
  split_and!; try done; intros data _; (split; [done |]); intros v Hv;
    rewrite run_field_plain by done;
    match goal with
    | |- context [validate_value ?t ?l v] =>
        destruct (validate_value t l v) as [x|es|e'] eqn:Er; try done
    end;
    first
      [ exfalso; revert Er;
        first [ apply FrameSelectionConfig_no_raise
              | apply model_no_raise; by auto with class_quiet ]
      | apply model_raise_inv in Er as (kvs & -> & Er);
        first
          [ apply StorageConfig_raise in Er as [-> Hbad];
            rewrite !(item_group _ _ _ _ Hv); split; [done |];
            destruct Hbad; by auto
          | apply LoggingConfig_raise in Er as [-> Hbad];
            rewrite !(item_group _ _ _ _ Hv); split; by auto ] ].
Qed.

Lemma Config_new_raise (kwargs : gmap string PyValue) (e : Exn) :
  model_new Config (VDict kwargs) = Raise e →
  (∃ errs, e = ValidationError errs) ∨
  (e = TypeError "expected str, bytes or os.PathLike object" ∧
   (not_pathlike (item (VDict kwargs) ["storage"; "cache_directory"]) ∨
    not_pathlike (item (VDict kwargs) ["storage"; "temp_directory"]) ∨
    not_pathlike (item (VDict kwargs) ["logging"; "log_file"]))).
Proof.
  rewrite model_new_dict.
  destruct (validate_fields _ _ _ _ _) as [[data [|e' es]]|e'] eqn:E;
    [done | intros [= <-]; left; by eexists |].
  intros [= ->]. right. by apply Config_fields_raise.
Qed.



(** What [from_file] does with a file that is there. *)
Lemma from_file_found (fs : gmap string FileContent) (config_path : string)
    (content : FileContent) :
  fs !! config_path = Some content →
  from_file fs config_path =
  bind (if is_yaml (lower (path_suffix config_path)) then yaml_safe_load content
        else if is_json (lower (path_suffix config_path)) then json_load content
        else Raise (ValueError ("Unsupported config file format: "
                                ++ path_suffix config_path)))
       (model_new Config).
Proof. intros E. unfold from_file. by rewrite E. Qed.

Lemma from_file_not_found (fs : gmap string FileContent) (config_path : string) :
  fs !! config_path = None →
  from_file fs config_path =
  Raise (FileNotFoundError ("Configuration file not found: " ++ config_path)).
Proof. intros E. unfold from_file. by rewrite E. Qed.

Lemma is_yaml_iff (suffix : string) :
  is_yaml suffix = true ↔ suffix = ".yaml" ∨ suffix = ".yml".
Proof.
  unfold is_yaml. cbn [existsb]. rewrite !orb_true_iff, !String.eqb_eq.
  split; [intros [?|[?|?]]; by auto | intros [?|?]; by auto].
Qed.

Lemma is_json_iff (suffix : string) : is_json suffix = true ↔ suffix = ".json".
Proof. apply String.eqb_eq. Qed.

(** A field of the keyword arguments that its annotation rejects is named
    by the [ValidationError], unless a path conversion raises first. *)
Lemma Config_new_rejects (kwargs : gmap string PyValue) (path : list string) :
  offends_fields (cls_fields Config) kwargs path →
  raises_validation_error (model_new Config (VDict kwargs)) (λ locs, path ∈ locs)
  ∨ (model_new Config (VDict kwargs)
       = Raise (TypeError "expected str, bytes or os.PathLike object") ∧
     (not_pathlike (item (VDict kwargs) ["storage"; "cache_directory"]) ∨
      not_pathlike (item (VDict kwargs) ["storage"; "temp_directory"]) ∨
      not_pathlike (item (VDict kwargs) ["logging"; "log_file"]))).
Proof.
  intros H.
  pose proof (proj2 offends_reported _ [] _ _ H ∅ []) as Hrep.
  cbn [app] in Hrep.
  rewrite model_new_dict.
  destruct (validate_fields _ _ _ _ _) as [[data [|e es]]|e] eqn:E.
  - by apply elem_of_nil in Hrep.
  - by left.
  - right. apply Config_fields_raise in E as [-> Hbad]. by split.
Qed.

End Classes.
End ConfigFacts.

(* ===================================================================== *)
(** * config.py: properties of the design document *)
(* ===================================================================== *)

Module ConfigSpec.
Import Py Pydantic Config PyFacts PydanticFacts ConfigFacts.
Local Open Scope string_scope.

Section Weights.
Context {R : Runtime}.

(** What the validator checks.  The sum of the two weights is checked by
    the validator of [quality_weight] and by it alone: validating a
    [quality_weight] adds it to the [face_size_weight] found in the data
    validated so far (0.3 when there is none) and rejects a sum above 1.0,
    while validating a [face_size_weight] checks nothing.  Hence a
    [FrameSelectionConfig] constructed from arguments that give
    [quality_weight] satisfies the constraint, and arguments giving both
    weights in range with a sum above 1.0 are rejected with a
    [ValidationError] naming [quality_weight]: with [face_size_weight] 0.6
    the value 0.5 for [quality_weight] is rejected and the value 0.4
    accepted. *)
Lemma weights_sum_checked_at_construction :
  (∀ (v : PyValue) (data : gmap string PyValue),
     validate_weights_sum "face_size_weight" v data = Ok v) ∧
  (∀ (q f : float) (data : gmap string PyValue),
     default (VFloat 0.3) (data !! "face_size_weight") = VFloat f →
     validate_weights_sum "quality_weight" (VFloat q) data =
     if PrimFloat.ltb 1.0 (q + f)
     then Raise (ValueError ("face_size_weight (" ++ py_str (VFloat f)
                   ++ ") + quality_weight (" ++ py_str (VFloat q)
                   ++ ") must not exceed 1.0"))
     else Ok (VFloat q)) ∧
  (∀ (kwargs : gmap string PyValue) (inst : PyValue),
     is_Some (kwargs !! "quality_weight") →
     model_new FrameSelectionConfig (VDict kwargs) = Ok inst →
     ∃ q f, getattr inst "quality_weight" = Some (VFloat q) ∧
            getattr inst "face_size_weight" = Some (VFloat f) ∧
            PrimFloat.ltb 1.0 (q + f) = false) ∧
  (∀ (kwargs : gmap string PyValue) (q f : float),
     kwargs !! "quality_weight" = Some (VFloat q) →
     kwargs !! "face_size_weight" = Some (VFloat f) →
     PrimFloat.leb 0.0 q = true → PrimFloat.leb q 1.0 = true →
     PrimFloat.leb 0.0 f = true → PrimFloat.leb f 1.0 = true →
     PrimFloat.ltb 1.0 (q + f) = true →
     raises_validation_error (model_new FrameSelectionConfig (VDict kwargs))
       (λ locs, ["quality_weight"] ∈ locs)) ∧
  raises_validation_error
    (model_new FrameSelectionConfig
       (VDict {[ "face_size_weight" := VFloat 0.6;
                 "quality_weight" := VFloat 0.5 ]}))
    (λ locs, locs = [["quality_weight"]]) ∧
  returns
    (model_new FrameSelectionConfig
       (VDict {[ "face_size_weight" := VFloat 0.6;
                 "quality_weight" := VFloat 0.4 ]}))
    (λ inst, getattr inst "face_size_weight" = Some (VFloat 0.6) ∧
             getattr inst "quality_weight" = Some (VFloat 0.4)).
Proof.
  split_and!.
  - apply validate_weights_sum_face.
  - apply validate_weights_sum_quality.
  - apply frame_selection_new_checked.
  - apply frame_selection_new_rejected.
  - vm_compute. reflexivity.
  - vm_compute. by split.
Qed.

End Weights.

(** C2, on the code.  The constraint is not kept on assignment.  On a
    default [Config], assigning 0.6 to [frame_selection.face_size_weight]
    brings the sum of the weights to 1.3, and assigning 0.5 to
    [frame_selection.quality_weight] afterwards leaves it at 1.1; neither
    assignment raises, and both values are stored:
    [validate_assignment=True] is set on [Config] alone, and
    [FrameSelectionConfig] does not validate assignments.  Were it to, the
    first assignment would pass all the same, [validate_weights_sum]
    checking nothing when the field is [face_size_weight]. *)
Theorem weight_assignments_pass_unchecked :
  let R := reference_runtime in
  returns (from_env ∅) (λ config,
    returns (setattr_in "frame_selection" FrameSelectionConfig config
               "face_size_weight" (VFloat 0.6)) (λ config1,
      attr config1 ["frame_selection"; "face_size_weight"] = Some (VFloat 0.6) ∧
      attr config1 ["frame_selection"; "quality_weight"] = Some (VFloat 0.7) ∧
      PrimFloat.ltb 1.0 (0.7 + 0.6) = true ∧
      weights_sum_ok config1 = false ∧
      returns (setattr_in "frame_selection" FrameSelectionConfig config1
                 "quality_weight" (VFloat 0.5)) (λ config2,
        attr config2 ["frame_selection"; "face_size_weight"] = Some (VFloat 0.6) ∧
        attr config2 ["frame_selection"; "quality_weight"] = Some (VFloat 0.5) ∧
        PrimFloat.ltb 1.0 (0.5 + 0.6) = true ∧
        weights_sum_ok config2 = false)) ∧
    returns (setattr_in "frame_selection" (validating FrameSelectionConfig)
               config "face_size_weight" (VFloat 0.6)) (λ config1,
      weights_sum_ok config1 = false)).
Proof. vm_compute. by split_and!. Qed.

Section Files.
Context {R : Runtime} {L : RuntimeLaws R}.


End Files.

(** The reference runtime keeps the laws. *)
Lemma reference_laws : RuntimeLaws reference_runtime.
Proof.
  split.
  - intros d _. by exists (Some d).
  - intros d _. by exists (Some d).
Qed.



(** C6, on the code.  A YAML file that gives [face_size_weight: 0.6] and no
    [quality_weight] is loaded without an error although the weights then
    sum to 1.3; and a file that gives the number 123 for
    [storage.cache_directory] makes [from_file] raise a [TypeError], not a
    [ValidationError]. *)
Theorem from_file_misses_invalid_documents :
  let R := reference_runtime in
  returns
    (from_file
       {[ "config.yaml" :=
            Some (VDict {[ "frame_selection" :=
                             VDict {[ "face_size_weight" := VFloat 0.6 ]} ]}) ]}
       "config.yaml")
    (λ config,
       attr config ["frame_selection"; "face_size_weight"] = Some (VFloat 0.6) ∧
       attr config ["frame_selection"; "quality_weight"] = Some (VFloat 0.7) ∧
       PrimFloat.ltb 1.0 (0.7 + 0.6) = true ∧
       weights_sum_ok config = false) ∧
  from_file
    {[ "config.yaml" :=
         Some (VDict {[ "storage" :=
                          VDict {[ "cache_directory" := VInt 123 ]} ]}) ]}
    "config.yaml"
  = Raise (TypeError "expected str, bytes or os.PathLike object").
Proof. vm_compute. by split_and!. Qed.

(** C3, on the code.  [Config.from_env] never looks at the environment: with
    [PERSONFROMVID_MODELS__BATCH_SIZE=4] set, [models.batch_size] is the
    default 1, as with an empty environment. *)
Theorem from_env_ignores_environment :
  let R := reference_runtime in
  let environ := {[ "PERSONFROMVID_MODELS__BATCH_SIZE" := "4" ]} in
  from_env environ = from_env ∅ ∧
  returns (from_env environ) (λ config,
    attr config ["models"; "batch_size"] = Some (VInt 1) ∧
    attr config ["models"; "batch_size"] ≠ Some (VInt 4)).
Proof.
  intros R environ. unfold from_env. split; [reflexivity |].
  vm_compute. by split.
Qed.

End ConfigSpec.

(* ===================================================================== *)
(** * naming_convention.py: further properties of the code *)
(* ===================================================================== *)

Module NamingProps.
Import Py Naming PyFacts NamingFacts NamingSpec.
Local Open Scope string_scope.

(** ** Strings *)

Lemma app_inv_head (p s t : string) : p ++ s = p ++ t → s = t.
Proof.
  induction p as [|c p IH]; [by rewrite !app_nil_l |].
  rewrite !app_cons. intros [= E]. by apply IH.
Qed.

Lemma app_nil_r (s : string) : s ++ EmptyString = s.
Proof. induction s as [|c s IH]; [done |]. by rewrite app_cons, IH. Qed.

Lemma contains_char_cons (c d : ascii) (s : string) :
  contains_char c (String d s) = Ascii.eqb d c || contains_char c s.
Proof. reflexivity. Qed.

Lemma contains_char_app (c : ascii) (s t : string) :
  contains_char c (s ++ t) = contains_char c s || contains_char c t.
Proof.
  induction s as [|d s IH]; [by rewrite app_nil_l |].
  rewrite app_cons. simpl. rewrite IH. by destruct (Ascii.eqb d c).
Qed.

Lemma any_char_in_app (chars s t : string) :
  any_char_in chars (s ++ t) = any_char_in chars s || any_char_in chars t.
Proof.
  induction chars as [|c chars IH]; [done |].
  simpl. rewrite IH, contains_char_app.
  by destruct (contains_char c s), (contains_char c t), (any_char_in chars s).
Qed.

Lemma any_char_in_contains (chars s : string) (c : ascii) :
  any_char_in chars s = false → contains_char c chars = true →
  contains_char c s = false.
Proof.
  induction chars as [|d chars IH]; [done |]. simpl.
  intros [H1 H2]%orb_false_iff [E | H]%orb_true_iff; [| by apply IH].
  apply Ascii.eqb_eq in E. by subst.
Qed.

Lemma startswith_slash (s : string) :
  contains_char "/" s = false → startswith s "/" = false.
Proof.
  intros H. apply not_true_is_false. unfold startswith.
  intros (t & ->)%prefix_iff. rewrite app_cons in H. simpl in H.
  discriminate H.
Qed.

(** ** Formatted sequence numbers hold digits and at most a sign *)

Lemma contains_char_uint (c : ascii) (d : Decimal.uint) :
  contains_char c (NilEmpty.string_of_uint d) = true →
  contains_char c "0123456789" = true.
Proof.
  induction d as [|d IH|d IH|d IH|d IH|d IH|d IH|d IH|d IH|d IH|d IH];
    [done | ..];
    cbn [NilEmpty.string_of_uint contains_char];
    (intros [E | H]%orb_true_iff; [| by apply IH]);
    apply Ascii.eqb_eq in E; by subst.
Qed.

Lemma contains_char_zeros (c : ascii) (k : nat) :
  contains_char c (zeros k) = true → c = "0"%char.
Proof.
  induction k as [|k IH]; [done |]. cbn [zeros contains_char].
  intros [E | H]%orb_true_iff; [| by apply IH]. by apply Ascii.eqb_eq in E.
Qed.

Lemma contains_char_format_03d (c : ascii) (n : Z) :
  contains_char c (format_03d n) = true →
  contains_char c "-0123456789" = true.
Proof.
  assert (∀ w m, contains_char c (zfill w (decimal m)) = true →
                 contains_char c "0123456789" = true) as Hz.
  { intros w m. unfold zfill. rewrite contains_char_app.
    intros [H | H]%orb_true_iff; [| by apply contains_char_uint in H].
    apply contains_char_zeros in H. by subst. }
  change (contains_char c "-0123456789")
    with (Ascii.eqb "-" c || contains_char c "0123456789").
  unfold format_03d. destruct (Z.ltb n 0).
  - rewrite app_cons, app_nil_l, contains_char_cons.
    intros [-> | H]%orb_true_iff; [done |].
    rewrite (Hz _ _ H). apply orb_true_r.
  - intros H. rewrite (Hz _ _ H). apply orb_true_r.
Qed.

Lemma format_03d_valid_chars (n : Z) :
  any_char_in invalid_chars (format_03d n) = false.
Proof.
  apply not_true_is_false. intros (c & Hc & Hn)%any_char_in_iff.
  apply contains_char_In, contains_char_format_03d in Hn.
  simpl in Hc.
  repeat (destruct Hc as [<- | Hc]; [by vm_compute in Hn |]). done.
Qed.

(** ** Stem and suffix of a name make up the name *)

Lemma rsplit_dot_spec (s b a : string) :
  rsplit_dot s = Some (b, a) → s = b ++ "." ++ a.
Proof.
  revert b a. induction s as [|c s IH]; intros b a; [done |]. simpl.
  destruct (rsplit_dot s) as [[b' a']|] eqn:E.
  - intros [= <- <-]. rewrite app_cons. f_equal. by apply IH.
  - destruct (Ascii.eqb c ".") eqn:Ec; [| done].
    intros [= <- <-]. apply Ascii.eqb_eq in Ec. by subst.
Qed.

Lemma name_split_app (s : string) :
  fst (name_split s) ++ snd (name_split s) = s.
Proof.
  unfold name_split. destruct (rsplit_dot s) as [[b a]|] eqn:E.
  - destruct (_ && _); simpl; [| apply app_nil_r].
    by rewrite (rsplit_dot_spec _ _ _ E).
  - apply app_nil_r.
Qed.

Lemma stem_suffix_app (body ext : string) :
  truthy body = true →
  contains_char "/" (body ++ "." ++ ext) = false →
  path_stem (body ++ "." ++ ext) ++ path_suffix (body ++ "." ++ ext)
  = body ++ "." ++ ext.
Proof.
  intros Hb Hs. unfold path_stem, path_suffix.
  rewrite path_name_plain by done. apply name_split_app.
Qed.

(** ** A name with a plain extension *)

Lemma rsplit_dot_none (s : string) :
  contains_char "." s = false → rsplit_dot s = None.
Proof.
  induction s as [|c s IH]; [done |]. cbn [contains_char rsplit_dot].
  intros [Hc Hs]%orb_false_iff. by rewrite (IH Hs), Hc.
Qed.

Lemma rsplit_dot_last (body ext : string) :
  contains_char "." ext = false →
  rsplit_dot (body ++ "." ++ ext) = Some (body, ext).
Proof.
  intros He. induction body as [|c body IH].
  - rewrite app_nil_l, app_cons, app_nil_l. cbn [rsplit_dot].
    by rewrite (rsplit_dot_none _ He).
  - rewrite app_cons. cbn [rsplit_dot]. by rewrite IH.
Qed.

Lemma stem_suffix_plain (body ext : string) :
  body ≠ EmptyString → ext ≠ EmptyString →
  contains_char "." ext = false →
  contains_char "/" (body ++ "." ++ ext) = false →
  path_stem (body ++ "." ++ ext) = body ∧
  path_suffix (body ++ "." ++ ext) = String "." ext.
Proof.
  intros Hb He Hdot Hslash. unfold path_stem, path_suffix.
  rewrite path_name_plain by (by apply truthy_iff || done).
  unfold name_split. rewrite (rsplit_dot_last _ _ Hdot).
  destruct body; [done |]. destruct ext; [done |]. done.
Qed.

(** The first-choice name of a call ends with a dot and the extension
    that the call gives. *)
Lemma candidate_extension (nc : NamingConvention) (c : Call) :
  ∃ body,
    candidate nc c
    = body ++ "." ++ match c with
                     | FullFrame _ _ _ extension
                     | FaceCrop _ _ _ extension => extension
                     end ∧
    body ≠ EmptyString.
Proof.
  destruct c as [frame category rank ext | frame head_angle rank ext];
    cbn [candidate]; unfold full_frame_candidate, face_crop_candidate;
    eexists; (split; [reflexivity |]); apply truthy_iff.
  - pose proof (format_03d_truthy rank) as Hr. cbn [List.filter].
    destruct (truthy (video_base_name nc)) eqn:E0;
      [by apply join_cons_truthy |].
    destruct (truthy category) eqn:E1; [by apply join_cons_truthy |].
    destruct (truthy (_get_head_direction frame)) eqn:E2;
      [by apply join_cons_truthy |].
    destruct (truthy (_get_shot_type frame)) eqn:E3;
      [by apply join_cons_truthy |].
    rewrite Hr. by apply join_cons_truthy.
  - cbn [join]. by destruct (video_base_name nc).
Qed.

(** ** Components of a name without a separator *)

Lemma path_parts_plain (s : string) :
  contains_char "/" s = false → s ≠ EmptyString → s ≠ "." →
  path_parts s = [s].
Proof.
  intros Hs Hne Hdot. unfold path_parts. rewrite (split_on_absent _ _ Hs).
  cbn [List.filter]. apply truthy_iff in Hne. rewrite Hne.
  apply String.eqb_neq in Hdot. by rewrite Hdot.
Qed.

(** ** What a call leaves as it was *)

Lemma candidate_base (nc nc' : NamingConvention) (c : Call) :
  video_base_name nc' = video_base_name nc → candidate nc' c = candidate nc c.
Proof.
  intros E. destruct c; simpl;
    unfold full_frame_candidate, face_crop_candidate; by rewrite E.
Qed.

Lemma issue_keeps (nc nc' : NamingConvention) (c : Call) (name : string) :
  issue nc c = Some (name, nc') →
  video_base_name nc' = video_base_name nc ∧
  output_directory nc' = output_directory nc.
Proof.
  rewrite issue_ensure. by intros (_ & _ & H1 & H2 & _)%ensure_unique_spec.
Qed.

Lemma run_keeps (nc nc' : NamingConvention) (calls : list Call)
    (names : list string) :
  run nc calls = Some (names, nc') →
  video_base_name nc' = video_base_name nc ∧
  output_directory nc' = output_directory nc.
Proof.
  revert nc names. induction calls as [|c calls IH]; intros nc names H.
  - simpl in H. by injection H as <- <-.
  - apply run_cons_inv in H as (name & nc1 & rest & Hi & Hr & ->).
    apply issue_keeps in Hi as [E1 E2]. apply IH in Hr as [E3 E4].
    split; congruence.
Qed.

Lemma run_length (nc nc' : NamingConvention) (calls : list Call)
    (names : list string) :
  run nc calls = Some (names, nc') → length names = length calls.
Proof.
  revert nc names. induction calls as [|c calls IH]; intros nc names H.
  - simpl in H. by injection H as <- <-.
  - apply run_cons_inv in H as (name & nc1 & rest & Hi & Hr & ->).
    simpl. f_equal. by eapply IH.
Qed.

Lemma issue_first_choice (nc : NamingConvention) (c : Call) :
  candidate nc c ∉ _used_filenames nc →
  issue nc c =
  Some (candidate nc c,
        {| video_base_name := video_base_name nc;
           output_directory := output_directory nc;
           _used_filenames := {[candidate nc c]} ∪ _used_filenames nc;
           _sequence_counters := _sequence_counters nc |}).
Proof.
  intros H. rewrite issue_ensure.
  unfold _ensure_unique_filename, _ensure_unique_filename_fuel.
  by destruct (decide (candidate nc c ∈ _used_filenames nc)).
Qed.

(** ** The numbers the loop passes over *)

Lemma unique_loop_skipped (fuel : nat) (used : gset string)
    (stem ext : string) (k : Z) (name : string) (k' : Z) :
  unique_loop fuel used stem ext k = Some (name, k') →
  ∀ j, k <= j < k' → suffixed stem ext j ∈ used.
Proof.
  revert k. induction fuel as [|fuel IH]; intros k; [done |].
  rewrite unique_loop_unfold.
  destruct (decide (suffixed stem ext k ∈ used)) as [Hin|Hout].
  - intros H j Hj. destruct (decide (j = k)) as [-> | Hne]; [done |].
    apply (IH _ H). lia.
  - intros [= _ <-] j Hj. lia.
Qed.

(** ** The shape of a returned name *)

Lemma issued_name_shape (nc nc' : NamingConvention) (c : Call) (name : string) :
  issue nc c = Some (name, nc') → name ≠ EmptyString ∧ name ≠ ".".
Proof.
  rewrite issue_ensure. intros (_ & _ & _ & _ & H)%ensure_unique_spec.
  destruct (candidate_shape nc c) as (body & ext & E & Hbody & _).
  destruct H as [(_ & -> & _) | (_ & k & _ & -> & _)].
  - rewrite E. destruct body as [|b body]; [done |]. rewrite app_cons.
    split; [done |]. intros [= _ H]. apply (f_equal String.length) in H.
    rewrite length_app in H. simpl in H. lia.
  - unfold suffixed. destruct (path_stem (candidate nc c)) as [|b stem].
    + rewrite app_nil_l, app_cons. split; discriminate.
    + rewrite app_cons. split; [done |]. intros [= _ H].
      apply (f_equal String.length) in H.
      rewrite length_app, app_cons in H. simpl in H. lia.
Qed.

Lemma run_names_shape (nc nc' : NamingConvention) (calls : list Call)
    (names : list string) :
  run nc calls = Some (names, nc') →
  ∀ n, n ∈ names → n ≠ EmptyString ∧ n ≠ ".".
Proof.
  revert nc names. induction calls as [|c calls IH]; intros nc names H n Hn.
  - simpl in H. injection H as <- <-. by apply elem_of_nil in Hn.
  - apply run_cons_inv in H as (name & nc1 & rest & Hi & Hr & ->).
    apply elem_of_cons in Hn as [-> | Hn].
    + by eapply issued_name_shape.
    + by eapply IH.
Qed.

(** ** The labels *)

Lemma lower_char_not_space (c : ascii) :
  Ascii.eqb (lower_char (if Ascii.eqb c " " then "-"%char else c)) " " = false.
Proof. by destruct c as [[] [] [] [] [] [] [] []]. Qed.

Lemma lower_char_idem (c : ascii) : lower_char (lower_char c) = lower_char c.
Proof. by destruct c as [[] [] [] [] [] [] [] []]. Qed.

Lemma label_no_space (s : string) :
  contains_char " " (lower (replace_char " " "-" s)) = false.
Proof.
  induction s as [|c s IH]; [done |].
  unfold lower, replace_char in *. simpl. by rewrite lower_char_not_space, IH.
Qed.

Lemma lower_idem (s : string) : lower (lower s) = lower s.
Proof.
  unfold lower. rewrite str_map_map. apply str_map_ext, lower_char_idem.
Qed.

Lemma label_truthy (s : string) :
  truthy (lower (replace_char " " "-" s)) = truthy s.
Proof. by destruct s. Qed.

(** ** First-choice names of calls that differ in rank *)

Lemma join_snoc (sep x : string) (l : list string) :
  ∃ p, ∀ y, join sep (l ++ [y]) = p ++ y.
Proof.
  induction l as [|a l (p & IH)].
  - exists EmptyString. intros y. by rewrite app_nil_l.
  - destruct l as [|b l].
    + exists (a ++ sep). intros y. simpl. by rewrite app_assoc.
    + exists (a ++ sep ++ p). intros y.
      change (join sep ((a :: b :: l) ++ [y]))
        with (a ++ sep ++ join sep ((b :: l) ++ [y])).
      by rewrite IH, !app_assoc.
Qed.

(** ** Output paths *)

Lemma output_path_plain (nc : NamingConvention) (filename : string) :
  contains_char "/" filename = false →
  filename ≠ EmptyString → filename ≠ "." →
  PurePath_name (get_full_output_path nc filename) = filename ∧
  PurePath_parent (get_full_output_path nc filename)
    = Path (output_directory nc).
Proof.
  intros Hs Hne Hdot. unfold get_full_output_path, truediv.
  rewrite (startswith_slash _ Hs), (path_parts_plain _ Hs Hne Hdot).
  unfold PurePath_name, PurePath_parent. simpl.
  by rewrite List.last_last, List.removelast_last.
Qed.

(* --------------------------------------------------------------------- *)
(** ** Properties *)
(* --------------------------------------------------------------------- *)

(** X1.  [reset_counters] makes an instance replay: the calls made since a reset
    return, after another reset, the names they returned and leave the
    instance in the state they left it in; and the first call after a reset
    returns its first-choice name, whatever was issued before. *)
Theorem reset_counters_replays :
  ∀ (nc : NamingConvention) (calls : list Call),
    ∃ names nc',
      run (reset_counters nc) calls = Some (names, nc') ∧
      run (reset_counters nc') calls = Some (names, nc') ∧
      ∀ c, fst <$> issue (reset_counters nc') c = Some (candidate nc c).
Proof.
  intros nc calls.
  destruct (run_total (reset_counters nc) calls) as [[names nc'] H].
  exists names, nc'. split; [done |].
  destruct (run_keeps _ _ _ _ H) as [E1 E2]. simpl in E1, E2.
  assert (reset_counters nc' = reset_counters nc) as ->
    by (unfold reset_counters; by rewrite E1, E2).
  split; [done |]. intros c.
  rewrite issue_first_choice by apply not_elem_of_empty. simpl.
  f_equal; by apply candidate_base.
Qed.

(** X2.  A sequence of calls records the names it returns and nothing else:
    afterwards [_used_filenames] is the set before together with the
    returned names, one more name per call, and the base name and the
    output directory are as before. *)
Theorem calls_record_the_returned_names :
  ∀ (nc : NamingConvention) (calls : list Call),
    ∃ names nc',
      run nc calls = Some (names, nc') ∧
      length names = length calls ∧
      _used_filenames nc' = list_to_set names ∪ _used_filenames nc ∧
      size (_used_filenames nc') =
        (size (_used_filenames nc) + length calls)%nat ∧
      video_base_name nc' = video_base_name nc ∧
      output_directory nc' = output_directory nc.
Proof.
  intros nc calls. destruct (run_total nc calls) as [[names nc'] H].
  exists names, nc'. split; [done |].
  pose proof (run_length _ _ _ _ H) as Hlen.
  destruct (run_fresh _ _ _ _ H) as (Hnd & Hnew & Hused).
  destruct (run_keeps _ _ _ _ H) as [E1 E2].
  split_and!; try done.
  rewrite Hused, size_union, size_list_to_set, Hlen by (done || set_solver).
  lia.
Qed.



(** X4.  A name changed for a collision keeps its extension.  When the
    extension of a call is not empty and holds no dot, and the first-choice
    name holds no separator and is taken, the name returned is the
    first-choice name with an underscore and the sequence number put in
    before the dot of the extension; the counter is that of the
    first-choice name without its extension. *)
Theorem collision_keeps_extension :
  ∀ (nc nc' : NamingConvention) (c : Call) (name : string),
    let extension := match c with
                     | FullFrame _ _ _ extension
                     | FaceCrop _ _ _ extension => extension
                     end in
    extension ≠ EmptyString →
    contains_char "." extension = false →
    contains_char "/" (candidate nc c) = false →
    candidate nc c ∈ _used_filenames nc →
    issue nc c = Some (name, nc') →
    ∃ body k,
      candidate nc c = body ++ "." ++ extension ∧
      name = body ++ "_" ++ format_03d k ++ "." ++ extension ∧
      counter nc body < k ∧ counter nc' body = k.
Proof.
  intros nc nc' c name extension He Hdot Hslash Hin.
  destruct (candidate_extension nc c) as (body & E & Hb).
  fold extension in E. rewrite issue_ensure.
  intros (_ & _ & _ & _ & H)%ensure_unique_spec.
  destruct H as [(Hout & _) | (_ & k & Hk & -> & Hcnt)]; [done |].
  rewrite E in Hslash, Hk, Hcnt |- *.
  destruct (stem_suffix_plain body extension Hb He Hdot Hslash) as [Es Ex].
  rewrite Es in Hk, Hcnt |- *. rewrite Ex.
  exists body, k. split_and!; [done | | done |].
  - unfold suffixed. by rewrite (app_cons "." EmptyString), app_nil_l.
  - unfold counter. by rewrite Hcnt, lookup_insert_eq.
Qed.

(** The second request for one face crop. *)
Lemma collision_keeps_extension_witness :
  let call := FaceCrop {| head_poses := []; closeup_detections := [] |}
                       "front" 1 "png" in
  let s0 := {| video_base_name := "clip01"; output_directory := "out";
               _used_filenames := {[ "clip01_face_front_001.png" ]};
               _sequence_counters := ∅ |} in
  let s1 := {| video_base_name := "clip01"; output_directory := "out";
               _used_filenames := {[ "clip01_face_front_001_001.png";
                                     "clip01_face_front_001.png" ]};
               _sequence_counters := {[ "clip01_face_front_001" := 1 ]} |} in
  issue s0 call = Some ("clip01_face_front_001_001.png", s1) ∧
  ∃ body k,
    candidate s0 call = body ++ "." ++ "png" ∧
    "clip01_face_front_001_001.png" = body ++ "_" ++ format_03d k ++ "." ++ "png".
Proof.
  intros call s0 s1.
  assert (issue s0 call = Some ("clip01_face_front_001_001.png", s1)) as E
    by (vm_compute; reflexivity).
  split; [exact E |].
  destruct (collision_keeps_extension s0 s1 call "clip01_face_front_001_001.png")
    as (body & k & H1 & H2 & _);
    [ discriminate | reflexivity | vm_compute; reflexivity
    | apply (bool_decide_unpack _); vm_compute; reflexivity | exact E |].
  exists body, k. split; [exact H1 | exact H2].
Defined.

(** X5.  Suffixes come from collisions only: calls whose first-choice names
    differ from one another and from the names already issued are given
    their first-choice names, and no counter changes. *)
Theorem distinct_candidates_get_first_choice :
  ∀ (nc : NamingConvention) (calls : list Call),
    NoDup (candidate nc <$> calls) →
    (∀ c, c ∈ calls → candidate nc c ∉ _used_filenames nc) →
    ∃ nc', run nc calls = Some (candidate nc <$> calls, nc') ∧
           _sequence_counters nc' = _sequence_counters nc.
Proof.
  intros nc calls. revert nc.
  induction calls as [|c calls IH]; intros nc Hnd Hfree; [by exists nc |].
  cbn [fmap list_fmap] in Hnd. apply NoDup_cons in Hnd as [Hc Hnd].
  pose proof (issue_first_choice nc c (Hfree c ltac:(by left))) as Hi.
  set (nc1 := {| video_base_name := video_base_name nc;
                 output_directory := output_directory nc;
                 _used_filenames := {[candidate nc c]} ∪ _used_filenames nc;
                 _sequence_counters := _sequence_counters nc |}) in *.
  assert (∀ c', candidate nc1 c' = candidate nc c') as Hcand
    by (intros c'; by apply candidate_base).
  assert (candidate nc1 <$> calls = candidate nc <$> calls) as Hmap
    by (apply list_fmap_ext; intros; apply Hcand).
  destruct (IH nc1) as (nc' & Hr & Hcnt).
  - by rewrite Hmap.
  - intros c' Hc'. rewrite Hcand. simpl.
    apply not_elem_of_union. split; [| apply Hfree; by right].
    apply not_elem_of_singleton. intros E. apply Hc. rewrite <- E.
    by apply list_elem_of_fmap_2.
  - exists nc'. split; [| done]. cbn [run]. by rewrite Hi, Hr, Hmap.
Qed.

(** Two face crops of different angles on a new instance. *)
Lemma distinct_candidates_get_first_choice_witness :
  let frame := {| head_poses := []; closeup_detections := [] |} in
  let calls := [FaceCrop frame "front" 1 "png"; FaceCrop frame "left" 1 "png"] in
  ∃ nc', run (init "clip01" "out") calls
         = Some (["clip01_face_front_001.png"; "clip01_face_left_001.png"], nc') ∧
         _sequence_counters nc' = ∅.
Proof.
  intros frame calls.
  destruct (distinct_candidates_get_first_choice (init "clip01" "out") calls)
    as (nc' & H1 & H2).
  - apply (bool_decide_unpack _). vm_compute. reflexivity.
  - intros c _. apply not_elem_of_empty.
  - exists nc'. split; [exact H1 | exact H2].
Defined.

(** X6.  Requests that differ in the rank alone have different first-choice
    names, for face crops and for full frames. *)
Theorem ranks_give_distinct_candidates :
  ∀ (nc : NamingConvention) (frame : FrameData) (label extension : string)
    (rank1 rank2 : Z),
    rank1 ≠ rank2 →
    face_crop_candidate nc frame label rank1 extension ≠
    face_crop_candidate nc frame label rank2 extension ∧
    full_frame_candidate nc frame label rank1 extension ≠
    full_frame_candidate nc frame label rank2 extension.
Proof.
  intros nc frame label ext r1 r2 Hne.
  assert (∀ l : list string,
            join "_" (l ++ [format_03d r1]) ++ "." ++ ext =
            join "_" (l ++ [format_03d r2]) ++ "." ++ ext → False) as Hjoin.
  { intros l E. apply app_inv_tail in E.
    destruct (join_snoc "_" EmptyString l) as (p & Hp).
    rewrite !Hp in E. by apply app_inv_head, format_03d_inj in E. }
  split.
  - unfold face_crop_candidate.
    exact (Hjoin [video_base_name nc; "face"; label]).
  - unfold full_frame_candidate. intros E.
    apply (Hjoin (List.filter truthy
                    [video_base_name nc; label; _get_head_direction frame;
                     _get_shot_type frame])).
    revert E.
    change [video_base_name nc; label; _get_head_direction frame;
            _get_shot_type frame; format_03d ?r]
      with ([video_base_name nc; label; _get_head_direction frame;
             _get_shot_type frame] ++ [format_03d r])%list.
    assert (∀ r, List.filter truthy [format_03d r] = [format_03d r]) as Hf
      by (intros r; cbn [List.filter]; by rewrite format_03d_truthy).
    by rewrite !List.filter_app, !Hf.
Qed.

(** Ranks 1 and 2 of one face crop. *)
Lemma ranks_give_distinct_candidates_witness :
  let nc := init "clip01" "out" in
  let frame := {| head_poses := []; closeup_detections := [] |} in
  face_crop_candidate nc frame "front" 1 "png" ≠
  face_crop_candidate nc frame "front" 2 "png".
Proof.
  intros nc frame.
  refine (proj1 (ranks_give_distinct_candidates nc frame "front" "png" 1 2 _)).
  lia.
Defined.

(** X7.  The labels put into a name hold no space and no upper-case letter, and
    the shot type is empty exactly when every closeup detection has an
    empty shot type. *)
Theorem labels_are_normalised :
  ∀ frame : FrameData,
    contains_char " " (_get_head_direction frame) = false ∧
    lower (_get_head_direction frame) = _get_head_direction frame ∧
    contains_char " " (_get_shot_type frame) = false ∧
    lower (_get_shot_type frame) = _get_shot_type frame ∧
    (_get_shot_type frame = EmptyString ↔
       Forall (λ closeup, shot_type closeup = EmptyString)
              (closeup_detections frame)).
Proof.
  intros frame.
  assert (contains_char " " (_get_head_direction frame) = false ∧
          lower (_get_head_direction frame) = _get_head_direction frame)
    as [H1 H2].
  { unfold _get_head_direction. destruct (head_poses frame); [done |].
    destruct (get_best_head_pose frame) as [best|]; [| done].
    destruct (truthy (direction best)); [| done].
    split; [apply label_no_space | apply lower_idem]. }
  split_and!; try done; unfold _get_shot_type;
    induction (closeup_detections frame) as [|closeup l IH]; simpl; try done.
  - destruct (truthy (shot_type closeup)); [apply label_no_space | done].
  - destruct (truthy (shot_type closeup)); [apply lower_idem | done].
  - destruct (truthy (shot_type closeup)) eqn:E.
    + split.
      * intros H. apply (f_equal truthy) in H.
        rewrite label_truthy, E in H. discriminate H.
      * intros [H _]%Forall_cons. rewrite H in E. discriminate E.
    + rewrite IH, Forall_cons. destruct (shot_type closeup); [| done].
      by intuition.
Qed.

(** X8.  Where a file goes.  A filename that holds no separator and is neither
    empty nor a single dot is the last component of its output path, whose
    parent is the output directory; a filename that begins with a separator
    gives a path outside of it, its own; the empty filename gives the
    output directory itself. *)
Theorem full_output_path_of_filename :
  ∀ (nc : NamingConvention) (filename : string),
    (contains_char "/" filename = false →
     filename ≠ EmptyString → filename ≠ "." →
     PurePath_name (get_full_output_path nc filename) = filename ∧
     PurePath_parent (get_full_output_path nc filename)
       = Path (output_directory nc)) ∧
    (startswith filename "/" = true →
     get_full_output_path nc filename = Path filename) ∧
    get_full_output_path nc EmptyString = Path (output_directory nc).
Proof.
  intros nc filename. split_and!; [apply output_path_plain | |];
    unfold get_full_output_path, truediv.
  - by intros ->.
  - unfold Path. simpl. by rewrite List.app_nil_r.
Qed.

(** A name of the usual form in the directory [out/run1]. *)
Lemma full_output_path_of_filename_witness :
  let nc := init "clip01" "out/run1" in
  PurePath_name (get_full_output_path nc "clip01_face_front_001.png")
    = "clip01_face_front_001.png" ∧
  PurePath_parent (get_full_output_path nc "clip01_face_front_001.png")
    = {| _root := EmptyString; _tail := ["out"; "run1"] |} ∧
  get_full_output_path nc "/etc/passwd"
    = {| _root := "/"; _tail := ["etc"; "passwd"] |}.
Proof.
  intros nc.
  destruct (full_output_path_of_filename nc "clip01_face_front_001.png")
    as (H1 & _ & _).
  destruct H1 as [H1 H2]; [reflexivity | discriminate | discriminate |].
  destruct (full_output_path_of_filename nc "/etc/passwd") as (_ & H3 & _).
  split; [exact H1 |]. split; [exact H2 |]. apply H3. reflexivity.
Defined.

(** X9.  A filename that [validate_filename] accepts stays in the output
    directory: unless the base name is empty or made of one or two dots,
    the filename is not the name of the parent directory, it is the last
    component of its output path, and the parent of that path is the
    output directory. *)
Theorem validated_filename_stays_in_output_directory :
  ∀ (nc : NamingConvention) (filename : string),
    video_base_name nc ≠ EmptyString →
    video_base_name nc ≠ "." → video_base_name nc ≠ ".." →
    fst (validate_filename nc filename) = true →
    filename ≠ ".." ∧
    PurePath_name (get_full_output_path nc filename) = filename ∧
    PurePath_parent (get_full_output_path nc filename)
      = Path (output_directory nc).
Proof.
  intros nc filename Hb1 Hb2 Hb3. unfold validate_filename.
  destruct (truthy filename) eqn:Et; [| done]. cbn [negb].
  destruct (any_char_in invalid_chars filename) eqn:Ec; [done |].
  destruct (Nat.ltb 255 (String.length filename)); [done |].
  destruct (startswith filename (video_base_name nc)) eqn:Es; [| done].
  intros _. apply prefix_iff in Es as (t & Es). split.
  - intros ->. destruct (video_base_name nc) as [|c [|c' [|c'' b]]];
      [done | | |].
    + rewrite app_cons, app_nil_l in Es. by injection Es as <- _.
    + rewrite !app_cons, app_nil_l in Es. by injection Es as <- <- _.
    + rewrite !app_cons in Es. discriminate Es.
  - apply output_path_plain.
    + by apply (any_char_in_contains invalid_chars).
    + by apply truthy_iff.
    + intros ->. destruct (video_base_name nc) as [|c [|c' b]]; [done | |].
      * rewrite app_cons, app_nil_l in Es. by injection Es as <- _.
      * rewrite !app_cons in Es. discriminate Es.
Qed.

(** A name of the usual form. *)
Lemma validated_filename_stays_in_output_directory_witness :
  let nc := init "clip01" "out/run1" in
  PurePath_name (get_full_output_path nc "clip01_standing_front_001.jpg")
    = "clip01_standing_front_001.jpg" ∧
  PurePath_parent (get_full_output_path nc "clip01_standing_front_001.jpg")
    = Path "out/run1".
Proof.
  intros nc.
  apply (validated_filename_stays_in_output_directory nc);
    [discriminate | discriminate | discriminate | vm_compute; reflexivity].
Defined.

(** X10.  No two files of a sequence of calls go to the same place: when the
    returned names hold no separator, their output paths are pairwise
    different. *)
Theorem issued_output_paths_distinct :
  ∀ (nc nc' : NamingConvention) (calls : list Call) (names : list string),
    run nc calls = Some (names, nc') →
    (∀ n, n ∈ names → contains_char "/" n = false) →
    NoDup (get_full_output_path nc' <$> names).
Proof.
  intros nc nc' calls names H Hs.
  destruct (run_fresh _ _ _ _ H) as (Hnd & _ & _).
  apply NoDup_fmap_2_strong; [| done].
  intros x y Hx Hy E.
  destruct (run_names_shape _ _ _ _ H x Hx) as [Hx1 Hx2].
  destruct (run_names_shape _ _ _ _ H y Hy) as [Hy1 Hy2].
  destruct (output_path_plain nc' x (Hs x Hx) Hx1 Hx2) as [<- _].
  destruct (output_path_plain nc' y (Hs y Hy) Hy1 Hy2) as [<- _].
  by rewrite E.
Qed.

(** The same face crop requested twice. *)
Lemma issued_output_paths_distinct_witness :
  let call := FaceCrop {| head_poses := []; closeup_detections := [] |}
                       "front" 1 "png" in
  let s2 := {| video_base_name := "clip01"; output_directory := "out";
               _used_filenames := {[ "clip01_face_front_001_001.png";
                                     "clip01_face_front_001.png" ]};
               _sequence_counters := {[ "clip01_face_front_001" := 1 ]} |} in
  NoDup (get_full_output_path s2 <$>
           ["clip01_face_front_001.png"; "clip01_face_front_001_001.png"]).
Proof.
  intros call s2.
  apply (issued_output_paths_distinct (init "clip01" "out") s2 [call; call]).
  - vm_compute. reflexivity.
  - intros n Hn. repeat (apply elem_of_cons in Hn as [-> | Hn]; [reflexivity |]).
    by apply elem_of_nil in Hn.
Defined.

(** X11.  Names made of valid characters pass [validate_filename]: when the
    first-choice name of a call holds none of the invalid characters, the
    name the call returns is accepted by the instance, provided it is not
    longer than 255 characters. *)
Theorem issued_name_passes_validation :
  ∀ (nc nc' : NamingConvention) (c : Call) (name : string),
    any_char_in invalid_chars (candidate nc c) = false →
    issue nc c = Some (name, nc') →
    (String.length name <= 255)%nat →
    fst (validate_filename nc' name) = true.
Proof.
  intros nc nc' c name Hvalid Hissue Hlen.
  destruct (issued_name_shape _ _ _ _ Hissue) as [Hne _].
  destruct (issue_keeps _ _ _ _ Hissue) as [Ebase _].
  assert (contains_char "/" (candidate nc c) = false) as Hslash
    by (by apply (any_char_in_contains invalid_chars)).
  revert Hissue. rewrite issue_ensure.
  intros (_ & _ & _ & _ & H)%ensure_unique_spec.
  destruct (candidate_shape nc c) as (body & ext & E & Hbody & Hprefix).
  assert (any_char_in invalid_chars name = false ∧
          String.prefix (video_base_name nc) name = true) as [Hchars Hpre].
  { destruct H as [(_ & -> & _) | (_ & k & _ & -> & _)].
    - split; [done |]. rewrite E. by apply prefix_app_r.
    - rewrite E in *. unfold suffixed. split.
      + pose proof (stem_suffix_app body ext Hbody Hslash) as Happ.
        rewrite <- Happ, any_char_in_app in Hvalid.
        apply orb_false_iff in Hvalid as [Hv1 Hv2].
        rewrite !any_char_in_app, Hv1, Hv2, format_03d_valid_chars.
        reflexivity.
      + apply prefix_app_r. by apply path_stem_prefix. }
  unfold validate_filename, startswith. rewrite Ebase.
  apply truthy_iff in Hne. rewrite Hne, Hchars, Hpre. simpl.
  by destruct (Nat.ltb_spec 255 (String.length name)); [lia |].
Qed.

(** The second request for one face crop. *)
Lemma issued_name_passes_validation_witness :
  let call := FaceCrop {| head_poses := []; closeup_detections := [] |}
                       "front" 1 "png" in
  let s0 := {| video_base_name := "clip01"; output_directory := "out";
               _used_filenames := {[ "clip01_face_front_001.png" ]};
               _sequence_counters := ∅ |} in
  let s1 := {| video_base_name := "clip01"; output_directory := "out";
               _used_filenames := {[ "clip01_face_front_001_001.png";
                                     "clip01_face_front_001.png" ]};
               _sequence_counters := {[ "clip01_face_front_001" := 1 ]} |} in
  issue s0 call = Some ("clip01_face_front_001_001.png", s1) ∧
  fst (validate_filename s1 "clip01_face_front_001_001.png") = true.
Proof.
  intros call s0 s1.
  assert (issue s0 call = Some ("clip01_face_front_001_001.png", s1)) as E
    by (vm_compute; reflexivity).
  split; [exact E |].
  apply (issued_name_passes_validation s0 s1 call _); [| exact E |].
  - vm_compute. reflexivity.
  - vm_compute. lia.
Defined.

End NamingProps.

(* ===================================================================== *)
(** * config.py: further properties of the code *)
(* ===================================================================== *)

Module ConfigProps.
Import Py Pydantic Config PyFacts PydanticFacts ConfigFacts.
Local Open Scope string_scope.

Section Validation.
Context {R : Runtime}.

(** ** Keys and fields *)

Lemma Ok_inj {A : Type} (a b : A) : Ok a = Ok b → a = b.
Proof. by intros [=]. Qed.

Lemma Forall_fields_find (P : string → FieldType → FieldInfo → Prop)
    (fs : Fields) (name : string) (ty : FieldType) (info : FieldInfo) :
  Forall_fields P fs → find_field fs name = Some (ty, info) → P name ty info.
Proof.
  induction fs as [|n t i rest IH]; [done |]. cbn [Forall_fields find_field].
  intros [H Hrest]. destruct (String.eqb n name) eqn:E; [| by apply IH].
  apply String.eqb_eq in E. by intros [= <- <-]; subst.
Qed.

Lemma find_field_names (fs : Fields) (name : string) (ty : FieldType)
    (info : FieldInfo) :
  find_field fs name = Some (ty, info) → name ∈ names fs.
Proof.
  induction fs as [|n t i rest IH]; [done |]. cbn [find_field names].
  destruct (String.eqb n name) eqn:E.
  - apply String.eqb_eq in E. subst. intros _. by left.
  - intros H. right. by apply IH.
Qed.

(** A key that names no field has no part in validation. *)
Lemma validate_fields_insert_unknown (fs : Fields) (loc : list string)
    (kvs data : gmap string PyValue) (errs : list ErrorDetails)
    (k : string) (v : PyValue) :
  k ∉ names fs →
  validate_fields fs loc (<[k := v]> kvs) data errs
  = validate_fields fs loc kvs data errs.
Proof.
  revert data errs. induction fs as [|name ty info rest IH];
    intros data errs Hk; [done |].
  cbn [names] in Hk. apply not_elem_of_cons in Hk as [Hne Hk].
  rewrite !validate_fields_cons, lookup_insert_ne by done.
  destruct (kvs !! name) as [x|]; [| by apply IH].
  destruct (run_field _ _ _ _ _ _); [by apply IH | by apply IH | done].
Qed.

(** Validation leaves alone what is stored under other names. *)
Lemma validate_fields_frame (fs : Fields) (loc : list string)
    (kvs data data' : gmap string PyValue) (errs errs' : list ErrorDetails)
    (name : string) :
  name ∉ names fs →
  validate_fields fs loc kvs data errs = Ok (data', errs') →
  data' !! name = data !! name.
Proof.
  revert data errs. induction fs as [|n ty info rest IH];
    intros data errs Hk; [by intros [= <- <-] |].
  cbn [names] in Hk. apply not_elem_of_cons in Hk as [Hne Hk].
  rewrite validate_fields_cons.
  destruct (kvs !! n) as [x|].
  - destruct (run_field _ _ _ _ _ _); [| by apply IH | done].
    intros H. by rewrite (IH _ _ Hk H), lookup_insert_ne.
  - intros H. by rewrite (IH _ _ Hk H), lookup_insert_ne.
Qed.

(** A field that is not given holds its default. *)
Lemma validate_fields_lookup_default (fs : Fields) (loc : list string)
    (kvs data data' : gmap string PyValue) (errs errs' : list ErrorDetails)
    (name : string) (ty : FieldType) (info : FieldInfo) :
  NoDup (names fs) → find_field fs name = Some (ty, info) →
  kvs !! name = None →
  validate_fields fs loc kvs data errs = Ok (data', errs') →
  data' !! name = Some (default_of ty (fi_default info)).
Proof.
  revert data errs. induction fs as [|n t i rest IH];
    intros data errs Hnd Hfind Hk; [done |].
  cbn [names find_field] in Hnd, Hfind. apply NoDup_cons in Hnd as [Hn Hnd].
  rewrite validate_fields_cons. destruct (String.eqb n name) eqn:E.
  - apply String.eqb_eq in E. subst n. injection Hfind as -> ->.
    rewrite Hk. intros H.
    by rewrite (validate_fields_frame _ _ _ _ _ _ _ _ Hn H), lookup_insert_eq.
  - destruct (kvs !! n) as [x|]; [| by apply IH].
    destruct (run_field _ _ _ _ _ _); [by apply IH | by apply IH | done].
Qed.

(** A field that is given holds what its validation returned. *)
Lemma validate_fields_lookup_given (fs : Fields) (loc : list string)
    (kvs data data' : gmap string PyValue)
    (name : string) (ty : FieldType) (info : FieldInfo) (v : PyValue) :
  NoDup (names fs) → find_field fs name = Some (ty, info) →
  kvs !! name = Some v →
  validate_fields fs loc kvs data [] = Ok (data', []) →
  ∃ data0 x,
    run_field name info (loc ++ [name])
      (validate_value ty (loc ++ [name])) v data0 = FOk x ∧
    data' !! name = Some x.
Proof.
  revert data. induction fs as [|n t i rest IH];
    intros data Hnd Hfind Hk; [done |].
  cbn [names find_field] in Hnd, Hfind. apply NoDup_cons in Hnd as [Hn Hnd].
  intros [(Hnone & H) | (v0 & x & Hsome & Hrun & H)]%validate_fields_ok_cons;
    destruct (String.eqb n name) eqn:E;
    try (apply String.eqb_eq in E; subst n; injection Hfind as -> ->).
  - congruence.
  - by eapply IH.
  - assert (v0 = v) as -> by congruence. exists data, x. split; [done |].
    by rewrite (validate_fields_frame _ _ _ _ _ _ _ _ Hn H), lookup_insert_eq.
  - by eapply IH.
Qed.

(** ** Values in range *)

Lemma native_in_range (ty : FieldType) (v x : PyValue) :
  native ty v = Some x → check_bounds ty x = None → in_range ty x = true.
Proof.
  destruct ty, v; cbn [native]; try done;
    try (intros [= <-] Hb; cbn [in_range]; by rewrite ?Hb).
  - destruct (existsb _ _); [| done]. intros [= <-] _.
    cbn [in_range]. apply String.eqb_refl.
  - destruct (String.eqb cls cls0) eqn:E; [| done]. by intros [= <-] _.
Qed.

Lemma scalar_in_range (ty : FieldType) (loc : list string) (v x : PyValue) :
  validate_scalar ty loc v = FOk x → in_range ty x = true.
Proof.
  intros H.
  destruct (validate_scalar_cases ty loc v)
    as [(y & Hy & Hc & Hb) | (k & Hk)]; [| congruence].
  assert (y = x) as -> by congruence.
  unfold coerce in Hc. destruct (native ty v) as [z|] eqn:E.
  - injection Hc as ->. by eapply native_in_range.
  - destruct (lax ty v) as [w|]; [| done]. by eapply native_in_range.
Qed.

Lemma optional_in_range (t : FieldType) :
  (∀ loc v x, validate_value t loc v = FOk x → in_range t x = true) →
  ∀ loc v x, validate_value (TOptional t) loc v = FOk x →
             in_range (TOptional t) x = true.
Proof.
  intros IH loc v x. cbn [validate_value in_range].
  assert (validate_value t loc v = FOk x →
          match x with VNone => true | _ => in_range t x end = true) as Hx
    by (intros H%IH; by destruct x).
  destruct v; try exact Hx. by intros [= <-].
Qed.

(** Validation of the fields of a class, all of them in range, on plain
    data. *)
Lemma validate_fields_in_range (fs : Fields) (loc : list string)
    (kvs : gmap string PyValue) :
  Forall_fields field_in_range fs → NoDup (names fs) →
  map_Forall (λ _ v, plain v) kvs →
  ∀ data data',
    validate_fields fs loc kvs data [] = Ok (data', []) →
    in_range_fields fs data' = true.
Proof.
  induction fs as [|name ty info rest IH]; [done |].
  cbn [Forall_fields names in_range_fields].
  intros [[Hd Hv] Hrest] [Hn Hnd]%NoDup_cons Hplain data data'.
  intros [(Hk & H) | (v & x & Hk & Hrun & H)]%validate_fields_ok_cons;
    rewrite (validate_fields_frame _ _ _ _ _ _ _ _ Hn H), lookup_insert_eq.
  - rewrite Hd. by eapply IH.
  - rewrite (Hv _ _ _ _ (Hplain _ _ Hk) Hrun). by eapply IH.
Qed.

Lemma model_in_range (cls : string) (fs : Fields) :
  Forall_fields field_in_range fs → NoDup (names fs) →
  ∀ loc v x, plain v → validate_value (TModel cls fs) loc v = FOk x →
             in_range (TModel cls fs) x = true.
Proof.
  intros Hf Hnd loc v x Hp.
  destruct v as [| | | | | |kvs| | |]; cbn [validate_value]; try done.
  - destruct (validate_fields fs loc kvs ∅ []) as [[data [|e es]]|e] eqn:E;
      try done.
    intros [= <-]. cbn [in_range]. rewrite String.eqb_refl.
    inversion Hp. by eapply validate_fields_in_range.
  - inversion Hp.
Qed.

Lemma field_in_range_scalar (name : string) (ty : FieldType) (info : FieldInfo) :
  in_range ty (default_of ty (fi_default info)) = true →
  keeps_value info →
  (∀ loc v x, validate_value ty loc v = FOk x → in_range ty x = true) →
  field_in_range name ty info.
Proof.
  intros Hd Hkeep Hty. split; [done |]. intros loc v data x _.
  unfold run_field.
  destruct (match fi_before info with Some f => f v | None => Ok v end)
    as [v1|[]]; try done.
  destruct (validate_value ty loc v1) as [v2| |] eqn:E; try done.
  apply Hty in E. destruct (fi_after info) as [f|] eqn:Ef.
  - destruct (f name v2 data) as [v3|[]] eqn:E3; try done.
    intros [= <-]. by rewrite (Hkeep f Ef _ _ _ _ E3).
  - by intros [= <-].
Qed.

Lemma field_in_range_model (name : string) (ty : FieldType) (info : FieldInfo) :
  in_range ty (default_of ty (fi_default info)) = true →
  fi_before info = None → fi_after info = None →
  (∀ loc v x, plain v → validate_value ty loc v = FOk x →
              in_range ty x = true) →
  field_in_range name ty info.
Proof.
  intros Hd Hb Ha Hty. split; [done |]. intros loc v data x Hp.
  rewrite run_field_plain by done. by apply Hty.
Qed.

(** ** No keyword arguments *)

Lemma defaults_lookup_None (fs : Fields) (name : string) :
  name ∉ names fs → defaults fs !! name = None.
Proof.
  induction fs as [|n ty info rest IH]; [done |]. cbn [names defaults].
  intros [Hne Hn]%not_elem_of_cons. rewrite lookup_insert_ne by done.
  by apply IH.
Qed.

Lemma defaults_lookup (fs : Fields) (name : string) (ty : FieldType)
    (info : FieldInfo) :
  find_field fs name = Some (ty, info) →
  defaults fs !! name = Some (default_of ty (fi_default info)).
Proof.
  induction fs as [|n t i rest IH]; [done |]. cbn [find_field defaults].
  destruct (String.eqb n name) eqn:E.
  - apply String.eqb_eq in E. subst n. intros [= <- <-].
    apply lookup_insert_eq.
  - apply String.eqb_neq in E. rewrite lookup_insert_ne by done. apply IH.
Qed.

Lemma in_range_fields_insert (fs : Fields) (d : gmap string PyValue)
    (name : string) (v : PyValue) :
  name ∉ names fs →
  in_range_fields fs (<[name := v]> d) = in_range_fields fs d.
Proof.
  induction fs as [|n ty info rest IH]; [done |]. cbn [names in_range_fields].
  intros [Hne Hn]%not_elem_of_cons. by rewrite lookup_insert_ne, IH.
Qed.

Lemma defaults_in_range (fs : Fields) :
  Forall_fields field_in_range fs → NoDup (names fs) →
  in_range_fields fs (defaults fs) = true.
Proof.
  induction fs as [|n ty info rest IH]; [done |].
  cbn [Forall_fields names in_range_fields defaults].
  intros [[Hd _] Hrest] [Hn Hnd]%NoDup_cons.
  by rewrite lookup_insert_eq, Hd, in_range_fields_insert, IH.
Qed.

Lemma validate_fields_empty (fs : Fields) (loc : list string)
    (data : gmap string PyValue) (errs : list ErrorDetails) :
  NoDup (names fs) →
  validate_fields fs loc ∅ data errs = Ok (defaults fs ∪ data, errs).
Proof.
  revert data. induction fs as [|n ty info rest IH]; intros data.
  - intros _. cbn [validate_fields defaults]. by rewrite (left_id_L ∅ (∪)).
  - cbn [names]. intros [Hn Hnd]%NoDup_cons.
    rewrite validate_fields_cons, lookup_empty, IH by done.
    cbn [defaults]. rewrite <- insert_union_l.
    by rewrite insert_union_r by (by apply defaults_lookup_None).
Qed.

Lemma model_new_empty (c : ModelClass) :
  NoDup (names (cls_fields c)) →
  model_new c (VDict ∅) = Ok (default_of (annotation c) DModel).
Proof.
  intros Hnd. rewrite model_new_dict, validate_fields_empty by done.
  cbn [default_of annotation]. by rewrite (right_id_L ∅ (∪)).
Qed.

(** ** Where the error lines point *)

Lemma own_errors_loc (ty : FieldType) (loc : list string) (v : PyValue)
    (errs : list ErrorDetails) :
  own_errors ty = true → validate_value ty loc v = FErr errs →
  Forall (λ e, err_loc e = loc) errs.
Proof.
  assert (∀ t, validate_scalar t loc v = FErr errs →
               Forall (λ e, err_loc e = loc) errs) as Hs.
  { intros t H. destruct (validate_scalar_cases t loc v)
      as [(x & Hx & _) | (k & Hk)]; [congruence |].
    assert (errs = [mkError loc k]) as -> by congruence.
    by repeat constructor. }
  revert v Hs. induction ty as [| | | | | |t IH|]; intros v Hs; try done;
    cbn [own_errors validate_value]; try (intros _; apply Hs).
  intros Ht. destruct v; try done; apply IH; try done;
    intros t' H'; apply Hs; exact H'.
Qed.

(** The error lines of a validation point at values that are given. *)
Lemma error_locations_given :
  (∀ (ty : FieldType), direct ty = true →
     ∀ (loc : list string) (v : PyValue) (errs : list ErrorDetails),
       validate_value ty loc v = FErr errs →
       Forall (λ e, ∃ path, err_loc e = (loc ++ path)%list ∧
                            is_Some (item v path)) errs) ∧
  (∀ (fs : Fields), direct_fields fs = true →
     ∀ (loc : list string) (kvs data data' : gmap string PyValue)
       (errs errs' : list ErrorDetails),
       validate_fields fs loc kvs data errs = Ok (data', errs') →
       Forall (λ e, ∃ path, err_loc e = (loc ++ path)%list ∧
                            is_Some (item (VDict kvs) path)) errs →
       Forall (λ e, ∃ path, err_loc e = (loc ++ path)%list ∧
                            is_Some (item (VDict kvs) path)) errs').
Proof.
  assert (∀ t loc v errs, validate_scalar t loc v = FErr errs →
            Forall (λ e, ∃ path, err_loc e = (loc ++ path)%list ∧
                                 is_Some (item v path)) errs) as Hs.
  { intros t loc v errs H. destruct (validate_scalar_cases t loc v)
      as [(x & Hx & _) | (k & Hk)]; [congruence |].
    assert (errs = [mkError loc k]) as -> by congruence.
    constructor; [| constructor]. exists []. split; [| by eexists].
    by rewrite List.app_nil_r. }
  assert (∀ loc v, Forall (λ e, ∃ path, err_loc e = (loc ++ path)%list ∧
                                        is_Some (item v path))
                     [mkError loc model_type]) as Hm.
  { intros loc v. constructor; [| constructor]. exists [].
    split; [| by eexists]. by rewrite List.app_nil_r. }
  apply FieldType_Fields_mut.
  1-6: intros; by eapply Hs.
  - intros t IH Hd loc v errs. cbn [validate_value direct] in *.
    destruct v; try (by apply IH). done.
  - intros cls fs IH Hd loc v errs. cbn [validate_value direct] in *.
    destruct v as [| | | | | |kvs| |c m|c m];
      try (intros [= <-]; by apply Hm).
    + destruct (validate_fields fs loc kvs ∅ []) as [[data [|e es]]|e] eqn:E;
        try done.
      intros [= <-]. by eapply IH.
    + destruct (String.eqb _ _); [done |]. intros [= <-]. by apply Hm.
  - intros _ loc kvs data data' errs errs'. by intros [= <- <-].
  - intros name ty IHty info rest IHrest Hd loc kvs data data' errs errs'.
    cbn [direct_fields] in Hd.
    apply andb_prop in Hd as [[Hb Hty]%andb_prop Hrest].
    rewrite validate_fields_cons.
    destruct (kvs !! name) as [v|] eqn:Ek; [| by apply IHrest].
    destruct (run_field name info (loc ++ [name])
                (validate_value ty (loc ++ [name])) v data)
      as [x|es|e] eqn:Er; [by apply IHrest | | done].
    intros H Herrs. apply (IHrest Hrest _ _ _ _ _ _ H).
    apply Forall_app. split; [done |].
    assert (Forall (λ e, ∃ path, err_loc e = ((loc ++ [name]) ++ path)%list ∧
                                 is_Some (item v path)) es) as Hes.
    { revert Er. unfold run_field.
      assert (∀ msg, Forall (λ e, ∃ path,
                err_loc e = ((loc ++ [name]) ++ path)%list ∧
                is_Some (item v path))
                [mkError (loc ++ [name]) (value_error msg)]) as Hv.
      { intros msg. constructor; [| constructor]. exists [].
        split; [| by eexists]. by rewrite List.app_nil_r. }
      assert (∀ v2, match fi_after info with
                    | None => FOk v2
                    | Some f =>
                        match f name v2 data with
                        | Ok v3 => FOk v3
                        | Raise (ValueError msg) =>
                            FErr [mkError (loc ++ [name]) (value_error msg)]
                        | Raise e => FRaise e
                        end
                    end = FErr es →
                Forall (λ e, ∃ path,
                  err_loc e = ((loc ++ [name]) ++ path)%list ∧
                  is_Some (item v path)) es) as Ha.
      { intros v2. destruct (fi_after info) as [f|]; [| done].
        destruct (f name v2 data) as [v3|[]]; try done.
        intros [= <-]. apply Hv. }
      destruct (fi_before info) as [f|].
      - destruct (f v) as [v1|[]]; try done; [| intros [= <-]; apply Hv].
        destruct (validate_value ty (loc ++ [name]) v1) as [v2|es'|e'] eqn:Ec;
          [apply Ha | | done].
        intros [= <-].
        eapply Forall_impl; [by eapply own_errors_loc |].
        intros e He. exists []. split; [| by eexists].
        by rewrite List.app_nil_r.
      - destruct (validate_value ty (loc ++ [name]) v) as [v2|es'|e'] eqn:Ec;
          [apply Ha | | done].
        intros [= <-]. by eapply IHty. }
    eapply Forall_impl; [exact Hes |].
    intros e (path & Hloc & Hitem). exists (name :: path). split.
    + by rewrite Hloc, <- List.app_assoc.
    + cbn [item]. by rewrite Ek.
Qed.

End Validation.

Section Classes.
Context {R : Runtime}.

(** ** The classes of config.py *)

Lemma validate_weights_sum_keeps : keeps_value
  (with_after validate_weights_sum (field VNone)).
Proof.
  intros f [= <-] name v data x. unfold validate_weights_sum.
  destruct (String.eqb name "quality_weight"); [| by intros [= <-]].
  destruct v; try done.
  destruct (default _ _); try done.
  destruct (PrimFloat.ltb _ _); [done | by intros [= <-]].
Qed.

Ltac keeps_tac :=
  unfold keeps_value;
  cbn [fi_after field submodel with_before with_after with_serializer];
  first [ by intros ? [=]
        | intros ? [= <-]; exact (validate_weights_sum_keeps _ eq_refl) ].

Create HintDb class_in_range.

Ltac field_in_range_tac :=
  first
    [ apply field_in_range_scalar;
      [ vm_compute; reflexivity
      | keeps_tac
      | first [ intros ? ? ?; apply scalar_in_range
              | apply optional_in_range; intros ? ? ?; apply scalar_in_range ] ]
    | apply field_in_range_model;
      [ vm_compute; reflexivity | reflexivity | reflexivity
      | by eauto with class_in_range ] ].

Ltac fields_in_range_tac :=
  cbn [cls_fields class mk_fields Forall_fields];
  repeat match goal with |- _ ∧ _ => split end;
  try exact I; field_in_range_tac.

Ltac class_in_range_tac :=
  apply model_in_range;
  [ fields_in_range_tac
  | apply (bool_decide_unpack _); vm_compute; reflexivity ].

Lemma ModelConfig_in_range (loc : list string) (v x : PyValue) :
  plain v → validate_value (annotation ModelConfig) loc v = FOk x →
  in_range (annotation ModelConfig) x = true.
Proof. revert loc v x. unfold ModelConfig. class_in_range_tac. Qed.

Lemma FrameExtractionConfig_in_range (loc : list string) (v x : PyValue) :
  plain v → validate_value (annotation FrameExtractionConfig) loc v = FOk x →
  in_range (annotation FrameExtractionConfig) x = true.
Proof. revert loc v x. unfold FrameExtractionConfig. class_in_range_tac. Qed.

Lemma QualityConfig_in_range (loc : list string) (v x : PyValue) :
  plain v → validate_value (annotation QualityConfig) loc v = FOk x →
  in_range (annotation QualityConfig) x = true.
Proof. revert loc v x. unfold QualityConfig. class_in_range_tac. Qed.

Lemma PoseClassificationConfig_in_range (loc : list string) (v x : PyValue) :
  plain v → validate_value (annotation PoseClassificationConfig) loc v = FOk x →
  in_range (annotation PoseClassificationConfig) x = true.
Proof. revert loc v x. unfold PoseClassificationConfig. class_in_range_tac. Qed.

Lemma HeadAngleConfig_in_range (loc : list string) (v x : PyValue) :
  plain v → validate_value (annotation HeadAngleConfig) loc v = FOk x →
  in_range (annotation HeadAngleConfig) x = true.
Proof. revert loc v x. unfold HeadAngleConfig. class_in_range_tac. Qed.

Lemma CloseupDetectionConfig_in_range (loc : list string) (v x : PyValue) :
  plain v → validate_value (annotation CloseupDetectionConfig) loc v = FOk x →
  in_range (annotation CloseupDetectionConfig) x = true.
Proof. revert loc v x. unfold CloseupDetectionConfig. class_in_range_tac. Qed.

Lemma FrameSelectionConfig_in_range (loc : list string) (v x : PyValue) :
  plain v → validate_value (annotation FrameSelectionConfig) loc v = FOk x →
  in_range (annotation FrameSelectionConfig) x = true.
Proof. revert loc v x. unfold FrameSelectionConfig. class_in_range_tac. Qed.

Lemma PngConfig_in_range (loc : list string) (v x : PyValue) :
  plain v → validate_value (annotation PngConfig) loc v = FOk x →
  in_range (annotation PngConfig) x = true.
Proof. revert loc v x. unfold PngConfig. class_in_range_tac. Qed.

Lemma JpegConfig_in_range (loc : list string) (v x : PyValue) :
  plain v → validate_value (annotation JpegConfig) loc v = FOk x →
  in_range (annotation JpegConfig) x = true.
Proof. revert loc v x. unfold JpegConfig. class_in_range_tac. Qed.

Local Hint Resolve PngConfig_in_range JpegConfig_in_range : class_in_range.

Lemma OutputImageConfig_in_range (loc : list string) (v x : PyValue) :
  plain v → validate_value (annotation OutputImageConfig) loc v = FOk x →
  in_range (annotation OutputImageConfig) x = true.
Proof. revert loc v x. unfold OutputImageConfig. class_in_range_tac. Qed.

Local Hint Resolve OutputImageConfig_in_range : class_in_range.

Lemma OutputConfig_in_range (loc : list string) (v x : PyValue) :
  plain v → validate_value (annotation OutputConfig) loc v = FOk x →
  in_range (annotation OutputConfig) x = true.
Proof. revert loc v x. unfold OutputConfig. class_in_range_tac. Qed.

Lemma StorageConfig_in_range (loc : list string) (v x : PyValue) :
  plain v → validate_value (annotation StorageConfig) loc v = FOk x →
  in_range (annotation StorageConfig) x = true.
Proof. revert loc v x. unfold StorageConfig. class_in_range_tac. Qed.

Lemma ProcessingConfig_in_range (loc : list string) (v x : PyValue) :
  plain v → validate_value (annotation ProcessingConfig) loc v = FOk x →
  in_range (annotation ProcessingConfig) x = true.
Proof. revert loc v x. unfold ProcessingConfig. class_in_range_tac. Qed.

Lemma LoggingConfig_in_range (loc : list string) (v x : PyValue) :
  plain v → validate_value (annotation LoggingConfig) loc v = FOk x →
  in_range (annotation LoggingConfig) x = true.
Proof. revert loc v x. unfold LoggingConfig. class_in_range_tac. Qed.

Local Hint Resolve ModelConfig_in_range FrameExtractionConfig_in_range
  QualityConfig_in_range PoseClassificationConfig_in_range
  HeadAngleConfig_in_range CloseupDetectionConfig_in_range
  FrameSelectionConfig_in_range OutputConfig_in_range StorageConfig_in_range
  ProcessingConfig_in_range LoggingConfig_in_range : class_in_range.

Lemma Config_fields_in_range :
  Forall_fields field_in_range (cls_fields Config).
Proof. unfold Config. fields_in_range_tac. Qed.

Lemma Config_names_NoDup : NoDup (names (cls_fields Config)).
Proof. apply (bool_decide_unpack _). vm_compute. reflexivity. Qed.

Lemma Config_in_range (loc : list string) (v x : PyValue) :
  plain v → validate_value (annotation Config) loc v = FOk x →
  in_range (annotation Config) x = true.
Proof.
  apply model_in_range;
    [apply Config_fields_in_range | apply Config_names_NoDup].
Qed.

(** The fields of [Config] are model classes with distinct field names,
    and none has a validator of its own. *)
Lemma Config_group_inv (group : string) (ty : FieldType) (info : FieldInfo) :
  find_field (cls_fields Config) group = Some (ty, info) →
  info = submodel ∧ ∃ cls fs, ty = TModel cls fs ∧ NoDup (names fs).
Proof.
  unfold Config. cbn [cls_fields mk_fields find_field].
  repeat (destruct (String.eqb _ group);
          [ intros [= <- <-]; split; [done |]; eexists _, _;
            split; [reflexivity |];
            apply (bool_decide_unpack _); vm_compute; reflexivity |]).
  done.
Qed.

Lemma validate_fields_nested_unknown (fs : Fields) (loc : list string)
    (kvs data : gmap string PyValue) (errs : list ErrorDetails)
    (group cls : string) (gfs : Fields) (sub : gmap string PyValue)
    (k : string) (v : PyValue) :
  NoDup (names fs) → find_field fs group = Some (TModel cls gfs, submodel) →
  kvs !! group = Some (VDict sub) → k ∉ names gfs →
  validate_fields fs loc (<[group := VDict (<[k := v]> sub)]> kvs) data errs
  = validate_fields fs loc kvs data errs.
Proof.
  revert data errs. induction fs as [|n t i rest IH];
    intros data errs Hnd Hfind Hg Hk; [done |].
  cbn [names find_field] in Hnd, Hfind. apply NoDup_cons in Hnd as [Hn Hnd].
  rewrite !validate_fields_cons. destruct (String.eqb n group) eqn:E.
  - apply String.eqb_eq in E. subst n. injection Hfind as -> ->.
    rewrite lookup_insert_eq, Hg, !run_field_plain by done.
    cbn [validate_value]. rewrite validate_fields_insert_unknown by done.
    destruct (validate_fields gfs _ sub ∅ []) as [[d [|e es]]|e];
      [| | done]; by apply validate_fields_insert_unknown.
  - apply String.eqb_neq in E. rewrite lookup_insert_ne by done.
    destruct (kvs !! n) as [x|]; [| by apply IH].
    destruct (run_field _ _ _ _ _ _); [by apply IH | by apply IH | done].
Qed.

(** The one exception that the validation of a sub-configuration lets
    through is the [TypeError] of a path conversion. *)
Lemma Config_group_raise (group : string) (ty : FieldType) (info : FieldInfo)
    (loc : list string) (v : PyValue) (e : Exn) :
  find_field (cls_fields Config) group = Some (ty, info) →
  validate_value ty loc v = FRaise e →
  e = TypeError "expected str, bytes or os.PathLike object".
Proof.
  unfold Config. cbn [cls_fields mk_fields find_field].
  repeat (destruct (String.eqb _ group);
    [ intros [= <- <-] Hr;
      first
        [ exfalso; revert Hr;
          first
            [ apply FrameSelectionConfig_no_raise
            | apply model_no_raise;
              first [ apply ModelConfig_quiet
                    | apply FrameExtractionConfig_quiet
                    | apply QualityConfig_quiet
                    | apply PoseClassificationConfig_quiet
                    | apply HeadAngleConfig_quiet
                    | apply CloseupDetectionConfig_quiet
                    | apply OutputConfig_quiet
                    | apply ProcessingConfig_quiet ] ]
        | apply model_raise_inv in Hr as (kvs & -> & Hr);
          first [ by apply StorageConfig_raise in Hr as [-> _]
                | by apply LoggingConfig_raise in Hr as [-> _] ] ] |]).
  done.
Qed.

Lemma setattr_Config (cls : string) (d : gmap string PyValue)
    (group : string) (ty : FieldType) (info : FieldInfo) (v : PyValue) :
  find_field (cls_fields Config) group = Some (ty, info) →
  setattr Config (VModel cls d) group v =
  match validate_value ty [group] v with
  | FOk x => Ok (VModel cls (<[group := x]> d))
  | FErr errs => Raise (ValidationError errs)
  | FRaise e => Raise e
  end.
Proof.
  intros Hfind. destruct (Config_group_inv _ _ _ Hfind) as [-> _].
  unfold setattr. rewrite Hfind. change (cls_validate_assignment Config) with true.
  cbn iota. by rewrite run_field_plain.
Qed.

(** [Config()] *)
Lemma Config_default :
  model_new Config (VDict ∅) = Ok (default_of (annotation Config) DModel).
Proof. apply model_new_empty, Config_names_NoDup. Qed.

Lemma Config_default_weights :
  weights_sum_ok (default_of (annotation Config) DModel) = true.
Proof.
  unfold weights_sum_ok. cbn [default_of annotation getattr].
  rewrite (defaults_lookup (cls_fields Config) "frame_selection"
             (annotation FrameSelectionConfig) submodel eq_refl).
  cbn [default_of annotation fi_default submodel getattr].
  rewrite (defaults_lookup (cls_fields FrameSelectionConfig) "quality_weight"
             (TFloat (Some 0.0%float) (Some 1.0%float))
             (with_after validate_weights_sum (field (VFloat 0.7))) eq_refl).
  rewrite (defaults_lookup (cls_fields FrameSelectionConfig) "face_size_weight"
             (TFloat (Some 0.0%float) (Some 1.0%float))
             (with_after validate_weights_sum (field (VFloat 0.3))) eq_refl).
  vm_compute. reflexivity.
Qed.

Lemma constructed_default_in_range :
  in_range (annotation Config) (default_of (annotation Config) DModel) = true.
Proof.
  cbn [in_range default_of annotation]. rewrite String.eqb_refl.
  apply defaults_in_range;
    [apply Config_fields_in_range | apply Config_names_NoDup].
Qed.

(* --------------------------------------------------------------------- *)
(** ** Properties *)
(* --------------------------------------------------------------------- *)

(** X12.  What construction establishes.  A [Config] constructed from plain data
    (what a YAML or JSON document holds) has, in every sub-configuration,
    a value of the declared type within the declared [ge]/[le] range for
    every field, the fields that were not given included: the defaults,
    which are not validated, are within the ranges declared for them. *)
Theorem constructed_config_is_in_range (data : PyValue) (config : PyValue) :
  plain data →
  model_new Config data = Ok config →
  in_range (annotation Config) config = true.
Proof.
  intros Hp. unfold model_new.
  destruct data as [| | | | | |kwargs| | |]; try done.
  destruct (validate_value (annotation Config) [] (VDict kwargs))
    as [x| |] eqn:E; [| done | done].
  intros [= <-]. by eapply Config_in_range.
Qed.

(** X13.  Keys that name no field are ignored, at the top level of the keyword
    arguments and inside the mapping given for a sub-configuration: a
    misspelt key changes nothing and raises nothing. *)
Theorem unknown_keys_are_ignored :
  (∀ (kwargs : gmap string PyValue) (k : string) (v : PyValue),
     k ∉ names (cls_fields Config) →
     model_new Config (VDict (<[k := v]> kwargs))
     = model_new Config (VDict kwargs)) ∧
  (∀ (kwargs sub : gmap string PyValue) (group cls : string) (fs : Fields)
     (info : FieldInfo) (k : string) (v : PyValue),
     find_field (cls_fields Config) group = Some (TModel cls fs, info) →
     kwargs !! group = Some (VDict sub) →
     k ∉ names fs →
     model_new Config (VDict (<[group := VDict (<[k := v]> sub)]> kwargs))
     = model_new Config (VDict kwargs)).
Proof.
  split.
  - intros kwargs k v Hk. rewrite !model_new_dict.
    by rewrite validate_fields_insert_unknown.
  - intros kwargs sub group cls fs info k v Hfind Hg Hk.
    destruct (Config_group_inv _ _ _ Hfind) as [-> _].
    rewrite !model_new_dict.
    by rewrite (validate_fields_nested_unknown _ _ _ _ _ _ cls fs sub)
      by (done || apply Config_names_NoDup).
Qed.

(** X14.  A field that is not given holds its default: a sub-configuration that
    the keyword arguments do not mention is the default instance of its
    class, and a field missing from the mapping given for a
    sub-configuration holds the default declared for it. *)
Theorem omitted_keys_take_defaults (kwargs : gmap string PyValue)
    (config : PyValue) :
  model_new Config (VDict kwargs) = Ok config →
  (∀ (group : string) (ty : FieldType) (info : FieldInfo),
     find_field (cls_fields Config) group = Some (ty, info) →
     kwargs !! group = None →
     getattr config group = Some (default_of ty (fi_default info))) ∧
  (∀ (group cls : string) (fs : Fields) (info : FieldInfo)
     (sub : gmap string PyValue) (name : string) (ty : FieldType)
     (finfo : FieldInfo),
     find_field (cls_fields Config) group = Some (TModel cls fs, info) →
     kwargs !! group = Some (VDict sub) →
     find_field fs name = Some (ty, finfo) →
     sub !! name = None →
     attr config [group; name] = Some (default_of ty (fi_default finfo))).
Proof.
  rewrite model_new_dict.
  destruct (validate_fields (cls_fields Config) [] kwargs ∅ [])
    as [[data [|e es]]|e] eqn:E; [| done | done].
  intros [= <-]. split.
  - intros group ty info Hfind Hk. cbn [getattr].
    by eapply validate_fields_lookup_default; [apply Config_names_NoDup | ..].
  - intros group cls fs info sub name ty finfo Hfind Hg Hf Hn.
    destruct (Config_group_inv _ _ _ Hfind)
      as (-> & cls' & fs' & [= <- <-] & Hnd).
    destruct (validate_fields_lookup_given _ _ _ _ _ _ _ _ _
                Config_names_NoDup Hfind Hg E) as (data0 & x & Hrun & Hx).
    rewrite run_field_plain in Hrun by done. cbn [validate_value] in Hrun.
    destruct (validate_fields fs _ sub ∅ []) as [[d [|e es]]|e] eqn:Es;
      [| done | done].
    injection Hrun as <-. cbn [attr getattr]. rewrite Hx. cbn [attr getattr].
    by rewrite (validate_fields_lookup_default _ _ _ _ _ _ _ _ _ _ Hnd Hf Hn Es).
Qed.

(** X15.  A [ValidationError] blames given values only: it has at least one
    line, and the location of every line is the path of keys of a value
    that the keyword arguments hold.  A field that is not given is never
    reported. *)
Theorem validation_errors_point_at_given_values
    (kwargs : gmap string PyValue) (errs : list ErrorDetails) :
  model_new Config (VDict kwargs) = Raise (ValidationError errs) →
  errs ≠ [] ∧
  Forall (λ e, is_Some (item (VDict kwargs) (err_loc e))) errs.
Proof.
  rewrite model_new_dict.
  destruct (validate_fields (cls_fields Config) [] kwargs ∅ [])
    as [[data [|e es]]|e] eqn:E; [done | |].
  - intros [= <-]. split; [done |].
    eapply Forall_impl;
      [ apply (proj2 error_locations_given (cls_fields Config) eq_refl
                 _ _ _ _ _ _ E); constructor |].
    cbn [app]. by intros e' (path & -> & Hitem).
  - intros [= ->]. by apply Config_fields_raise in E as [[=] _].
Qed.

(** X16.  Assignments to the attributes of a [Config] are validated,
    unlike those to the attributes of its sub-configurations.  Data in
    which a field has the wrong type or is out of range is not stored, and
    when a [ValidationError] is raised for it, it names that field; plain
    data that is stored has been turned into an instance with every field
    in range, the other attributes left as they were.  An instance of the
    class of the attribute is stored as it is, whatever it holds, since
    instances are not validated again; an instance of another class is
    rejected. *)
Theorem config_assignment_is_validated (cls : string)
    (d : gmap string PyValue) (group : string) (ty : FieldType)
    (info : FieldInfo) (v : PyValue) :
  find_field (cls_fields Config) group = Some (ty, info) →
  (∀ path, offends ty v path →
     match setattr Config (VModel cls d) group v with
     | Ok _ => False
     | Raise (ValidationError errs) => (group :: path) ∈ map err_loc errs
     | Raise _ => True
     end) ∧
  (plain v →
   ∀ obj, setattr Config (VModel cls d) group v = Ok obj →
     ∃ x, obj = VModel cls (<[group := x]> d) ∧ in_range ty x = true) ∧
  (∀ (c : string) (fs : Fields) (c' : string) (m : gmap string PyValue),
     ty = TModel c fs → v = VModel c' m →
     setattr Config (VModel cls d) group v =
     if String.eqb c' c then Ok (VModel cls (<[group := v]> d))
     else Raise (ValidationError [mkError [group] model_type])).
Proof.
  intros Hfind. rewrite (setattr_Config _ _ _ _ _ _ Hfind). split_and!.
  - intros path Hoff.
    pose proof (proj1 offends_reported ty [group] v path Hoff) as H.
    cbn [app] in H.
    destruct (validate_value ty [group] v) as [x|errs|e] eqn:E; [done.. |].
    by rewrite (Config_group_raise _ _ _ _ _ _ Hfind E).
  - intros Hp obj.
    destruct (validate_value ty [group] v) as [x|errs|e] eqn:E; try done.
    intros [= <-]. exists x. split; [done |].
    destruct (Forall_fields_find _ _ _ _ _ Config_fields_in_range Hfind)
      as [_ Hv].
    destruct (Config_group_inv _ _ _ Hfind) as [-> _].
    apply (Hv [group] v ∅ x Hp). by rewrite run_field_plain.
  - intros c fs c' m -> ->. cbn [validate_value].
    by destruct (String.eqb c' c).
Qed.


(** X18.  The exceptions of [from_file] on a file that is there and can
    be read.  A suffix that is none of [.yaml], [.yml] and [.json], in any
    case of the letters, gives the [ValueError] of the unsupported format,
    whatever the file holds.  An exception of the parser is passed on.
    When the document parses to data, the exception raised, if any, is the
    [TypeError] of a document that is not a mapping, a [ValidationError],
    or the [TypeError] of [Path] for a path field that holds something
    that is not a string. *)
Theorem from_file_exceptions (fs : gmap string FileContent)
    (config_path : string) (content : FileContent) :
  fs !! config_path = Some content →
  let suffix := lower (path_suffix config_path) in
  let parsed r :=
    (is_yaml suffix = true ∧ yaml_safe_load content = r)
    ∨ (is_yaml suffix = false ∧ is_json suffix = true ∧
       json_load content = r) in
  (is_yaml suffix = false → is_json suffix = false →
   from_file fs config_path
   = Raise (ValueError ("Unsupported config file format: "
                        ++ path_suffix config_path))) ∧
  (∀ e, parsed (Raise e) → from_file fs config_path = Raise e) ∧
  (∀ data e,
     parsed (Ok data) → from_file fs config_path = Raise e →
     (e = TypeError "argument after ** must be a mapping" ∧
      ∀ kwargs, data ≠ VDict kwargs)
     ∨ (∃ errs, e = ValidationError errs)
     ∨ (e = TypeError "expected str, bytes or os.PathLike object" ∧
        (not_pathlike (item data ["storage"; "cache_directory"]) ∨
         not_pathlike (item data ["storage"; "temp_directory"]) ∨
         not_pathlike (item data ["logging"; "log_file"])))).
Proof.
  intros Hc suffix parsed. subst suffix parsed. cbv beta.
  rewrite (from_file_found _ _ _ Hc). split_and!.
  - by intros -> ->.
  - by intros e [[-> ->] | (-> & -> & ->)].
  - intros data e Hp H.
    assert (model_new Config data = Raise e) as Hnew
      by (by destruct Hp as [[Hy Hl] | (Hy & Hj & Hl)];
          rewrite ?Hy, ?Hj, Hl in H).
    clear H Hp. destruct data as [| | | | | |kwargs| | |];
      lazymatch goal with
      | H : model_new Config (VDict _) = _ |- _ =>
          apply Config_new_raise in H as [H | [H Hbad]]; by auto
      | H : model_new Config _ = _ |- _ =>
          change (@Raise PyValue
                    (TypeError "argument after ** must be a mapping")
                  = Raise e) in H;
          injection H as <-; left; by split
      end.
Qed.

(** X19.  [to_file] with an unsupported suffix.  The file is opened for writing
    before the suffix is looked at: the [ValueError] is raised, but an
    empty file is left at the path, in place of what was there; no other
    file is touched.  Then [from_file] on that path raises the same
    [ValueError], and so does [load_config], which no longer falls back to
    the defaults. *)
Theorem to_file_unsupported_suffix (self : PyValue)
    (fs : gmap string FileContent) (config_path : string)
    (environ : gmap string string) :
  is_yaml (lower (path_suffix config_path)) = false →
  is_json (lower (path_suffix config_path)) = false →
  let unsupported :=
    ValueError ("Unsupported config file format: " ++ path_suffix config_path) in
  snd (to_file self fs config_path) = Some unsupported ∧
  fst (to_file self fs config_path) !! config_path = Some empty_file ∧
  (∀ other, other ≠ config_path →
     fst (to_file self fs config_path) !! other = fs !! other) ∧
  from_file (fst (to_file self fs config_path)) config_path
    = Raise unsupported ∧
  load_config environ (fst (to_file self fs config_path)) (Some config_path)
    = Raise unsupported.
Proof.
  intros Hy Hj unsupported. subst unsupported.
  assert (from_file (<[config_path := empty_file]> fs) config_path
          = Raise (ValueError ("Unsupported config file format: "
                               ++ path_suffix config_path))) as Hfrom
    by (unfold from_file; by rewrite lookup_insert_eq, Hy, Hj).
  unfold to_file. rewrite Hy, Hj. cbn [fst snd]. split_and!.
  - done.
  - apply lookup_insert_eq.
  - intros other Hne. by rewrite lookup_insert_ne.
  - exact Hfrom.
  - unfold load_config.
    destruct (decide (is_Some (<[config_path := empty_file]> fs !! config_path)))
      as [_|Hno]; [exact Hfrom |].
    exfalso. apply Hno. by rewrite lookup_insert_eq.
Qed.

(** X20.  [load_config] without a path.  With no path [load_config] does
    what [get_default_config] does, and with a path at which there is a
    file what [from_file] does.  [get_default_config] raises nothing: it
    returns a configuration in which every field is within its declared
    range and the two weights sum to no more than 1.0. *)
Theorem load_config_falls_back_to_defaults (environ : gmap string string)
    (fs : gmap string FileContent) :
  load_config environ fs None = get_default_config environ ∧
  (∀ config_path, is_Some (fs !! config_path) →
     load_config environ fs (Some config_path) = from_file fs config_path) ∧
  returns (get_default_config environ) (λ config,
    in_range (annotation Config) config = true ∧
    weights_sum_ok config = true).
Proof.
  split_and!.
  - reflexivity.
  - intros p Hp. unfold load_config. by destruct (decide (is_Some (fs !! p))).
  - unfold get_default_config, from_env. rewrite Config_default.
    split; [apply constructed_default_in_range | apply Config_default_weights].
Qed.

End Classes.

(** ** The properties at work, in the reference runtime *)

(** A document that sets the batch size and nothing else. *)
Lemma constructed_config_is_in_range_witness :
  let R := reference_runtime in
  let kwargs : gmap string PyValue :=
    {[ "models" := VDict {[ "batch_size" := VInt 8 ]} ]} in
  returns (model_new Config (VDict kwargs))
          (λ config, in_range (annotation Config) config = true).
Proof.
  intros R kwargs.
  pose proof (constructed_config_is_in_range (VDict kwargs)) as H.
  assert (returns (model_new Config (VDict kwargs)) (λ _, True)) as Hr
    by (vm_compute; exact I).
  destruct (model_new Config (VDict kwargs)) as [config|e]; [| exact Hr].
  apply H; [| reflexivity].
  constructor. apply map_Forall_singleton.
  constructor. apply map_Forall_singleton. constructor.
Defined.

(** A misspelt [modles] beside nothing else. *)
Lemma unknown_keys_are_ignored_witness :
  let R := reference_runtime in
  model_new Config (VDict (<["modles" := VDict ∅]> ∅))
  = model_new Config (VDict ∅).
Proof.
  intros R. apply (proj1 unknown_keys_are_ignored ∅ "modles").
  apply (bool_decide_unpack _). vm_compute. reflexivity.
Defined.

(** A document that sets the batch size: the logging configuration and
    the device are the defaults. *)
Lemma omitted_keys_take_defaults_witness :
  let R := reference_runtime in
  let kwargs : gmap string PyValue :=
    {[ "models" := VDict {[ "batch_size" := VInt 8 ]} ]} in
  returns (model_new Config (VDict kwargs)) (λ config,
    getattr config "logging"
      = Some (default_of (annotation LoggingConfig) DModel) ∧
    attr config ["models"; "device"] = Some (VEnum "DeviceType" "auto")).
Proof.
  intros R kwargs.
  pose proof (omitted_keys_take_defaults kwargs) as H.
  assert (returns (model_new Config (VDict kwargs)) (λ _, True)) as Hr
    by (vm_compute; exact I).
  destruct (model_new Config (VDict kwargs)) as [config|e]; [| exact Hr].
  destruct (H config eq_refl) as [H1 H2]. split.
  - apply (H1 "logging" (annotation LoggingConfig) submodel);
      vm_compute; reflexivity.
  - apply (H2 "models" "ModelConfig" (cls_fields ModelConfig) submodel
             {[ "batch_size" := VInt 8 ]} "device" DeviceType
             (with_serializer serialize_device
                (field (VEnum "DeviceType" "auto"))));
      vm_compute; reflexivity.
Defined.

(** The batch size 100 and the JPEG quality 10. *)
Lemma validation_errors_point_at_given_values_witness :
  let R := reference_runtime in
  let kwargs : gmap string PyValue :=
    {[ "models" := VDict {[ "batch_size" := VInt 100 ]};
       "output" := VDict {[ "image" :=
                     VDict {[ "jpeg" := VDict {[ "quality" := VInt 10 ]} ]} ]} ]} in
  let errs := [mkError ["models"; "batch_size"] less_than_equal;
               mkError ["output"; "image"; "jpeg"; "quality"]
                 greater_than_equal] in
  model_new Config (VDict kwargs) = Raise (ValidationError errs) ∧
  Forall (λ e, is_Some (item (VDict kwargs) (err_loc e))) errs.
Proof.
  intros R kwargs errs.
  assert (model_new Config (VDict kwargs) = Raise (ValidationError errs)) as E
    by (vm_compute; reflexivity).
  split; [exact E |].
  exact (proj2 (validation_errors_point_at_given_values kwargs errs E)).
Defined.

(** The batch size 100 assigned with a new [models] mapping, and an
    instance that holds the batch size 1000. *)
Lemma config_assignment_is_validated_witness :
  let R := reference_runtime in
  let instance := VModel "ModelConfig" {[ "batch_size" := VInt 1000 ]} in
  match setattr Config (VModel "Config" ∅) "models"
          (VDict {[ "batch_size" := VInt 100 ]}) with
  | Ok _ => False
  | Raise (ValidationError errs) =>
      ["models"; "batch_size"] ∈ map err_loc errs
  | Raise _ => True
  end ∧
  setattr Config (VModel "Config" ∅) "models" instance
  = Ok (VModel "Config" {[ "models" := instance ]}).
Proof.
  intros R instance. split.
  - apply (proj1 (config_assignment_is_validated "Config" ∅ "models"
                    (annotation ModelConfig) submodel
                    (VDict {[ "batch_size" := VInt 100 ]}) eq_refl)
                 ["batch_size"]).
    do 4 right. left. exists (VInt 100), (VInt 100), [].
    split_and!; [reflexivity | reflexivity | reflexivity |].
    split; [reflexivity |]. vm_compute. discriminate.
  - apply (proj2 (proj2 (config_assignment_is_validated "Config" ∅ "models"
                    (annotation ModelConfig) submodel instance eq_refl))
                 "ModelConfig" (cls_fields ModelConfig) "ModelConfig"
                 {[ "batch_size" := VInt 1000 ]});
      reflexivity.
Defined.


(** A file named [config.txt], and an empty file named [config.json]. *)
Lemma from_file_exceptions_witness :
  let R := reference_runtime in
  let fs : gmap string FileContent :=
    {[ "config.txt" := Some (VDict ∅); "config.json" := None ]} in
  from_file fs "config.txt"
  = Raise (ValueError ("Unsupported config file format: "
                       ++ path_suffix "config.txt")) ∧
  from_file fs "config.json" = Raise (LibraryError "Expecting value").
Proof.
  intros R fs. split.
  - apply (proj1 (from_file_exceptions fs "config.txt" (Some (VDict ∅))
                    eq_refl)); reflexivity.
  - apply (proj1 (proj2 (from_file_exceptions fs "config.json" None eq_refl))).
    right. split_and!; reflexivity.
Defined.

(** The default configuration saved as [config.txt]. *)
Lemma to_file_unsupported_suffix_witness :
  let R := reference_runtime in
  let config := default_of (annotation Config) DModel in
  let unsupported := ValueError "Unsupported config file format: .txt" in
  snd (to_file config ∅ "config.txt") = Some unsupported ∧
  fst (to_file config ∅ "config.txt") !! "config.txt" = Some empty_file ∧
  load_config ∅ (fst (to_file config ∅ "config.txt")) (Some "config.txt")
    = Raise unsupported.
Proof.
  intros R config unsupported.
  destruct (to_file_unsupported_suffix config ∅ "config.txt" ∅)
    as (H1 & H2 & _ & _ & H5); [reflexivity | reflexivity |].
  split; [exact H1 |]. split; [exact H2 | exact H5].
Defined.

(** A path at which there is a file that holds an empty mapping. *)
Lemma load_config_falls_back_to_defaults_witness :
  let R := reference_runtime in
  let fs : gmap string FileContent := {[ "config.yaml" := Some (VDict ∅) ]} in
  load_config ∅ fs (Some "config.yaml") = from_file fs "config.yaml".
Proof.
  intros R fs.
  apply (proj1 (proj2 (load_config_falls_back_to_defaults ∅ fs))).
  by eexists.
Defined.

End ConfigProps.
